(** * pytypedecl: the visitors of [parse/visitors.py]

    A shallow embedding of the tree visitors of pytypedecl (the pretty
    printer, [StripSelf], the class resolution pair [LookupClasses] /
    [FillInClasses], [ReplaceType] and [InstantiateTemplates]) together with
    the properties its specification states about them.

    Python objects whose identity or mutation is observable are kept in an
    explicit store: a [ClassType] node owns a mutable [cls] cell, a [Class]
    object carries the address it was allocated at, and the dictionary of a
    running [InstantiateTemplates] visitor is part of the state.  Everything
    else is an immutable tuple and is modelled by its value. *)

From Stdlib Require Import Ascii String.
From stdpp Require Import gmap strings list fin_maps.

Set Warnings "-register-all".
Open Scope string_scope.
Open Scope list_scope.

(** ** Strings *)

(** [sep.join(l)] *)
Fixpoint join (sep : string) (l : list string) : string :=
  match l with
  | [] => ""
  | [x] => x
  | x :: l' => x +:+ sep +:+ join sep l'
  end.

Definition LF : ascii := Ascii.ascii_of_nat 10.
Definition CR : ascii := Ascii.ascii_of_nat 13.
Definition NL : string := String LF "".

(** [s.splitlines()] of a Python 2 byte string: lines end at LF, CR or
    CR LF, and a line break at the very end opens no further line. *)
Fixpoint splitlines_from (cur : string) (s : string) : list string :=
  match s with
  | "" => if decide (cur = "") then [] else [cur]
  | String c s' =>
      if decide (c = LF) then cur :: splitlines_from "" s'
      else if decide (c = CR) then
        match s' with
        | String c' s'' =>
            if decide (c' = LF) then cur :: splitlines_from "" s''
            else cur :: splitlines_from "" s'
        | "" => [cur]
        end
      else splitlines_from (cur +:+ String c "") s'
  end.

Definition splitlines (s : string) : list string := splitlines_from "" s.

Definition in_range (lo hi : nat) (c : ascii) : bool :=
  (lo <=? Ascii.nat_of_ascii c)%nat && (Ascii.nat_of_ascii c <=? hi)%nat.

(** [[a-zA-Z_]] *)
Definition is_name_start (c : ascii) : bool :=
  in_range 97 122 c || in_range 65 90 c || bool_decide (c = "_"%char).

(** [\w] without the LOCALE and UNICODE flags *)
Definition is_word (c : ascii) : bool :=
  is_name_start c || in_range 48 57 c.

(** [\w*$]: [$] also matches just before a line feed that ends the string. *)
Fixpoint match_word_tail (s : string) : bool :=
  match s with
  | "" => true
  | String c s' =>
      match s' with
      | "" => is_word c || bool_decide (c = LF)
      | _ => is_word c && match_word_tail s'
      end
  end.

(** ** The node model

    [pytd.py] is not part of the sources at hand; the nodes are the ones the
    visitors take apart. *)

Definition loc := nat.

(** Modelled from the spec: the type expressions of [pytd].  NamedType is the
    code's [BasicType], ClassReference its [ClassType] and ContainerType its
    [HomogeneousContainerType]; [NativeType] carries the [__name__] of its
    [python_type].  A [ClassType] is the one mutable node: [name] is fixed at
    construction, [cls] is the address of its link cell. *)
Inductive pytd_type : Type :=
  | BasicType (containing_type : string)
  | NativeType (python_type : string)
  | ClassType (name : string) (cls : loc)
  | HomogeneousContainerType (base_type element_type : pytd_type)
  | GenericType (base_type : pytd_type) (parameters : list pytd_type)
  | UnionType (type_list : list pytd_type)
  | IntersectionType (type_list : list pytd_type).

(** Modelled from the spec: Constant (name, type). *)
Record Constant : Type := {
  const_name : string;
  const_type : pytd_type
}.

(** Modelled from the spec: Parameter (name, type). *)
Record Param : Type := {
  param_name : string;
  param_type : pytd_type
}.

(** Modelled from the spec: Signature (parameters, variadic marker, return
    type, exceptions). *)
Record Signature : Type := {
  sig_params : list Param;
  sig_has_optional : bool;
  sig_return_type : pytd_type;
  sig_exceptions : list pytd_type
}.

(** Modelled from the spec: Function (name, overloads). *)
Record Function : Type := {
  fn_name : string;
  fn_signatures : list Signature
}.

(** Modelled from the spec: TemplateItem (name, upper bound). *)
Record TemplateItem : Type := {
  tmpl_name : string;
  tmpl_within_type : pytd_type
}.

(** Modelled from the spec: Class (name, template or [None], parents,
    constants, methods).  [cls_oid] is the identity of the Python object:
    the address handed out when the tuple was built. *)
Record Class : Type := {
  cls_oid : loc;
  cls_name : string;
  cls_template : option (list TemplateItem);
  cls_parents : list pytd_type;
  cls_constants : list Constant;
  cls_methods : list Function
}.

(** Modelled from the spec: Module, the code's [TypeDeclUnit] (constants,
    functions, classes). *)
Record TypeDeclUnit : Type := {
  unit_constants : list Constant;
  unit_functions : list Function;
  unit_classes : list Class
}.

(** ** Exceptions, the store and the monad of visitors *)

(** The exceptions a visitor run can end with.  [KeyError] is what [Lookup]
    raises for an unknown class name, [NotImplementedError] what
    [VisitGenericType] raises; [TypeError] and [AttributeError] are the
    interpreter's own (iterating [None], a missing attribute). *)
Inductive exception : Type :=
  | KeyError (key : string)
  | NotImplementedError
  | TypeError
  | AttributeError.

Inductive result (A : Type) : Type :=
  | Ok (a : A)
  | Raise (e : exception).
Arguments Ok {A} a.
Arguments Raise {A} e.

(** [cells] holds the [cls] attribute of every [ClassType] object (absent
    means [None]), [next] is the next free address and
    [instantiated_classes] the dictionary of the [InstantiateTemplates]
    visitor at work.  A class object never changes once it is built, so a
    reference to it is kept as the object itself; [cls_oid] tells two
    objects with equal fields apart. *)
Record state : Type := {
  cells : gmap loc Class;
  next : loc;
  instantiated_classes : gmap string Class
}.

(** A computation keeps the state it reached when it raises: nothing is
    rolled back. *)
Definition M (A : Type) : Type := state → result A * state.

Definition ret {A} (a : A) : M A := λ s, (Ok a, s).

Definition raise {A} (e : exception) : M A := λ s, (Raise e, s).

Definition bind {A B} (m : M A) (k : A → M B) : M B :=
  λ s, match m s with
       | (Ok a, s') => k a s'
       | (Raise e, s') => (Raise e, s')
       end.

Notation "'let*' x ':=' m 'in' k" := (bind m (λ x, k))
  (at level 10, x name, m at level 100, k at level 200).

Definition lift {A} (r : result A) : M A := λ s, (r, s).

Definition mapM {A B} (f : A → M B) : list A → M (list B) :=
  fix go l :=
    match l with
    | [] => ret []
    | x :: l' => let* y := f x in let* ys := go l' in ret (y :: ys)
    end.

(** A new object: its address is [next]. *)
Definition fresh : M loc :=
  λ s, (Ok (next s),
        {| cells := cells s; next := S (next s);
           instantiated_classes := instantiated_classes s |}).

(** ** [PrintVisitor] *)

Module PrintVisitor.

Definition INDENT : string := "    ".

Definition VALID_NAME (name : string) : bool :=
  match name with
  | "" => false
  | String c s => is_name_start c && match_word_tail s
  end.

Definition SafeName (name : string) : string :=
  if VALID_NAME name then name else "`" +:+ name +:+ "`".

(** The handlers.  The traversal is post-order, so a handler sees its node
    with every child already replaced by its text. *)

Definition VisitTypeDeclUnit (constants functions classes : list string) : string :=
  join (NL +:+ NL)
    (map (join NL)
       (filter (λ section : list string, section ≠ [])
          [constants; functions; classes])).

Definition VisitConstant (name type : string) : string :=
  name +:+ ": " +:+ type.

Definition VisitClass (name : string) (template : option (list string))
    (parents constants methods : list string) : string :=
  let parents_text :=
    if decide (parents = []) then "" else "(" +:+ join ", " parents +:+ ")" in
  let template_text :=
    match template with
    | Some (t :: ts) => "<" +:+ join ", " (t :: ts) +:+ ">"
    | _ => ""
    end in
  let constants' := map (λ m, INDENT +:+ m) constants in
  let methods' :=
    if decide (methods = []) then [INDENT +:+ "pass"]
    else map (λ m, INDENT +:+ m) (concat (map splitlines methods)) in
  let header := "class " +:+ SafeName name +:+ template_text +:+ parents_text +:+ ":" in
  join NL ([header] ++ constants' ++ methods') +:+ NL.

Definition VisitFunction (name : string) (signatures : list string) : string :=
  join NL (map (λ sig, "def " +:+ name +:+ sig) signatures).

Definition VisitSignature (params : list string) (has_optional : bool)
    (return_type : string) (exceptions : list string) : string :=
  let ret := if decide (return_type ≠ "object") then " -> " +:+ return_type else "" in
  let exc :=
    if decide (exceptions = []) then "" else " raises " +:+ join ", " exceptions in
  let optional := if has_optional then ["..."] else [] in
  "(" +:+ join ", " (params ++ optional) +:+ ")" +:+ ret +:+ exc.

Definition VisitParameter (name type : string) : string :=
  if decide (type ≠ "object") then name +:+ ": " +:+ type else name.

Definition VisitTemplateItem (name within_type : string) : string :=
  name +:+ "<" +:+ within_type +:+ ">".

Definition VisitBasicType (containing_type : string) : string :=
  SafeName containing_type.

Definition VisitNativeType (python_type : string) : string :=
  SafeName python_type.

(** [node.cls.name]: an empty cell holds [None], which has no [name]. *)
Definition VisitClassType (cells : gmap loc Class) (cls : loc) : result string :=
  match cells !! cls with
  | Some c => Ok (SafeName (cls_name c))
  | None => Raise AttributeError
  end.

Definition VisitHomogeneousContainerType (base_type element_type : string) : string :=
  base_type +:+ "<" +:+ element_type +:+ ">".

Definition VisitGenericType (base_type : string) (parameters : list string) : string :=
  base_type +:+ "<" +:+ join ", " parameters +:+ ">".

Definition VisitUnionType (type_list : list string) : string :=
  join " or " type_list.

Definition VisitIntersectionType (type_list : list string) : string :=
  join " and " type_list.

End PrintVisitor.

(** [node.Visit(PrintVisitor())].  Printing reads the store and changes
    nothing, so it is a function of the cells. *)

Definition rbind {A B} (r : result A) (k : A → result B) : result B :=
  match r with
  | Ok a => k a
  | Raise e => Raise e
  end.

Notation "'let+' x ':=' m 'in' k" := (rbind m (λ x, k))
  (at level 10, x name, m at level 100, k at level 200).

Definition rmap {A B} (f : A → result B) : list A → result (list B) :=
  fix go l :=
    match l with
    | [] => Ok []
    | x :: l' => let+ y := f x in let+ ys := go l' in Ok (y :: ys)
    end.

Fixpoint print_type (h : gmap loc Class) (t : pytd_type) : result string :=
  match t with
  | BasicType n => Ok (PrintVisitor.VisitBasicType n)
  | NativeType n => Ok (PrintVisitor.VisitNativeType n)
  | ClassType _ c => PrintVisitor.VisitClassType h c
  | HomogeneousContainerType b e =>
      let+ b' := print_type h b in
      let+ e' := print_type h e in
      Ok (PrintVisitor.VisitHomogeneousContainerType b' e')
  | GenericType b ps =>
      let+ b' := print_type h b in
      let+ ps' := rmap (print_type h) ps in
      Ok (PrintVisitor.VisitGenericType b' ps')
  | UnionType ts =>
      let+ ts' := rmap (print_type h) ts in
      Ok (PrintVisitor.VisitUnionType ts')
  | IntersectionType ts =>
      let+ ts' := rmap (print_type h) ts in
      Ok (PrintVisitor.VisitIntersectionType ts')
  end.

Definition print_Constant (h : gmap loc Class) (c : Constant) : result string :=
  let+ t := print_type h (const_type c) in
  Ok (PrintVisitor.VisitConstant (const_name c) t).

Definition print_Parameter (h : gmap loc Class) (p : Param) : result string :=
  let+ t := print_type h (param_type p) in
  Ok (PrintVisitor.VisitParameter (param_name p) t).

Definition print_Signature (h : gmap loc Class) (sg : Signature) : result string :=
  let+ ps := rmap (print_Parameter h) (sig_params sg) in
  let+ r := print_type h (sig_return_type sg) in
  let+ es := rmap (print_type h) (sig_exceptions sg) in
  Ok (PrintVisitor.VisitSignature ps (sig_has_optional sg) r es).

Definition print_Function (h : gmap loc Class) (f : Function) : result string :=
  let+ sgs := rmap (print_Signature h) (fn_signatures f) in
  Ok (PrintVisitor.VisitFunction (fn_name f) sgs).

Definition print_TemplateItem (h : gmap loc Class) (t : TemplateItem) : result string :=
  let+ w := print_type h (tmpl_within_type t) in
  Ok (PrintVisitor.VisitTemplateItem (tmpl_name t) w).

Definition print_template (h : gmap loc Class) (t : option (list TemplateItem))
    : result (option (list string)) :=
  match t with
  | None => Ok None
  | Some l => let+ l' := rmap (print_TemplateItem h) l in Ok (Some l')
  end.

Definition print_Class (h : gmap loc Class) (c : Class) : result string :=
  let+ t := print_template h (cls_template c) in
  let+ ps := rmap (print_type h) (cls_parents c) in
  let+ cs := rmap (print_Constant h) (cls_constants c) in
  let+ ms := rmap (print_Function h) (cls_methods c) in
  Ok (PrintVisitor.VisitClass (cls_name c) t ps cs ms).

Definition print_TypeDeclUnit (h : gmap loc Class) (u : TypeDeclUnit) : result string :=
  let+ cs := rmap (print_Constant h) (unit_constants u) in
  let+ fs := rmap (print_Function h) (unit_functions u) in
  let+ cls := rmap (print_Class h) (unit_classes u) in
  Ok (PrintVisitor.VisitTypeDeclUnit cs fs cls).

(** ** The traversal protocol *)

(** Modelled from the spec: a visitor maps node kinds to handlers.  The
    record has a field for every kind some tree-rewriting visitor of
    [visitors.py] handles; a visitor without a handler for a kind uses the
    default below, and the kinds that have no field are always rebuilt. *)
Record Visitor : Type := {
  VisitBasicType : string → M pytd_type;
  VisitClassType : string → loc → M pytd_type;
  VisitHomogeneousContainerType : pytd_type → pytd_type → M pytd_type;
  VisitGenericType : pytd_type → list pytd_type → M pytd_type;
  VisitClass : Class → M Class;
  VisitTypeDeclUnit : TypeDeclUnit → M (option TypeDeclUnit)
}.

Definition default_BasicType (n : string) : M pytd_type := ret (BasicType n).
Definition default_ClassType (n : string) (c : loc) : M pytd_type := ret (ClassType n c).
Definition default_HomogeneousContainerType (b e : pytd_type) : M pytd_type :=
  ret (HomogeneousContainerType b e).
Definition default_GenericType (b : pytd_type) (ps : list pytd_type) : M pytd_type :=
  ret (GenericType b ps).
Definition default_Class (c : Class) : M Class := ret c.
Definition default_TypeDeclUnit (u : TypeDeclUnit) : M (option TypeDeclUnit) :=
  ret (Some u).

(** Modelled from the spec: [node.Visit(visitor)].  Children first, in field
    order; then the node is rebuilt from the results and handed to the
    handler of its kind.  A [ClassType] is not a tuple: it is handed over as
    it is, cell included.  A rebuilt [Class] is a new object. *)
Fixpoint Visit_type (v : Visitor) (t : pytd_type) : M pytd_type :=
  match t with
  | BasicType n => VisitBasicType v n
  | NativeType n => ret (NativeType n)
  | ClassType n c => VisitClassType v n c
  | HomogeneousContainerType b e =>
      let* b' := Visit_type v b in
      let* e' := Visit_type v e in
      VisitHomogeneousContainerType v b' e'
  | GenericType b ps =>
      let* b' := Visit_type v b in
      let* ps' := mapM (Visit_type v) ps in
      VisitGenericType v b' ps'
  | UnionType ts =>
      let* ts' := mapM (Visit_type v) ts in
      ret (UnionType ts')
  | IntersectionType ts =>
      let* ts' := mapM (Visit_type v) ts in
      ret (IntersectionType ts')
  end.

Definition Visit_Constant (v : Visitor) (c : Constant) : M Constant :=
  let* t := Visit_type v (const_type c) in
  ret {| const_name := const_name c; const_type := t |}.

Definition Visit_Parameter (v : Visitor) (p : Param) : M Param :=
  let* t := Visit_type v (param_type p) in
  ret {| param_name := param_name p; param_type := t |}.

Definition Visit_Signature (v : Visitor) (sg : Signature) : M Signature :=
  let* ps := mapM (Visit_Parameter v) (sig_params sg) in
  let* r := Visit_type v (sig_return_type sg) in
  let* es := mapM (Visit_type v) (sig_exceptions sg) in
  ret {| sig_params := ps; sig_has_optional := sig_has_optional sg;
         sig_return_type := r; sig_exceptions := es |}.

Definition Visit_Function (v : Visitor) (f : Function) : M Function :=
  let* sgs := mapM (Visit_Signature v) (fn_signatures f) in
  ret {| fn_name := fn_name f; fn_signatures := sgs |}.

Definition Visit_TemplateItem (v : Visitor) (t : TemplateItem) : M TemplateItem :=
  let* w := Visit_type v (tmpl_within_type t) in
  ret {| tmpl_name := tmpl_name t; tmpl_within_type := w |}.

Definition Visit_template (v : Visitor) (t : option (list TemplateItem))
    : M (option (list TemplateItem)) :=
  match t with
  | None => ret None
  | Some l => let* l' := mapM (Visit_TemplateItem v) l in ret (Some l')
  end.

Definition Visit_Class (v : Visitor) (c : Class) : M Class :=
  let* t := Visit_template v (cls_template c) in
  let* ps := mapM (Visit_type v) (cls_parents c) in
  let* cs := mapM (Visit_Constant v) (cls_constants c) in
  let* ms := mapM (Visit_Function v) (cls_methods c) in
  let* o := fresh in
  VisitClass v {| cls_oid := o; cls_name := cls_name c; cls_template := t;
                  cls_parents := ps; cls_constants := cs; cls_methods := ms |}.

Definition Visit_TypeDeclUnit (v : Visitor) (u : TypeDeclUnit)
    : M (option TypeDeclUnit) :=
  let* cs := mapM (Visit_Constant v) (unit_constants u) in
  let* fs := mapM (Visit_Function v) (unit_functions u) in
  let* cls := mapM (Visit_Class v) (unit_classes u) in
  VisitTypeDeclUnit v {| unit_constants := cs; unit_functions := fs;
                         unit_classes := cls |}.

(** Modelled from the spec: [unit.Lookup(name)], the module as the symbol
    table of its own classes. *)
Definition Lookup (symbol_table : TypeDeclUnit) (name : string) : result Class :=
  match find (λ c, bool_decide (cls_name c = name)) (unit_classes symbol_table) with
  | Some c => Ok c
  | None => Raise (KeyError name)
  end.

(** ** [StripSelf] *)

Module StripSelf.

(** [node._replace(params=node.params[1:])] *)
Definition StripSignature (node : Signature) : Signature :=
  {| sig_params := tail (sig_params node);
     sig_has_optional := sig_has_optional node;
     sig_return_type := sig_return_type node;
     sig_exceptions := sig_exceptions node |}.

Definition _StripFunction (node : Function) : Function :=
  {| fn_name := fn_name node;
     fn_signatures := map StripSignature (fn_signatures node) |}.

Definition VisitClass (node : Class) : M Class :=
  let* o := fresh in
  ret {| cls_oid := o; cls_name := cls_name node;
         cls_template := cls_template node; cls_parents := cls_parents node;
         cls_constants := cls_constants node;
         cls_methods := map _StripFunction (cls_methods node) |}.

Definition visitor : Visitor :=
  Build_Visitor
    default_BasicType
    default_ClassType
    default_HomogeneousContainerType
    default_GenericType
    VisitClass
    default_TypeDeclUnit.

End StripSelf.

(** ** [FillInClasses] and [LookupClasses] *)

(** [node.cls = c] *)
Definition set_cls (l : loc) (c : Class) : M unit :=
  λ s, (Ok tt,
        {| cells := <[l := c]> (cells s); next := next s;
           instantiated_classes := instantiated_classes s |}).

(** [pytd.ClassType(name)]: a new object whose [cls] is [None]. *)
Definition new_ClassType (name : string) : M pytd_type :=
  λ s, (Ok (ClassType name (next s)),
        {| cells := delete (next s) (cells s); next := S (next s);
           instantiated_classes := instantiated_classes s |}).

Module FillInClasses.

Definition VisitTypeDeclUnit (unused_unit : TypeDeclUnit) : M (option TypeDeclUnit) :=
  ret None.

Definition VisitClassType (symbol_table : TypeDeclUnit) (name : string) (cls : loc)
    : M pytd_type :=
  let* c := lift (Lookup symbol_table name) in
  let* _ := set_cls cls c in
  ret (ClassType name cls).

Definition visitor (symbol_table : TypeDeclUnit) : Visitor :=
  Build_Visitor
    default_BasicType
    (VisitClassType symbol_table)
    default_HomogeneousContainerType
    default_GenericType
    default_Class
    VisitTypeDeclUnit.

End FillInClasses.

Module LookupClasses.

Definition VisitTypeDeclUnit (unit : TypeDeclUnit) : M (option TypeDeclUnit) :=
  let* _ := Visit_TypeDeclUnit (FillInClasses.visitor unit) unit in
  ret (Some unit).

Definition VisitBasicType (containing_type : string) : M pytd_type :=
  new_ClassType containing_type.

Definition visitor : Visitor :=
  Build_Visitor
    VisitBasicType
    default_ClassType
    default_HomogeneousContainerType
    default_GenericType
    default_Class
    VisitTypeDeclUnit.

End LookupClasses.

(** ** [ReplaceType] *)

Module ReplaceType.

Definition VisitBasicType (mapping : gmap string pytd_type) (containing_type : string)
    : M pytd_type :=
  match mapping !! containing_type with
  | Some t => ret t
  | None => ret (BasicType containing_type)
  end.

Definition visitor (mapping : gmap string pytd_type) : Visitor :=
  Build_Visitor
    (VisitBasicType mapping)
    default_ClassType
    default_HomogeneousContainerType
    default_GenericType
    default_Class
    default_TypeDeclUnit.

End ReplaceType.

(** ** [InstantiateTemplates] *)

(** [node.Visit(PrintVisitor())] from inside a visitor *)
Definition print (t : pytd_type) : M string :=
  λ s, (print_type (cells s) t, s).

Definition get_instantiated_classes : M (gmap string Class) :=
  λ s, (Ok (instantiated_classes s), s).

Definition set_instantiated_classes (d : gmap string Class) : M unit :=
  λ s, (Ok tt, {| cells := cells s; next := next s; instantiated_classes := d |}).

(** [{name: e for name, e in pairs}]: a later pair overrides an earlier one. *)
Definition dict_of (pairs : list (string * pytd_type)) : gmap string pytd_type :=
  foldl (λ d p, <[p.1 := p.2]> d) ∅ pairs.

(** [d.values()] *)
Definition values (d : gmap string Class) : list Class :=
  map snd (map_to_list d).

Module InstantiateTemplates.

(** [self._instantiated_classes = {}] *)
Definition __init__ : M unit := set_instantiated_classes ∅.

Definition VisitTypeDeclUnit (node : TypeDeclUnit) : M (option TypeDeclUnit) :=
  let old_classes := filter (λ c, cls_template c = None) (unit_classes node) in
  let* d := get_instantiated_classes in
  let new_classes := values d in
  ret (Some {| unit_constants := unit_constants node;
               unit_functions := unit_functions node;
               unit_classes := old_classes ++ new_classes |}).

Definition _InstantiateClass (symbol_table : TypeDeclUnit) (name : string)
    (base_type : pytd_type) (element_types : list pytd_type) : M Class :=
  let* containing_type :=
    match base_type with
    | BasicType n => ret n
    | _ => raise AttributeError
    end in
  let* cls := lift (Lookup symbol_table containing_type) in
  let* template :=
    match cls_template cls with
    | Some t => ret t
    | None => raise TypeError
    end in
  let names := map tmpl_name template in
  let mapping := dict_of (zip names element_types) in
  let* o := fresh in
  Visit_Class (ReplaceType.visitor mapping)
    {| cls_oid := o; cls_name := name; cls_template := None;
       cls_parents := cls_parents cls; cls_constants := cls_constants cls;
       cls_methods := cls_methods cls |}.

Definition VisitHomogeneousContainerType (symbol_table : TypeDeclUnit)
    (base_type element_type : pytd_type) : M pytd_type :=
  let* base_type_name := print base_type in
  let* element_type_name := print element_type in
  let name := base_type_name +:+ "<" +:+ element_type_name +:+ ">" in
  let* d := get_instantiated_classes in
  let* _ :=
    match d !! name with
    | None =>
        let* c := _InstantiateClass symbol_table name base_type [element_type] in
        let* d' := get_instantiated_classes in
        set_instantiated_classes (<[name := c]> d')
    | Some _ => ret tt
    end in
  ret (BasicType name).

Definition VisitGenericType (base_type : pytd_type) (parameters : list pytd_type)
    : M pytd_type :=
  raise NotImplementedError.

Definition visitor (symbol_table : TypeDeclUnit) : Visitor :=
  Build_Visitor
    default_BasicType
    default_ClassType
    (VisitHomogeneousContainerType symbol_table)
    VisitGenericType
    default_Class
    VisitTypeDeclUnit.

(** [unit.Visit(InstantiateTemplates(symbol_table))] *)
Definition run (symbol_table : TypeDeclUnit) (unit : TypeDeclUnit)
    : M (option TypeDeclUnit) :=
  let* _ := __init__ in
  Visit_TypeDeclUnit (visitor symbol_table) unit.

End InstantiateTemplates.

(** ** Statements: auxiliary definitions *)

(** The universal type: the named type [object], the default of an
    unannotated parameter or return type. *)
Definition object_type : pytd_type := BasicType "object".

(** A relation between the state before and the state after a computation,
    whatever its outcome. *)
Definition preserves (R : state → state → Prop) {A} (m : M A) : Prop :=
  ∀ s r s', m s = (r, s') → R s s'.

(** *** Examples *)

Definition any_param : Param := {| param_name := "x"; param_type := object_type |}.

Definition int_signature : Signature :=
  {| sig_params := [any_param; {| param_name := "y"; param_type := BasicType "int" |}];
     sig_has_optional := false;
     sig_return_type := BasicType "int";
     sig_exceptions := [] |}.

Definition class_with_constant : Class :=
  {| cls_oid := 0; cls_name := "A"; cls_template := None; cls_parents := [];
     cls_constants := [{| const_name := "x"; const_type := BasicType "int" |}];
     cls_methods := [] |}.

(** The state of a fresh interpreter. *)
Definition initial_state : state :=
  {| cells := ∅; next := 0; instantiated_classes := ∅ |}.

(** [def f() -> int], a method without any parameter, in a class [C]. *)
Definition signature_without_parameters : Signature :=
  {| sig_params := []; sig_has_optional := false;
     sig_return_type := BasicType "int"; sig_exceptions := [] |}.

Definition class_without_self : Class :=
  {| cls_oid := 0; cls_name := "C"; cls_template := None; cls_parents := [];
     cls_constants := [];
     cls_methods :=
       [{| fn_name := "f"; fn_signatures := [signature_without_parameters] |}] |}.

(** [def get(self, key: str) -> int raises KeyError] in a class [D]. *)
Definition signature_with_self : Signature :=
  {| sig_params := [{| param_name := "self"; param_type := object_type |};
                    {| param_name := "key"; param_type := BasicType "str" |}];
     sig_has_optional := false;
     sig_return_type := BasicType "int";
     sig_exceptions := [BasicType "KeyError"] |}.

Definition class_with_self : Class :=
  {| cls_oid := 0; cls_name := "D"; cls_template := None; cls_parents := [];
     cls_constants := [];
     cls_methods := [{| fn_name := "get"; fn_signatures := [signature_with_self] |}] |}.

(** *** Template substitution, in the words of the specification

    Everywhere a NamedType node's name equals a key of the mapping, the node
    is replaced by the argument type; all other nodes are copied. *)

Fixpoint replace_named (mapping : gmap string pytd_type) (t : pytd_type) : pytd_type :=
  match t with
  | BasicType n => default (BasicType n) (mapping !! n)
  | NativeType n => NativeType n
  | ClassType n c => ClassType n c
  | HomogeneousContainerType b e =>
      HomogeneousContainerType (replace_named mapping b) (replace_named mapping e)
  | GenericType b ps =>
      GenericType (replace_named mapping b) (map (replace_named mapping) ps)
  | UnionType ts => UnionType (map (replace_named mapping) ts)
  | IntersectionType ts => IntersectionType (map (replace_named mapping) ts)
  end.

Definition replace_in_Constant (mapping : gmap string pytd_type) (c : Constant)
    : Constant :=
  {| const_name := const_name c; const_type := replace_named mapping (const_type c) |}.

Definition replace_in_Parameter (mapping : gmap string pytd_type) (p : Param) : Param :=
  {| param_name := param_name p; param_type := replace_named mapping (param_type p) |}.

Definition replace_in_Signature (mapping : gmap string pytd_type) (sg : Signature)
    : Signature :=
  {| sig_params := map (replace_in_Parameter mapping) (sig_params sg);
     sig_has_optional := sig_has_optional sg;
     sig_return_type := replace_named mapping (sig_return_type sg);
     sig_exceptions := map (replace_named mapping) (sig_exceptions sg) |}.

Definition replace_in_Function (mapping : gmap string pytd_type) (f : Function)
    : Function :=
  {| fn_name := fn_name f;
     fn_signatures := map (replace_in_Signature mapping) (fn_signatures f) |}.

(** The copy of [cls] that is named [name], has no template and has the
    mapping applied throughout; [o] is the address of the new object. *)
Definition instantiated_class (name : string) (mapping : gmap string pytd_type)
    (cls : Class) (o : loc) : Class :=
  {| cls_oid := o; cls_name := name; cls_template := None;
     cls_parents := map (replace_named mapping) (cls_parents cls);
     cls_constants := map (replace_in_Constant mapping) (cls_constants cls);
     cls_methods := map (replace_in_Function mapping) (cls_methods cls) |}.

(** The state after [n] more objects have been built. *)
Definition allocate (n : nat) (s : state) : state :=
  {| cells := cells s; next := n + next s;
     instantiated_classes := instantiated_classes s |}.

(** The canonical name of an instantiation. *)
Definition canonical_name (base_text element_text : string) : string :=
  base_text +:+ "<" +:+ element_text +:+ ">".

(** The number of classes of a list that bear a given name. *)
Definition count_named (name : string) (l : list Class) : nat :=
  length (filter (λ c, cls_name c = name) l).

(** Every class of the dictionary is stored under its own name and has no
    template. *)
Definition well_keyed (d : gmap string Class) : Prop :=
  ∀ k c, d !! k = Some c → cls_name c = k ∧ cls_template c = None.

(** What the traversal of [InstantiateTemplates] never does to the state:
    it leaves the cells alone, takes no address back and neither drops nor
    changes an entry of the dictionary. *)
Definition grows (s s' : state) : Prop :=
  cells s' = cells s ∧ (next s ≤ next s')%nat ∧
  instantiated_classes s ⊆ instantiated_classes s'.

(** Only addresses are handed out. *)
Definition only_allocates (s s' : state) : Prop :=
  cells s' = cells s ∧ (next s ≤ next s')%nat ∧
  instantiated_classes s' = instantiated_classes s.

Definition keeps_well_keyed (s s' : state) : Prop :=
  well_keyed (instantiated_classes s) → well_keyed (instantiated_classes s').

(** [class Box<T>: item: T] *)
Definition Box : Class :=
  {| cls_oid := 0; cls_name := "Box";
     cls_template := Some [{| tmpl_name := "T"; tmpl_within_type := object_type |}];
     cls_parents := [];
     cls_constants := [{| const_name := "item"; const_type := BasicType "T" |}];
     cls_methods := [] |}.

Definition Box_of_int : pytd_type :=
  HomogeneousContainerType (BasicType "Box") (BasicType "int").

(** A module that uses [Box<int>] twice. *)
Definition module_Box : TypeDeclUnit :=
  {| unit_constants := [{| const_name := "x"; const_type := Box_of_int |};
                        {| const_name := "y"; const_type := Box_of_int |}];
     unit_functions := [];
     unit_classes := [Box] |}.

(** [class Pair<K, V>: first: K; second: V], used as [Pair<int>]. *)
Definition Pair : Class :=
  {| cls_oid := 0; cls_name := "Pair";
     cls_template := Some [{| tmpl_name := "K"; tmpl_within_type := object_type |};
                           {| tmpl_name := "V"; tmpl_within_type := object_type |}];
     cls_parents := [];
     cls_constants := [{| const_name := "first"; const_type := BasicType "K" |};
                       {| const_name := "second"; const_type := BasicType "V" |}];
     cls_methods := [] |}.

Definition module_Pair : TypeDeclUnit :=
  {| unit_constants := []; unit_functions := []; unit_classes := [Pair] |}.

(** A module that uses [Box<int>] and then a generic type with two
    arguments. *)
Definition module_generic : TypeDeclUnit :=
  {| unit_constants :=
       [{| const_name := "x"; const_type := Box_of_int |};
        {| const_name := "d";
           const_type := GenericType (BasicType "dict")
                           [BasicType "str"; BasicType "int"] |}];
     unit_functions := [];
     unit_classes := [Box] |}.

(** What a run of [InstantiateTemplates] makes of [module_Box], and the state
    it ends in. *)
Definition Box_int : Class :=
  instantiated_class "Box<int>" {["T" := BasicType "int"]} Box 1.

Definition module_Box_instantiated : TypeDeclUnit :=
  {| unit_constants := [{| const_name := "x"; const_type := BasicType "Box<int>" |};
                        {| const_name := "y"; const_type := BasicType "Box<int>" |}];
     unit_functions := [];
     unit_classes := [Box_int] |}.

Definition state_Box_instantiated : state :=
  {| cells := ∅; next := 3; instantiated_classes := {["Box<int>" := Box_int]} |}.

(** [class Cell<T>: item: T; other: T] after the first [T] has been turned
    into a class reference. *)
Definition Cell : Class :=
  {| cls_oid := 0; cls_name := "Cell";
     cls_template := Some [{| tmpl_name := "T"; tmpl_within_type := object_type |}];
     cls_parents := [];
     cls_constants := [{| const_name := "item"; const_type := ClassType "T" 7 |};
                       {| const_name := "other"; const_type := BasicType "T" |}];
     cls_methods := [] |}.

Definition module_Cell : TypeDeclUnit :=
  {| unit_constants := []; unit_functions := []; unit_classes := [Cell] |}.

(** A module that declares a class named [Box<int>] of its own, next to the
    generic [Box], and uses [Box<int>]. *)
Definition own_Box_int : Class :=
  {| cls_oid := 0; cls_name := "Box<int>"; cls_template := None;
     cls_parents := []; cls_constants := []; cls_methods := [] |}.

Definition module_own_Box_int : TypeDeclUnit :=
  {| unit_constants := [{| const_name := "x"; const_type := Box_of_int |}];
     unit_functions := [];
     unit_classes := [own_Box_int; Box] |}.

(** The state after [Box<int>] has been instantiated once from the initial
    state. *)
Definition state_Box_once : state :=
  {| cells := ∅; next := 2; instantiated_classes := {["Box<int>" := Box_int]} |}.

(** *** References

    [refs_*] lists the names a tree refers to, the names of its NamedType
    and ClassReference nodes, in the order in which the traversal meets
    them; [links_*] lists its ClassReference nodes, each as the pair of its
    name and its cell, in the same order. *)

Fixpoint refs_type (t : pytd_type) : list string :=
  match t with
  | BasicType n => [n]
  | NativeType _ => []
  | ClassType n _ => [n]
  | HomogeneousContainerType b e => refs_type b ++ refs_type e
  | GenericType b ps => refs_type b ++ concat (map refs_type ps)
  | UnionType ts => concat (map refs_type ts)
  | IntersectionType ts => concat (map refs_type ts)
  end.

Fixpoint links_type (t : pytd_type) : list (string * loc) :=
  match t with
  | BasicType _ => []
  | NativeType _ => []
  | ClassType n c => [(n, c)]
  | HomogeneousContainerType b e => links_type b ++ links_type e
  | GenericType b ps => links_type b ++ concat (map links_type ps)
  | UnionType ts => concat (map links_type ts)
  | IntersectionType ts => concat (map links_type ts)
  end.

Definition refs_Constant (c : Constant) : list string := refs_type (const_type c).
Definition links_Constant (c : Constant) : list (string * loc) :=
  links_type (const_type c).

Definition refs_Parameter (p : Param) : list string := refs_type (param_type p).
Definition links_Parameter (p : Param) : list (string * loc) :=
  links_type (param_type p).

Definition refs_Signature (sg : Signature) : list string :=
  concat (map refs_Parameter (sig_params sg)) ++ refs_type (sig_return_type sg)
    ++ concat (map refs_type (sig_exceptions sg)).
Definition links_Signature (sg : Signature) : list (string * loc) :=
  concat (map links_Parameter (sig_params sg)) ++ links_type (sig_return_type sg)
    ++ concat (map links_type (sig_exceptions sg)).

Definition refs_Function (f : Function) : list string :=
  concat (map refs_Signature (fn_signatures f)).
Definition links_Function (f : Function) : list (string * loc) :=
  concat (map links_Signature (fn_signatures f)).

Definition refs_TemplateItem (t : TemplateItem) : list string :=
  refs_type (tmpl_within_type t).
Definition links_TemplateItem (t : TemplateItem) : list (string * loc) :=
  links_type (tmpl_within_type t).

Definition refs_template (t : option (list TemplateItem)) : list string :=
  match t with
  | None => []
  | Some l => concat (map refs_TemplateItem l)
  end.
Definition links_template (t : option (list TemplateItem)) : list (string * loc) :=
  match t with
  | None => []
  | Some l => concat (map links_TemplateItem l)
  end.

Definition refs_Class (c : Class) : list string :=
  refs_template (cls_template c) ++ concat (map refs_type (cls_parents c))
    ++ concat (map refs_Constant (cls_constants c))
    ++ concat (map refs_Function (cls_methods c)).
Definition links_Class (c : Class) : list (string * loc) :=
  links_template (cls_template c) ++ concat (map links_type (cls_parents c))
    ++ concat (map links_Constant (cls_constants c))
    ++ concat (map links_Function (cls_methods c)).

Definition refs_TypeDeclUnit (u : TypeDeclUnit) : list string :=
  concat (map refs_Constant (unit_constants u))
    ++ concat (map refs_Function (unit_functions u))
    ++ concat (map refs_Class (unit_classes u)).
Definition links_TypeDeclUnit (u : TypeDeclUnit) : list (string * loc) :=
  concat (map links_Constant (unit_constants u))
    ++ concat (map links_Function (unit_functions u))
    ++ concat (map links_Class (unit_classes u)).

(** A name is defined in a module when [Lookup] finds a class for it. *)
Definition defined (unit : TypeDeclUnit) (name : string) : Prop :=
  ∃ c, Lookup unit name = Ok c.

(** The addresses of [l] were handed out between [a] and [b], each once. *)
Definition fresh_in (a b : loc) (l : list loc) : Prop :=
  (a ≤ b)%nat ∧ Forall (λ c, (a ≤ c < b)%nat) l ∧ NoDup l.

(** What the first stage of the resolution does to a tree [x]: it never
    raises, the result has a ClassReference for every name [x] refers to,
    and when [x] has no ClassReference of its own, the cells of the result
    are new and pairwise different. *)
Definition first_stage {A} (f : A → M A) (refs : A → list string)
    (links : A → list (string * loc)) (x : A) : Prop :=
  ∀ s, ∃ y s',
    f x s = (Ok y, s') ∧
    map fst (links y) = refs x ∧
    (next s ≤ next s')%nat ∧
    (links x = [] → fresh_in (next s) (next s') (map snd (links y))).

(** The cells after the links of [l] have been filled in from the symbol
    table, one after the other, up to the first name that is not found. *)
Fixpoint fill_cells (symbol_table : TypeDeclUnit) (l : list (string * loc))
    (h : gmap loc Class) : result unit * gmap loc Class :=
  match l with
  | [] => (Ok tt, h)
  | (n, c) :: l' =>
      match Lookup symbol_table n with
      | Ok cls => fill_cells symbol_table l' (<[c := cls]> h)
      | Raise e => (Raise e, h)
      end
  end.

Definition void {A} (r : result A) : result unit :=
  match r with
  | Ok _ => Ok tt
  | Raise e => Raise e
  end.

(** What the second stage does: it fills in the links of [l]. *)
Definition fills {A} (symbol_table : TypeDeclUnit) (m : M A)
    (l : list (string * loc)) : Prop :=
  ∀ s r s', m s = (r, s') →
    fill_cells symbol_table l (cells s) = (void r, cells s').

(** *** Examples: two classes that refer to each other *)

(** [class A: b: B] and [class B: a: A] *)
Definition class_A : Class :=
  {| cls_oid := 0; cls_name := "A"; cls_template := None; cls_parents := [];
     cls_constants := [{| const_name := "b"; const_type := BasicType "B" |}];
     cls_methods := [] |}.

Definition class_B : Class :=
  {| cls_oid := 0; cls_name := "B"; cls_template := None; cls_parents := [];
     cls_constants := [{| const_name := "a"; const_type := BasicType "A" |}];
     cls_methods := [] |}.

Definition module_AB : TypeDeclUnit :=
  {| unit_constants := []; unit_functions := []; unit_classes := [class_A; class_B] |}.

(** A module that refers to a class [Foo] it does not define. *)
Definition module_Foo : TypeDeclUnit :=
  {| unit_constants := [{| const_name := "a"; const_type := BasicType "A" |};
                        {| const_name := "x"; const_type := BasicType "Foo" |}];
     unit_functions := [];
     unit_classes := [class_A; class_B] |}.


(** ** Further statements: auxiliary definitions *)

(** A text without a line feed or a carriage return. *)
Fixpoint no_line_break (s : string) : bool :=
  match s with
  | "" => true
  | String c s' =>
      negb (bool_decide (c = LF)) && negb (bool_decide (c = CR)) && no_line_break s'
  end.

(** The cell of a link holds a class. *)
Definition filled (h : gmap loc Class) (p : string * loc) : Prop :=
  is_Some (h !! p.2).

(** The cell of a link holds a class that bears the name of the link. *)
Definition named (h : gmap loc Class) (p : string * loc) : Prop :=
  ∃ cls, h !! p.2 = Some cls ∧ cls_name cls = p.1.

(** A printing [r] of a tree with the links [l]: it succeeds when all of
    them are filled, and when it fails, then with an AttributeError and one
    of them is empty. *)
Definition renders {B} (h : gmap loc Class) (r : result B) (l : list (string * loc))
    : Prop :=
  (Forall (filled h) l → ∃ b, r = Ok b) ∧
  (∀ e, r = Raise e → e = AttributeError ∧ Exists (λ p, h !! p.2 = None) l).

(** The first stage of the resolution keeps the text of [x]: the result is
    printed, with cells that hold classes named like the links, as [x] is
    printed, when [x] has no link of its own. *)
Definition keeps_text {A} (f : A → M A) (pr : gmap loc Class → A → result string)
    (links : A → list (string * loc)) (x : A) : Prop :=
  ∀ s y s' h h',
    f x s = (Ok y, s') → links x = [] → Forall (named h') (links y) →
    pr h' y = pr h x.

(** [module_AB] after the resolution, and the state the resolution ends in
    when it starts in the initial state. *)
Definition class_A_resolved : Class :=
  {| cls_oid := 1; cls_name := "A"; cls_template := None; cls_parents := [];
     cls_constants := [{| const_name := "b"; const_type := ClassType "B" 0 |}];
     cls_methods := [] |}.

Definition class_B_resolved : Class :=
  {| cls_oid := 3; cls_name := "B"; cls_template := None; cls_parents := [];
     cls_constants := [{| const_name := "a"; const_type := ClassType "A" 2 |}];
     cls_methods := [] |}.

Definition module_AB_resolved : TypeDeclUnit :=
  {| unit_constants := []; unit_functions := [];
     unit_classes := [class_A_resolved; class_B_resolved] |}.

Definition state_AB_resolved : state :=
  {| cells := <[0 := class_B_resolved]> (<[2 := class_A_resolved]> ∅);
     next := 6; instantiated_classes := ∅ |}.

(** *** The type expressions of a tree *)

(** Whether a NamedType node occurs in a type expression. *)
Fixpoint has_BasicType (t : pytd_type) : bool :=
  match t with
  | BasicType _ => true
  | NativeType _ => false
  | ClassType _ _ => false
  | HomogeneousContainerType b e => has_BasicType b || has_BasicType e
  | GenericType b ps => has_BasicType b || existsb has_BasicType ps
  | UnionType ts => existsb has_BasicType ts
  | IntersectionType ts => existsb has_BasicType ts
  end.

(** Whether a container type or a generic type occurs in a type
    expression. *)
Fixpoint has_container (t : pytd_type) : bool :=
  match t with
  | BasicType _ => false
  | NativeType _ => false
  | ClassType _ _ => false
  | HomogeneousContainerType _ _ => true
  | GenericType _ _ => true
  | UnionType ts => existsb has_container ts
  | IntersectionType ts => existsb has_container ts
  end.

(** The type expressions in the fields of a node and of the nodes below. *)
Definition types_Constant (c : Constant) : list pytd_type := [const_type c].

Definition types_Parameter (p : Param) : list pytd_type := [param_type p].

Definition types_Signature (sg : Signature) : list pytd_type :=
  concat (map types_Parameter (sig_params sg)) ++ [sig_return_type sg]
    ++ sig_exceptions sg.

Definition types_Function (f : Function) : list pytd_type :=
  concat (map types_Signature (fn_signatures f)).

Definition types_TemplateItem (t : TemplateItem) : list pytd_type :=
  [tmpl_within_type t].

Definition types_template (t : option (list TemplateItem)) : list pytd_type :=
  match t with
  | None => []
  | Some l => concat (map types_TemplateItem l)
  end.

Definition types_Class (c : Class) : list pytd_type :=
  types_template (cls_template c) ++ cls_parents c
    ++ concat (map types_Constant (cls_constants c))
    ++ concat (map types_Function (cls_methods c)).

Definition types_TypeDeclUnit (u : TypeDeclUnit) : list pytd_type :=
  concat (map types_Constant (unit_constants u))
    ++ concat (map types_Function (unit_functions u))
    ++ concat (map types_Class (unit_classes u)).

(** The state after [FillInClasses] has visited [module_AB_resolved] from
    the initial state, with that module as the symbol table. *)
Definition state_AB_filled : state :=
  {| cells := cells state_AB_resolved; next := 2; instantiated_classes := ∅ |}.

(** Every class of the dictionary is a copy of a class of the symbol table
    that has a template list: it is stored under the canonical name made of
    the printed name of that class and the printed text of an element type
    [e], it bears that name, and the template parameters are replaced in it
    as [_InstantiateClass] replaces them for the one argument [e]. *)
Definition instantiated_from (h : gmap loc Class) (symbol_table : TypeDeclUnit)
    (d : gmap string Class) : Prop :=
  ∀ k c, d !! k = Some c →
    ∃ cls tpl e et o,
      cls ∈ unit_classes symbol_table ∧
      cls_template cls = Some tpl ∧
      print_type h e = Ok et ∧
      k = canonical_name (PrintVisitor.SafeName (cls_name cls)) et ∧
      c = instantiated_class k (dict_of (zip (map tmpl_name tpl) [e])) cls o.

Definition keeps_instantiated_from (symbol_table : TypeDeclUnit) (s s' : state)
    : Prop :=
  cells s' = cells s ∧
  (instantiated_from (cells s) symbol_table (instantiated_classes s) →
   instantiated_from (cells s') symbol_table (instantiated_classes s')).

(** [class E: def f; def g], two methods without any signature. *)
Definition class_without_signatures : Class :=
  {| cls_oid := 0; cls_name := "E"; cls_template := None; cls_parents := [];
     cls_constants := [];
     cls_methods := [{| fn_name := "f"; fn_signatures := [] |};
                     {| fn_name := "g"; fn_signatures := [] |}] |}.








(** A tree with two links, the second of which [module_AB] cannot fill in,
    and the state [FillInClasses] leaves behind when it gives up on it. *)
Definition module_Foo_linked : TypeDeclUnit :=
  {| unit_constants := [{| const_name := "a"; const_type := ClassType "A" 0 |};
                        {| const_name := "x"; const_type := ClassType "Foo" 1 |}];
     unit_functions := []; unit_classes := [] |}.

Definition state_Foo_half_filled : state :=
  {| cells := {[0 := class_A]}; next := 0; instantiated_classes := ∅ |}.

(** What a visitor that only builds new objects and writes to their cells
    does to the state: no address is taken back, the dictionary stays as it
    is, and the cells at the addresses that were in use stay as they are. *)
Definition keeps_dictionary (s s' : state) : Prop :=
  (next s ≤ next s')%nat ∧ instantiated_classes s' = instantiated_classes s.

Definition frame (s s' : state) : Prop :=
  keeps_dictionary s s' ∧ ∀ c, (c < next s)%nat → cells s' !! c = cells s !! c.

(** [module_AB] resolved once more, in the state the first resolution has
    left, and the state this ends in. *)
Definition class_A_again : Class :=
  {| cls_oid := 7; cls_name := "A"; cls_template := None; cls_parents := [];
     cls_constants := [{| const_name := "b"; const_type := ClassType "B" 6 |}];
     cls_methods := [] |}.

Definition class_B_again : Class :=
  {| cls_oid := 9; cls_name := "B"; cls_template := None; cls_parents := [];
     cls_constants := [{| const_name := "a"; const_type := ClassType "A" 8 |}];
     cls_methods := [] |}.

Definition module_AB_again : TypeDeclUnit :=
  {| unit_constants := []; unit_functions := [];
     unit_classes := [class_A_again; class_B_again] |}.

Definition state_AB_again : state :=
  {| cells := <[6 := class_B_again]> (<[8 := class_A_again]> (cells state_AB_resolved));
     next := 12; instantiated_classes := ∅ |}.

(** Whether a character occurs in a text. *)
Fixpoint occurs (c : ascii) (s : string) : bool :=
  match s with
  | "" => false
  | String c' s' => bool_decide (c' = c) || occurs c s'
  end.

(** The forms of the universal type: [object] by name, as a native type, as
    a reference whose cell holds a class of that name, and a union or an
    intersection whose one member is the universal type. *)
Fixpoint denotes_object (h : gmap loc Class) (t : pytd_type) : bool :=
  match t with
  | BasicType n => bool_decide (n = "object")
  | NativeType n => bool_decide (n = "object")
  | ClassType _ c =>
      match h !! c with
      | Some cls => bool_decide (cls_name cls = "object")
      | None => false
      end
  | HomogeneousContainerType _ _ => false
  | GenericType _ _ => false
  | UnionType [t'] => denotes_object h t'
  | UnionType _ => false
  | IntersectionType [t'] => denotes_object h t'
  | IntersectionType _ => false
  end.

(** *** The states of a run

    [later symbol_table s1 s2]: from the state [s1], the visitor
    [InstantiateTemplates(symbol_table)] can get to the state [s2].  A run
    goes from state to state by building objects, by calling the handler
    for a container type and, made of these, by visiting trees; a visit
    that raises stops in the state it has reached. *)
Inductive later (symbol_table : TypeDeclUnit) : state → state → Prop :=
  | later_refl (s : state) : later symbol_table s s
  | later_fresh (s1 s2 s3 : state) (r : result loc) :
      later symbol_table s1 s2 → fresh s2 = (r, s3) → later symbol_table s1 s3
  | later_handler (s1 s2 s3 : state) (b e : pytd_type) (r : result pytd_type) :
      later symbol_table s1 s2 →
      InstantiateTemplates.VisitHomogeneousContainerType symbol_table b e s2
        = (r, s3) →
      later symbol_table s1 s3
  | later_type (s1 s2 s3 : state) (t : pytd_type) (r : result pytd_type) :
      later symbol_table s1 s2 →
      Visit_type (InstantiateTemplates.visitor symbol_table) t s2 = (r, s3) →
      later symbol_table s1 s3
  | later_Constant (s1 s2 s3 : state) (c : Constant) (r : result Constant) :
      later symbol_table s1 s2 →
      Visit_Constant (InstantiateTemplates.visitor symbol_table) c s2 = (r, s3) →
      later symbol_table s1 s3
  | later_Function (s1 s2 s3 : state) (f : Function) (r : result Function) :
      later symbol_table s1 s2 →
      Visit_Function (InstantiateTemplates.visitor symbol_table) f s2 = (r, s3) →
      later symbol_table s1 s3
  | later_Class (s1 s2 s3 : state) (c : Class) (r : result Class) :
      later symbol_table s1 s2 →
      Visit_Class (InstantiateTemplates.visitor symbol_table) c s2 = (r, s3) →
      later symbol_table s1 s3.

(** *** What a run of [InstantiateTemplates] makes of a tree

    The handler for a container type does not look at the dictionary or at
    the symbol table to build the node it returns: that node is the
    NamedType of the canonical name, made of the texts of the visited base
    and element.  So what a tree becomes when its visit completes is a
    function of the tree and of the cells alone.  [inst_*] is that function;
    it fails where the visit cannot complete whatever the symbol table is:
    at a GenericType and where a text cannot be printed. *)

Definition name_of (h : gmap loc Class) (b e : pytd_type) : result string :=
  let+ bt := print_type h b in
  let+ et := print_type h e in
  Ok (canonical_name bt et).

Fixpoint inst_type (h : gmap loc Class) (t : pytd_type) : result pytd_type :=
  match t with
  | BasicType n => Ok (BasicType n)
  | NativeType n => Ok (NativeType n)
  | ClassType n c => Ok (ClassType n c)
  | HomogeneousContainerType b e =>
      let+ b' := inst_type h b in
      let+ e' := inst_type h e in
      let+ k := name_of h b' e' in
      Ok (BasicType k)
  | GenericType b ps =>
      let+ b' := inst_type h b in
      let+ ps' := rmap (inst_type h) ps in
      Raise NotImplementedError
  | UnionType ts =>
      let+ ts' := rmap (inst_type h) ts in
      Ok (UnionType ts')
  | IntersectionType ts =>
      let+ ts' := rmap (inst_type h) ts in
      Ok (IntersectionType ts')
  end.

Definition inst_Constant (h : gmap loc Class) (c : Constant) : result Constant :=
  let+ t := inst_type h (const_type c) in
  Ok {| const_name := const_name c; const_type := t |}.

Definition inst_Parameter (h : gmap loc Class) (p : Param) : result Param :=
  let+ t := inst_type h (param_type p) in
  Ok {| param_name := param_name p; param_type := t |}.

Definition inst_Signature (h : gmap loc Class) (sg : Signature) : result Signature :=
  let+ ps := rmap (inst_Parameter h) (sig_params sg) in
  let+ r := inst_type h (sig_return_type sg) in
  let+ es := rmap (inst_type h) (sig_exceptions sg) in
  Ok {| sig_params := ps; sig_has_optional := sig_has_optional sg;
        sig_return_type := r; sig_exceptions := es |}.

Definition inst_Function (h : gmap loc Class) (f : Function) : result Function :=
  let+ sgs := rmap (inst_Signature h) (fn_signatures f) in
  Ok {| fn_name := fn_name f; fn_signatures := sgs |}.

Definition inst_TemplateItem (h : gmap loc Class) (t : TemplateItem)
    : result TemplateItem :=
  let+ w := inst_type h (tmpl_within_type t) in
  Ok {| tmpl_name := tmpl_name t; tmpl_within_type := w |}.

Definition inst_template (h : gmap loc Class) (t : option (list TemplateItem))
    : result (option (list TemplateItem)) :=
  match t with
  | None => Ok None
  | Some l => let+ l' := rmap (inst_TemplateItem h) l in Ok (Some l')
  end.

(** The visited class is a new object; [o] is its address. *)
Definition inst_Class (h : gmap loc Class) (o : loc) (c : Class) : result Class :=
  let+ t := inst_template h (cls_template c) in
  let+ ps := rmap (inst_type h) (cls_parents c) in
  let+ cs := rmap (inst_Constant h) (cls_constants c) in
  let+ ms := rmap (inst_Function h) (cls_methods c) in
  Ok {| cls_oid := o; cls_name := cls_name c; cls_template := t;
        cls_parents := ps; cls_constants := cs; cls_methods := ms |}.

(** The container types of a tree, each as the pair of its base and its
    element, in the order in which the traversal hands them to the handler:
    those inside a container type come before it. *)
Fixpoint containers_type (t : pytd_type) : list (pytd_type * pytd_type) :=
  match t with
  | BasicType _ => []
  | NativeType _ => []
  | ClassType _ _ => []
  | HomogeneousContainerType b e =>
      containers_type b ++ containers_type e ++ [(b, e)]
  | GenericType b ps => containers_type b ++ concat (map containers_type ps)
  | UnionType ts => concat (map containers_type ts)
  | IntersectionType ts => concat (map containers_type ts)
  end.

Definition containers_Constant (c : Constant) : list (pytd_type * pytd_type) :=
  containers_type (const_type c).

Definition containers_Parameter (p : Param) : list (pytd_type * pytd_type) :=
  containers_type (param_type p).

Definition containers_Signature (sg : Signature) : list (pytd_type * pytd_type) :=
  concat (map containers_Parameter (sig_params sg))
    ++ containers_type (sig_return_type sg)
    ++ concat (map containers_type (sig_exceptions sg)).

Definition containers_Function (f : Function) : list (pytd_type * pytd_type) :=
  concat (map containers_Signature (fn_signatures f)).

Definition containers_TemplateItem (t : TemplateItem) : list (pytd_type * pytd_type) :=
  containers_type (tmpl_within_type t).

Definition containers_template (t : option (list TemplateItem))
    : list (pytd_type * pytd_type) :=
  match t with
  | None => []
  | Some l => concat (map containers_TemplateItem l)
  end.

Definition containers_Class (c : Class) : list (pytd_type * pytd_type) :=
  containers_template (cls_template c)
    ++ concat (map containers_type (cls_parents c))
    ++ concat (map containers_Constant (cls_constants c))
    ++ concat (map containers_Function (cls_methods c)).

Definition containers_TypeDeclUnit (u : TypeDeclUnit) : list (pytd_type * pytd_type) :=
  concat (map containers_Constant (unit_constants u))
    ++ concat (map containers_Function (unit_functions u))
    ++ concat (map containers_Class (unit_classes u)).

(** The canonical name of the container type of base [b] and element [e],
    both as they are in the tree. *)
Definition key_of (h : gmap loc Class) (b e : pytd_type) : result string :=
  let+ b' := inst_type h b in
  let+ e' := inst_type h e in
  name_of h b' e'.

(** [c] is the class the handler stores under [k] for one of the container
    types of [cs]: the base of that container type is a NamedType [n], [k]
    is its canonical name, and [c] is the copy of the class of [n] in the
    symbol table, named [k], without template, with the template parameters
    replaced as [_InstantiateClass] replaces them for the visited element. *)
Definition made (h : gmap loc Class) (symbol_table : TypeDeclUnit)
    (cs : list (pytd_type * pytd_type)) (k : string) (c : Class) : Prop :=
  ∃ b e n e' et cls tpl o,
    (b, e) ∈ cs ∧
    inst_type h b = Ok (BasicType n) ∧
    inst_type h e = Ok e' ∧
    print_type h e' = Ok et ∧
    k = canonical_name (PrintVisitor.SafeName n) et ∧
    Lookup symbol_table n = Ok cls ∧
    cls_template cls = Some tpl ∧
    c = instantiated_class k (dict_of (zip (map tmpl_name tpl) [e'])) cls o.

(** What visiting a tree with the container types [cs] does to the state
    when the visit completes: the cells stay as they are, no address is
    taken back, the dictionary keeps what it held, everything else in it has
    been made for a container type of [cs], and the canonical name of every
    container type of [cs] is in it. *)
Definition track (h : gmap loc Class) (symbol_table : TypeDeclUnit)
    (cs : list (pytd_type * pytd_type)) (s s' : state) : Prop :=
  cells s' = h ∧
  (next s ≤ next s')%nat ∧
  instantiated_classes s ⊆ instantiated_classes s' ∧
  (∀ k c, instantiated_classes s' !! k = Some c →
     instantiated_classes s !! k = Some c ∨ made h symbol_table cs k c) ∧
  (∀ b e, (b, e) ∈ cs →
     ∃ k, key_of h b e = Ok k ∧ is_Some (instantiated_classes s' !! k)).

(** A visit [m] of a tree with the container types [cs] that completes
    returns [d], the tree [inst_*] makes of it, and does to the state what
    [track] says. *)
Definition instantiates {A} (h : gmap loc Class) (symbol_table : TypeDeclUnit)
    (m : M A) (d : result A) (cs : list (pytd_type * pytd_type)) : Prop :=
  ∀ s y s', cells s = h → m s = (Ok y, s') →
    d = Ok y ∧ track h symbol_table cs s s'.


(** A container type the handler can always instantiate: its base is the
    name of a class of the symbol table that has a template list. *)
Definition instantiable (symbol_table : TypeDeclUnit) (p : pytd_type * pytd_type)
    : Prop :=
  ∃ n cls tpl,
    p.1 = BasicType n ∧ Lookup symbol_table n = Ok cls ∧ cls_template cls = Some tpl.

(** A class that holds no container type and no generic type. *)
Definition plain (c : Class) : Prop :=
  Forall (λ t, has_container t = false) (types_Class c).

(** [u1] is what the traversal visits of [u] up to some point: the first
    constants, or all constants and the first functions, or all constants,
    all functions and the first classes. *)
Definition before (u1 u : TypeDeclUnit) : Prop :=
  (∃ post, unit_constants u = unit_constants u1 ++ post ∧
           unit_functions u1 = [] ∧ unit_classes u1 = []) ∨
  (∃ post, unit_constants u = unit_constants u1 ∧
           unit_functions u = unit_functions u1 ++ post ∧ unit_classes u1 = []) ∨
  (∃ post, unit_constants u = unit_constants u1 ∧
           unit_functions u = unit_functions u1 ∧
           unit_classes u = unit_classes u1 ++ post).


(** A tree without ClassReferences all of whose container types can be
    instantiated, given by its links and its container types. *)
Definition checked (symbol_table : TypeDeclUnit) (ls : list (string * loc))
    (cs : list (pytd_type * pytd_type)) : Prop :=
  ls = [] ∧ Forall (instantiable symbol_table) cs.

(** What a run of [InstantiateTemplates] makes of [module_own_Box_int], and
    the state it ends in: the module keeps its own class, rebuilt, and gets
    the instantiated one. *)
Definition own_Box_int_rebuilt : Class :=
  {| cls_oid := 2; cls_name := "Box<int>"; cls_template := None;
     cls_parents := []; cls_constants := []; cls_methods := [] |}.

Definition module_own_Box_int_instantiated : TypeDeclUnit :=
  {| unit_constants := [{| const_name := "x"; const_type := BasicType "Box<int>" |}];
     unit_functions := [];
     unit_classes := [own_Box_int_rebuilt; Box_int] |}.

Definition state_own_Box_int_instantiated : state :=
  {| cells := ∅; next := 4; instantiated_classes := {["Box<int>" := Box_int]} |}.

(** * Properties *)

(** ** Strings *)

Lemma append_assoc (a b c : string) : (a +:+ b) +:+ c = a +:+ (b +:+ c).
Proof.
  induction a as [|x a IH]; [done |].
  change (String x ((a +:+ b) +:+ c) = String x (a +:+ (b +:+ c))).
  by rewrite IH.
Qed.

Lemma join_snoc (sep : string) (l : list string) (x : string) :
  l ≠ [] → join sep (l ++ [x]) = join sep l +:+ sep +:+ x.
Proof.
  induction l as [|y l IH]; [done | intros _].
  destruct l as [|z l]; [done |].
  change (join sep ((y :: z :: l) ++ [x]))
    with (y +:+ sep +:+ join sep ((z :: l) ++ [x])).
  rewrite IH by done.
  change (join sep (y :: z :: l)) with (y +:+ sep +:+ join sep (z :: l)).
  by rewrite !append_assoc.
Qed.

Lemma rmap_length {A B} (f : A → result B) (l : list A) (l' : list B) :
  rmap f l = Ok l' → length l' = length l.
Proof.
  revert l'. induction l as [|x l IH]; intros l' H; simpl in H.
  - by inversion H.
  - destruct (f x) as [y|e]; [|done]. simpl in H.
    destruct (rmap f l) as [ys|e]; [|done]. simpl in H.
    inversion H; subst. simpl. f_equal. by apply IH.
Qed.

(** ** The pretty printer *)

Lemma print_object (h : gmap loc Class) : print_type h object_type = Ok "object".
Proof. reflexivity. Qed.

(** Nested induction on type expressions. *)
Lemma pytd_type_nested_ind (P : pytd_type → Prop) :
  (∀ n, P (BasicType n)) →
  (∀ n, P (NativeType n)) →
  (∀ n c, P (ClassType n c)) →
  (∀ b e, P b → P e → P (HomogeneousContainerType b e)) →
  (∀ b ps, P b → Forall P ps → P (GenericType b ps)) →
  (∀ ts, Forall P ts → P (UnionType ts)) →
  (∀ ts, Forall P ts → P (IntersectionType ts)) →
  ∀ t, P t.
Proof.
  intros HB HN HC HH HG HU HI.
  fix IH 1. intros [n|n|n c|b e|b ps|ts|ts].
  - apply HB.
  - apply HN.
  - apply HC.
  - apply HH; apply IH.
  - apply HG; [apply IH |].
    induction ps as [|p ps IHps]; constructor; [apply IH | apply IHps].
  - apply HU. induction ts as [|p ts IHts]; constructor; [apply IH | apply IHts].
  - apply HI. induction ts as [|p ts IHts]; constructor; [apply IH | apply IHts].
Qed.

Lemma rmap_cons {A B} (f : A → result B) (x : A) (l : list A) :
  rmap f (x :: l) = let+ y := f x in let+ ys := rmap f l in Ok (y :: ys).
Proof. reflexivity. Qed.

Lemma occurs_app (c : ascii) (a b : string) :
  occurs c (a +:+ b) = occurs c a || occurs c b.
Proof.
  induction a as [|x a IH]; [done |].
  change (occurs c (String x (a +:+ b))
            = (bool_decide (x = c) || occurs c a) || occurs c b).
  cbn [occurs]. by rewrite IH, orb_assoc.
Qed.

Lemma SafeName_object (n : string) :
  PrintVisitor.SafeName n = "object" ↔ n = "object".
Proof.
  split; [| by intros ->].
  unfold PrintVisitor.SafeName. destruct (PrintVisitor.VALID_NAME n); [done |].
  intros H. discriminate H.
Qed.

(** A text in which [<] occurs, or a blank, is not [object]. *)
Lemma occurs_not_object (c : ascii) (s : string) :
  occurs c s = true → occurs c "object" = false → s ≠ "object".
Proof. intros Hs Ho ->. congruence. Qed.

Lemma join_two_not_object (w : string) (x y : string) (l : list string) :
  occurs " " w = true → join w (x :: y :: l) ≠ "object".
Proof.
  intros Hw. apply (occurs_not_object " "); [| reflexivity].
  change (join w (x :: y :: l)) with (x +:+ w +:+ join w (y :: l)).
  by rewrite !occurs_app, Hw, orb_true_r.
Qed.

Lemma angle_not_object (a b : string) : a +:+ "<" +:+ b ≠ "object".
Proof.
  apply (occurs_not_object "<"); [| reflexivity].
  by rewrite !occurs_app, orb_true_r.
Qed.

(** The types whose text is [object] are the forms of the universal type. *)
Lemma text_object_iff (h : gmap loc Class) (t : pytd_type) (text : string) :
  print_type h t = Ok text → (text = "object" ↔ denotes_object h t = true).
Proof.
  revert text.
  induction t as [n|n|n c|b e IHb IHe|b ps IHb IHps|ts IHts|ts IHts]
    using pytd_type_nested_ind; intros text H; cbn [print_type] in H.
  - injection H as <-. cbn [denotes_object]. rewrite bool_decide_eq_true.
    apply SafeName_object.
  - injection H as <-. cbn [denotes_object]. rewrite bool_decide_eq_true.
    apply SafeName_object.
  - unfold PrintVisitor.VisitClassType in H. cbn [denotes_object].
    destruct (h !! c) as [cls|]; [| done]. injection H as <-.
    rewrite bool_decide_eq_true. apply SafeName_object.
  - destruct (print_type h b) as [b'|]; [| done].
    destruct (print_type h e) as [e'|]; [| done]. injection H as <-.
    cbn [denotes_object]. split; [| done]. intros H. by apply angle_not_object in H.
  - destruct (print_type h b) as [b'|]; [| done].
    destruct (rmap (print_type h) ps) as [ps'|]; [| done]. injection H as <-.
    cbn [denotes_object]. split; [| done]. intros H. by apply angle_not_object in H.
  - destruct ts as [|t1 [|t2 ts]].
    + injection H as <-. done.
    + apply Forall_cons in IHts as [IH1 _]. cbn [rmap] in H.
      destruct (print_type h t1) as [x1|] eqn:H1; [| done]. injection H as <-.
      cbn [denotes_object]. by apply IH1.
    + rewrite !rmap_cons in H.
      destruct (print_type h t1) as [x1|]; [| done].
      destruct (print_type h t2) as [x2|]; [| done].
      destruct (rmap (print_type h) ts) as [l|]; [| done]. injection H as <-.
      cbn [denotes_object]. split; [| done]. intros H.
      by apply join_two_not_object in H.
  - destruct ts as [|t1 [|t2 ts]].
    + injection H as <-. done.
    + apply Forall_cons in IHts as [IH1 _]. cbn [rmap] in H.
      destruct (print_type h t1) as [x1|] eqn:H1; [| done]. injection H as <-.
      cbn [denotes_object]. by apply IH1.
    + rewrite !rmap_cons in H.
      destruct (print_type h t1) as [x1|]; [| done].
      destruct (print_type h t2) as [x2|]; [| done].
      destruct (rmap (print_type h) ts) as [l|]; [| done]. injection H as <-.
      cbn [denotes_object]. split; [| done]. intros H.
      by apply join_two_not_object in H.
Qed.

(** C9.  A parameter is printed as its bare name exactly when its type is
    the universal type [object], in any of its forms, and a signature drops
    the [-> ReturnType] suffix exactly when its return type is: the text of
    a type is [object] for the forms of the universal type and for no other
    type.  Every other type is printed with its annotation or suffix. *)
Theorem annotation_omitted_iff_universal_type (h : gmap loc Class) :
  print_type h object_type = Ok "object" ∧
  (∀ (t : pytd_type) (text : string),
     print_type h t = Ok text → (text = "object" ↔ denotes_object h t = true)) ∧
  (∀ (p : Param) (t : string),
     print_type h (param_type p) = Ok t →
     print_Parameter h p =
       Ok (if denotes_object h (param_type p) then param_name p
           else param_name p +:+ ": " +:+ t)) ∧
  (∀ (sg : Signature) (ps : list string) (r : string) (es : list string),
     rmap (print_Parameter h) (sig_params sg) = Ok ps →
     print_type h (sig_return_type sg) = Ok r →
     rmap (print_type h) (sig_exceptions sg) = Ok es →
     print_Signature h sg =
       Ok ("(" +:+ join ", " (ps ++ (if sig_has_optional sg then ["..."] else [])) +:+ ")"
           +:+ (if denotes_object h (sig_return_type sg) then "" else " -> " +:+ r)
           +:+ (if decide (es = []) then "" else " raises " +:+ join ", " es))).
Proof.
  split; [apply print_object |]. split; [apply text_object_iff |]. split.
  - intros p t Ht. unfold print_Parameter. rewrite Ht. cbn [rbind].
    unfold PrintVisitor.VisitParameter.
    pose proof (text_object_iff h _ _ Ht) as Hiff.
    destruct (denotes_object h (param_type p)); case_decide as Hd; try done.
    + exfalso. apply Hd. by apply Hiff.
    + exfalso. by apply Hiff in Hd.
  - intros sg ps r es Hps Hr Hes. unfold print_Signature.
    rewrite Hps, Hr, Hes. cbn [rbind]. unfold PrintVisitor.VisitSignature.
    pose proof (text_object_iff h _ _ Hr) as Hiff.
    destruct (denotes_object h (sig_return_type sg)); case_decide as Hd;
      try (by repeat case_decide).
    + exfalso. apply Hd. by apply Hiff.
    + exfalso. by apply Hiff in Hd.
Qed.

Lemma annotation_omitted_iff_universal_type_witness :
  print_Parameter ∅ any_param = Ok "x" ∧
  print_Signature ∅ int_signature = Ok "(x, y: int) -> int".
Proof.
  destruct (annotation_omitted_iff_universal_type ∅) as (_ & _ & Hp & Hs). split.
  - apply (Hp any_param "object"). reflexivity.
  - apply (Hs int_signature ["x"; "y: int"] "int" []); reflexivity.
Defined.

(** C10.  A class without methods is printed with the indented [pass] line
    as the last line of its body, after the lines of its constants, however
    many constants it has. *)
Theorem pass_line_after_constants (h : gmap loc Class) (c : Class)
    (t : option (list string)) (ps cs : list string) :
  cls_methods c = [] →
  print_template h (cls_template c) = Ok t →
  rmap (print_type h) (cls_parents c) = Ok ps →
  rmap (print_Constant h) (cls_constants c) = Ok cs →
  length cs = length (cls_constants c) ∧
  ∃ header : string,
    print_Class h c =
      Ok (join NL (header :: map (λ m, PrintVisitor.INDENT +:+ m) cs)
          +:+ NL +:+ "    pass" +:+ NL).
Proof.
  intros Hm Ht Hps Hcs. split; [by eapply rmap_length |].
  unfold print_Class. rewrite Ht, Hps, Hcs, Hm.
  cbn [rmap rbind]. unfold PrintVisitor.VisitClass.
  destruct (decide (@nil string = [])) as [_|]; [|done].
  cbv zeta. eexists. f_equal.
  rewrite app_assoc, join_snoc by done.
  rewrite !append_assoc. f_equal.
Qed.

Lemma pass_line_after_constants_witness :
  ∃ header : string,
    print_Class ∅ class_with_constant =
      Ok (join NL (header :: map (λ m, PrintVisitor.INDENT +:+ m) ["x: int"])
          +:+ NL +:+ "    pass" +:+ NL).
Proof.
  apply (pass_line_after_constants ∅ class_with_constant None [] ["x: int"]);
    reflexivity.
Defined.

(** ** The monad *)

Lemma bind_Ok {A B} (m : M A) (k : A → M B) (s s1 : state) (a : A) :
  m s = (Ok a, s1) → bind m k s = k a s1.
Proof. intros H. unfold bind. by rewrite H. Qed.

Lemma bind_Raise {A B} (m : M A) (k : A → M B) (s s1 : state) (e : exception) :
  m s = (Raise e, s1) → bind m k s = (Raise e, s1).
Proof. intros H. unfold bind. by rewrite H. Qed.

Lemma bind_inv {A B} (m : M A) (k : A → M B) (s s' : state) (r : result B) :
  bind m k s = (r, s') →
  (∃ a s1, m s = (Ok a, s1) ∧ k a s1 = (r, s')) ∨
  (∃ e, m s = (Raise e, s') ∧ r = Raise e).
Proof.
  unfold bind. destruct (m s) as [[a|e] s1]; intros H.
  - left. by exists a, s1.
  - right. exists e. by inversion H.
Qed.

Lemma bind_inv_Ok {A B} (m : M A) (k : A → M B) (s s' : state) (b : B) :
  bind m k s = (Ok b, s') →
  ∃ a s1, m s = (Ok a, s1) ∧ k a s1 = (Ok b, s').
Proof.
  intros H. apply bind_inv in H as [H | (e & _ & H)]; [done | discriminate].
Qed.

Lemma mapM_nil {A B} (f : A → M B) (s : state) : mapM f [] s = (Ok [], s).
Proof. reflexivity. Qed.

Lemma mapM_cons {A B} (f : A → M B) (x : A) (l : list A) :
  mapM f (x :: l) = bind (f x) (λ y, bind (mapM f l) (λ ys, ret (y :: ys))).
Proof. reflexivity. Qed.

Lemma mapM_inv_Ok {A B} (f : A → M B) (l : list A) (s s' : state) (l' : list B) :
  mapM f l s = (Ok l', s') → length l' = length l.
Proof.
  revert s l'. induction l as [|x l IH]; intros s l' H.
  - by inversion H.
  - rewrite mapM_cons in H.
    apply bind_inv_Ok in H as (y & s1 & _ & H).
    apply bind_inv_Ok in H as (ys & s2 & H & Hr).
    inversion Hr; subst. simpl. f_equal. by eapply IH.
Qed.

(** *** Relations every step of a traversal keeps *)

Section Preserves.

Variable R : state → state → Prop.
Hypothesis R_refl : ∀ s, R s s.
Hypothesis R_trans : ∀ s1 s2 s3, R s1 s2 → R s2 s3 → R s1 s3.

Lemma preserves_ret {A} (a : A) : preserves R (ret a).
Proof using R_refl. intros s r s' H. inversion H; subst. apply R_refl. Qed.

Lemma preserves_raise {A} (e : exception) : preserves R (@raise A e).
Proof using R_refl. intros s r s' H. inversion H; subst. apply R_refl. Qed.

Lemma preserves_lift {A} (x : result A) : preserves R (lift x).
Proof using R_refl. intros s r s' H. inversion H; subst. apply R_refl. Qed.

Lemma preserves_bind {A B} (m : M A) (k : A → M B) :
  preserves R m → (∀ a, preserves R (k a)) → preserves R (bind m k).
Proof using R_trans.
  intros Hm Hk s r s' H.
  apply bind_inv in H as [(a & s1 & H1 & H2) | (e & H1 & _)].
  - eapply R_trans; [by eapply Hm | by eapply Hk].
  - by eapply Hm.
Qed.

Lemma preserves_mapM {A B} (f : A → M B) (l : list A) :
  Forall (λ x, preserves R (f x)) l → preserves R (mapM f l).
Proof using R_refl R_trans.
  induction 1 as [|x l Hx _ IH].
  - apply preserves_ret.
  - rewrite mapM_cons. apply preserves_bind; [done |].
    intros y. apply preserves_bind; [done |]. intros ys. apply preserves_ret.
Qed.

Hypothesis R_fresh : preserves R fresh.

Variable v : Visitor.
Hypothesis v_BasicType : ∀ n, preserves R (VisitBasicType v n).
Hypothesis v_ClassType : ∀ n c, preserves R (VisitClassType v n c).
Hypothesis v_HomogeneousContainerType :
  ∀ b e, preserves R (VisitHomogeneousContainerType v b e).
Hypothesis v_GenericType : ∀ b ps, preserves R (VisitGenericType v b ps).
Hypothesis v_Class : ∀ c, preserves R (VisitClass v c).

Lemma preserves_Visit_type (t : pytd_type) : preserves R (Visit_type v t).
Proof using R_refl R_trans v_BasicType v_ClassType v_HomogeneousContainerType
  v_GenericType.
  induction t as [n|n|n c|b e IHb IHe|b ps IHb IHps|ts IHts|ts IHts]
    using pytd_type_nested_ind; cbn [Visit_type].
  - apply v_BasicType.
  - apply preserves_ret.
  - apply v_ClassType.
  - apply preserves_bind; [done |]. intros b'.
    apply preserves_bind; [done |]. intros e'. apply v_HomogeneousContainerType.
  - apply preserves_bind; [done |]. intros b'.
    apply preserves_bind; [by apply preserves_mapM |]. intros ps'.
    apply v_GenericType.
  - apply preserves_bind; [by apply preserves_mapM |]. intros ts'.
    apply preserves_ret.
  - apply preserves_bind; [by apply preserves_mapM |]. intros ts'.
    apply preserves_ret.
Qed.

Lemma preserves_types (l : list pytd_type) : preserves R (mapM (Visit_type v) l).
Proof using R_refl R_trans v_BasicType v_ClassType v_HomogeneousContainerType
  v_GenericType.
  apply preserves_mapM, Forall_forall. intros t _. apply preserves_Visit_type.
Qed.

Lemma preserves_Visit_Constant (c : Constant) : preserves R (Visit_Constant v c).
Proof using R_refl R_trans v_BasicType v_ClassType v_HomogeneousContainerType
  v_GenericType.
  apply preserves_bind; [apply preserves_Visit_type |].
  intros t. apply preserves_ret.
Qed.

Lemma preserves_Visit_Parameter (p : Param) : preserves R (Visit_Parameter v p).
Proof using R_refl R_trans v_BasicType v_ClassType v_HomogeneousContainerType
  v_GenericType.
  apply preserves_bind; [apply preserves_Visit_type |].
  intros t. apply preserves_ret.
Qed.

Lemma preserves_Visit_Signature (sg : Signature) : preserves R (Visit_Signature v sg).
Proof using R_refl R_trans v_BasicType v_ClassType v_HomogeneousContainerType
  v_GenericType.
  apply preserves_bind.
  { apply preserves_mapM, Forall_forall. intros p _. apply preserves_Visit_Parameter. }
  intros ps. apply preserves_bind; [apply preserves_Visit_type |].
  intros r. apply preserves_bind; [apply preserves_types |].
  intros es. apply preserves_ret.
Qed.

Lemma preserves_Visit_Function (f : Function) : preserves R (Visit_Function v f).
Proof using R_refl R_trans v_BasicType v_ClassType v_HomogeneousContainerType
  v_GenericType.
  apply preserves_bind.
  { apply preserves_mapM, Forall_forall. intros sg _. apply preserves_Visit_Signature. }
  intros sgs. apply preserves_ret.
Qed.

Lemma preserves_Visit_template (t : option (list TemplateItem)) :
  preserves R (Visit_template v t).
Proof using R_refl R_trans v_BasicType v_ClassType v_HomogeneousContainerType
  v_GenericType.
  destruct t as [l|]; [| apply preserves_ret].
  apply preserves_bind; [| intros l'; apply preserves_ret].
  apply preserves_mapM, Forall_forall. intros t _.
  apply preserves_bind; [apply preserves_Visit_type |].
  intros w. apply preserves_ret.
Qed.

Lemma preserves_constants (l : list Constant) : preserves R (mapM (Visit_Constant v) l).
Proof using R_refl R_trans v_BasicType v_ClassType v_HomogeneousContainerType
  v_GenericType.
  apply preserves_mapM, Forall_forall. intros c _. apply preserves_Visit_Constant.
Qed.

Lemma preserves_functions (l : list Function) : preserves R (mapM (Visit_Function v) l).
Proof using R_refl R_trans v_BasicType v_ClassType v_HomogeneousContainerType
  v_GenericType.
  apply preserves_mapM, Forall_forall. intros f _. apply preserves_Visit_Function.
Qed.

Lemma preserves_Visit_Class (c : Class) : preserves R (Visit_Class v c).
Proof using All.
  apply preserves_bind; [apply preserves_Visit_template |]. intros t.
  apply preserves_bind; [apply preserves_types |]. intros ps.
  apply preserves_bind; [apply preserves_constants |]. intros cs.
  apply preserves_bind; [apply preserves_functions |]. intros ms.
  apply preserves_bind; [apply R_fresh |]. intros o. apply v_Class.
Qed.

Lemma preserves_classes (l : list Class) : preserves R (mapM (Visit_Class v) l).
Proof using All.
  apply preserves_mapM, Forall_forall. intros c _. apply preserves_Visit_Class.
Qed.

Lemma preserves_Visit_TypeDeclUnit (u : TypeDeclUnit) :
  (∀ u', preserves R (VisitTypeDeclUnit v u')) → preserves R (Visit_TypeDeclUnit v u).
Proof using All.
  intros Hu.
  apply preserves_bind; [apply preserves_constants |]. intros cs.
  apply preserves_bind; [apply preserves_functions |]. intros fs.
  apply preserves_bind; [apply preserves_classes |]. intros cls. apply Hu.
Qed.

End Preserves.

(** *** Visitors without handlers rebuild the tree they are given *)

Lemma mapM_id {A} (f : A → M A) (l : list A) :
  Forall (λ x, ∀ s, f x s = (Ok x, s)) l → ∀ s, mapM f l s = (Ok l, s).
Proof.
  induction 1 as [|x l Hx _ IH]; intros s; [done |].
  rewrite mapM_cons. erewrite bind_Ok by apply Hx.
  erewrite bind_Ok by apply IH. done.
Qed.

Section Rebuild.

Variable v : Visitor.
Hypothesis v_BasicType : ∀ n, VisitBasicType v n = default_BasicType n.
Hypothesis v_ClassType : ∀ n c, VisitClassType v n c = default_ClassType n c.
Hypothesis v_HomogeneousContainerType :
  ∀ b e, VisitHomogeneousContainerType v b e = default_HomogeneousContainerType b e.
Hypothesis v_GenericType : ∀ b ps, VisitGenericType v b ps = default_GenericType b ps.

Lemma Visit_type_rebuild (t : pytd_type) (s : state) : Visit_type v t s = (Ok t, s).
Proof using All.
  revert s.
  induction t as [n|n|n c|b e IHb IHe|b ps IHb IHps|ts IHts|ts IHts]
    using pytd_type_nested_ind; intros s; cbn [Visit_type].
  - by rewrite v_BasicType.
  - done.
  - by rewrite v_ClassType.
  - erewrite bind_Ok by apply IHb. erewrite bind_Ok by apply IHe.
    by rewrite v_HomogeneousContainerType.
  - erewrite bind_Ok by apply IHb. erewrite bind_Ok by by apply mapM_id.
    by rewrite v_GenericType.
  - by erewrite bind_Ok by by apply mapM_id.
  - by erewrite bind_Ok by by apply mapM_id.
Qed.

Lemma Visit_types_rebuild (l : list pytd_type) (s : state) :
  mapM (Visit_type v) l s = (Ok l, s).
Proof using All.
  apply mapM_id, Forall_forall. intros t _. apply Visit_type_rebuild.
Qed.

Lemma Visit_Constant_rebuild (c : Constant) (s : state) :
  Visit_Constant v c s = (Ok c, s).
Proof using All.
  unfold Visit_Constant. erewrite bind_Ok by apply Visit_type_rebuild.
  by destruct c.
Qed.

Lemma Visit_Parameter_rebuild (p : Param) (s : state) :
  Visit_Parameter v p s = (Ok p, s).
Proof using All.
  unfold Visit_Parameter. erewrite bind_Ok by apply Visit_type_rebuild.
  by destruct p.
Qed.

Lemma Visit_Signature_rebuild (sg : Signature) (s : state) :
  Visit_Signature v sg s = (Ok sg, s).
Proof using All.
  unfold Visit_Signature.
  erewrite bind_Ok.
  2:{ apply mapM_id, Forall_forall. intros p _. apply Visit_Parameter_rebuild. }
  erewrite bind_Ok by apply Visit_type_rebuild.
  erewrite bind_Ok by apply Visit_types_rebuild.
  by destruct sg.
Qed.

Lemma Visit_Function_rebuild (f : Function) (s : state) :
  Visit_Function v f s = (Ok f, s).
Proof using All.
  unfold Visit_Function.
  erewrite bind_Ok.
  2:{ apply mapM_id, Forall_forall. intros sg _. apply Visit_Signature_rebuild. }
  by destruct f.
Qed.

Lemma Visit_template_rebuild (t : option (list TemplateItem)) (s : state) :
  Visit_template v t s = (Ok t, s).
Proof using All.
  destruct t as [l|]; [|done]. unfold Visit_template.
  erewrite bind_Ok; [done |].
  apply mapM_id, Forall_forall. intros t _ s1. unfold Visit_TemplateItem.
  erewrite bind_Ok by apply Visit_type_rebuild. by destruct t.
Qed.

Lemma Visit_constants_rebuild (l : list Constant) (s : state) :
  mapM (Visit_Constant v) l s = (Ok l, s).
Proof using All.
  apply mapM_id, Forall_forall. intros c _. apply Visit_Constant_rebuild.
Qed.

Lemma Visit_functions_rebuild (l : list Function) (s : state) :
  mapM (Visit_Function v) l s = (Ok l, s).
Proof using All.
  apply mapM_id, Forall_forall. intros f _. apply Visit_Function_rebuild.
Qed.

(** The rebuilt class is a new object with the fields of the old one. *)
Lemma Visit_Class_rebuild (c : Class) (s : state) :
  Visit_Class v c s =
    VisitClass v
      {| cls_oid := next s; cls_name := cls_name c; cls_template := cls_template c;
         cls_parents := cls_parents c; cls_constants := cls_constants c;
         cls_methods := cls_methods c |}
      {| cells := cells s; next := S (next s);
         instantiated_classes := instantiated_classes s |}.
Proof using All.
  unfold Visit_Class.
  erewrite bind_Ok by apply Visit_template_rebuild.
  erewrite bind_Ok by apply Visit_types_rebuild.
  erewrite bind_Ok by apply Visit_constants_rebuild.
  erewrite bind_Ok by apply Visit_functions_rebuild.
  by erewrite bind_Ok by reflexivity.
Qed.

End Rebuild.

(** ** [StripSelf] *)

Lemma Visit_Class_StripSelf (c : Class) (s : state) :
  Visit_Class StripSelf.visitor c s =
    (Ok {| cls_oid := S (next s); cls_name := cls_name c;
           cls_template := cls_template c; cls_parents := cls_parents c;
           cls_constants := cls_constants c;
           cls_methods := map StripSelf._StripFunction (cls_methods c) |},
     {| cells := cells s; next := S (S (next s));
        instantiated_classes := instantiated_classes s |}).
Proof. by rewrite Visit_Class_rebuild. Qed.

(** C8, as the code has it.  Visiting a class with [StripSelf] keeps every
    method and every signature in place; a signature that has at least one
    parameter loses exactly its leading parameter, a signature without
    parameters keeps its empty parameter list, and the function name, the
    return type, the exceptions and the variadic marker are unchanged. *)
Theorem StripSelf_strips_leading_parameter (c : Class) (s : state) (i j : nat)
    (f : Function) (sg : Signature) :
  cls_methods c !! i = Some f →
  fn_signatures f !! j = Some sg →
  ∃ (c' : Class) (s' : state) (f' : Function) (sg' : Signature),
    Visit_Class StripSelf.visitor c s = (Ok c', s') ∧
    length (cls_methods c') = length (cls_methods c) ∧
    cls_methods c' !! i = Some f' ∧
    fn_name f' = fn_name f ∧
    length (fn_signatures f') = length (fn_signatures f) ∧
    fn_signatures f' !! j = Some sg' ∧
    match sig_params sg with
    | p :: ps =>
        sig_params sg' = ps ∧ length (sig_params sg) = S (length (sig_params sg'))
    | [] => sig_params sg' = []
    end ∧
    sig_has_optional sg' = sig_has_optional sg ∧
    sig_return_type sg' = sig_return_type sg ∧
    sig_exceptions sg' = sig_exceptions sg.
Proof.
  intros Hf Hsg.
  eexists _, _, (StripSelf._StripFunction f), (StripSelf.StripSignature sg).
  split; [apply Visit_Class_StripSelf |]. cbn.
  rewrite !length_map, !list_lookup_fmap, Hf, Hsg.
  by destruct (sig_params sg) as [|p ps].
Qed.

Lemma StripSelf_strips_leading_parameter_witness :
  ∃ (c' : Class) (s' : state) (f' : Function) (sg' : Signature),
    Visit_Class StripSelf.visitor class_with_self initial_state = (Ok c', s') ∧
    length (cls_methods c') = 1 ∧
    cls_methods c' !! 0 = Some f' ∧
    fn_name f' = "get" ∧
    length (fn_signatures f') = 1 ∧
    fn_signatures f' !! 0 = Some sg' ∧
    (sig_params sg' = [{| param_name := "key"; param_type := BasicType "str" |}] ∧
     2 = S (length (sig_params sg'))) ∧
    sig_has_optional sg' = false ∧
    sig_return_type sg' = BasicType "int" ∧
    sig_exceptions sg' = [BasicType "KeyError"].
Proof.
  apply (StripSelf_strips_leading_parameter class_with_self initial_state 0 0
           {| fn_name := "get"; fn_signatures := [signature_with_self] |}
           signature_with_self); reflexivity.
Defined.

(** C8 as worded fails: the one signature of [f] in [class_without_self] has
    no parameter, and after [StripSelf] its parameter list is still empty:
    as long as it was, not one shorter. *)
Lemma StripSelf_without_parameters_same_length :
  ∃ (c' : Class) (s' : state) (f' : Function) (sg' : Signature),
    Visit_Class StripSelf.visitor class_without_self initial_state = (Ok c', s') ∧
    cls_methods c' = [f'] ∧
    fn_signatures f' = [sg'] ∧
    sig_params sg' = [] ∧
    length (sig_params signature_without_parameters) = length (sig_params sg') ∧
    length (sig_params signature_without_parameters) ≠ S (length (sig_params sg')).
Proof.
  eexists _, _, _, _. split; [apply Visit_Class_StripSelf |].
  split; [reflexivity |]. split; [reflexivity |]. cbn.
  split; [done |]. split; [done | lia].
Qed.

(** ** [ReplaceType] *)

Lemma mapM_map {A B} (f : A → M B) (g : A → B) (l : list A) :
  Forall (λ x, ∀ s, f x s = (Ok (g x), s)) l → ∀ s, mapM f l s = (Ok (map g l), s).
Proof.
  induction 1 as [|x l Hx _ IH]; intros s; [done |].
  rewrite mapM_cons. erewrite bind_Ok by apply Hx.
  erewrite bind_Ok by apply IH. done.
Qed.

Lemma mapM_map_all {A B} (f : A → M B) (g : A → B) (l : list A) (s : state) :
  (∀ x s, f x s = (Ok (g x), s)) → mapM f l s = (Ok (map g l), s).
Proof. intros H. apply mapM_map, Forall_forall. intros x _. apply H. Qed.

Section ReplaceType.

Variable mapping : gmap string pytd_type.

Lemma Visit_type_ReplaceType (t : pytd_type) (s : state) :
  Visit_type (ReplaceType.visitor mapping) t s = (Ok (replace_named mapping t), s).
Proof.
  revert s.
  induction t as [n|n|n c|b e IHb IHe|b ps IHb IHps|ts IHts|ts IHts]
    using pytd_type_nested_ind; intros s; cbn [Visit_type replace_named].
  - cbn. unfold ReplaceType.VisitBasicType. by destruct (mapping !! n).
  - done.
  - done.
  - erewrite bind_Ok by apply IHb. by erewrite bind_Ok by apply IHe.
  - erewrite bind_Ok by apply IHb. by erewrite bind_Ok by by apply mapM_map.
  - by erewrite bind_Ok by by apply mapM_map.
  - by erewrite bind_Ok by by apply mapM_map.
Qed.

Lemma Visit_Constant_ReplaceType (c : Constant) (s : state) :
  Visit_Constant (ReplaceType.visitor mapping) c s =
    (Ok (replace_in_Constant mapping c), s).
Proof.
  unfold Visit_Constant. by erewrite bind_Ok by apply Visit_type_ReplaceType.
Qed.

Lemma Visit_Parameter_ReplaceType (p : Param) (s : state) :
  Visit_Parameter (ReplaceType.visitor mapping) p s =
    (Ok (replace_in_Parameter mapping p), s).
Proof.
  unfold Visit_Parameter. by erewrite bind_Ok by apply Visit_type_ReplaceType.
Qed.

Lemma Visit_Signature_ReplaceType (sg : Signature) (s : state) :
  Visit_Signature (ReplaceType.visitor mapping) sg s =
    (Ok (replace_in_Signature mapping sg), s).
Proof.
  unfold Visit_Signature.
  erewrite bind_Ok by apply mapM_map_all, Visit_Parameter_ReplaceType.
  erewrite bind_Ok by apply Visit_type_ReplaceType.
  by erewrite bind_Ok by apply mapM_map_all, Visit_type_ReplaceType.
Qed.

Lemma Visit_Function_ReplaceType (f : Function) (s : state) :
  Visit_Function (ReplaceType.visitor mapping) f s =
    (Ok (replace_in_Function mapping f), s).
Proof.
  unfold Visit_Function.
  by erewrite bind_Ok by apply mapM_map_all, Visit_Signature_ReplaceType.
Qed.

(** Visiting a template-free class with [ReplaceType] builds one new object:
    the class with the mapping applied to its parents, constants and
    methods. *)
Lemma Visit_Class_ReplaceType (c : Class) (s : state) :
  cls_template c = None →
  Visit_Class (ReplaceType.visitor mapping) c s =
    (Ok (instantiated_class (cls_name c) mapping c (next s)), allocate 1 s).
Proof.
  intros Ht. unfold Visit_Class. rewrite Ht.
  erewrite bind_Ok by reflexivity.
  erewrite bind_Ok by apply mapM_map_all, Visit_type_ReplaceType.
  erewrite bind_Ok by apply mapM_map_all, Visit_Constant_ReplaceType.
  erewrite bind_Ok by apply mapM_map_all, Visit_Function_ReplaceType.
  by erewrite bind_Ok by reflexivity.
Qed.

End ReplaceType.

(** ** [InstantiateTemplates] *)

(** [_InstantiateClass] on a named base whose class has a template list. *)
Lemma _InstantiateClass_Ok (symbol_table : TypeDeclUnit) (name b : string)
    (element_types : list pytd_type) (cls : Class) (tpl : list TemplateItem)
    (s : state) :
  Lookup symbol_table b = Ok cls →
  cls_template cls = Some tpl →
  InstantiateTemplates._InstantiateClass symbol_table name (BasicType b)
      element_types s =
    (Ok (instantiated_class name
           (dict_of (zip (map tmpl_name tpl) element_types)) cls (S (next s))),
     allocate 2 s).
Proof.
  intros Hl Ht. unfold InstantiateTemplates._InstantiateClass.
  erewrite bind_Ok by reflexivity.
  erewrite bind_Ok by (unfold lift; by rewrite Hl).
  rewrite Ht. erewrite bind_Ok by reflexivity.
  erewrite bind_Ok by reflexivity.
  by rewrite Visit_Class_ReplaceType.
Qed.

Lemma dict_of_first (names : list string) (e : pytd_type) :
  dict_of (zip names [e]) =
    match names with
    | [] => ∅
    | n :: _ => {[n := e]}
    end.
Proof. destruct names as [|n [|n' names]]; reflexivity. Qed.

(** A failing [_InstantiateClass] has not touched the state; a successful
    one has built two objects, the second of which is its result. *)
Lemma _InstantiateClass_inv (symbol_table : TypeDeclUnit) (name : string)
    (base_type : pytd_type) (element_types : list pytd_type)
    (s s' : state) (r : result Class) :
  InstantiateTemplates._InstantiateClass symbol_table name base_type
      element_types s = (r, s') →
  (∃ e, r = Raise e ∧ s' = s) ∨
  (∃ b cls tpl,
     base_type = BasicType b ∧ Lookup symbol_table b = Ok cls ∧
     cls_template cls = Some tpl ∧
     r = Ok (instantiated_class name
               (dict_of (zip (map tmpl_name tpl) element_types)) cls (S (next s))) ∧
     s' = allocate 2 s).
Proof.
  intros H.
  destruct base_type as [b| | | | | |];
    try (left; inversion H; subst; by eexists).
  destruct (Lookup symbol_table b) as [cls|e] eqn:Hl.
  2:{ left. unfold InstantiateTemplates._InstantiateClass in H.
      erewrite bind_Ok in H by reflexivity.
      erewrite bind_Raise in H by (unfold lift; by rewrite Hl).
      inversion H; subst. by eexists. }
  destruct (cls_template cls) as [tpl|] eqn:Ht.
  - right. exists b, cls, tpl.
    rewrite (_InstantiateClass_Ok _ _ _ _ cls tpl) in H by done.
    by inversion H.
  - left. unfold InstantiateTemplates._InstantiateClass in H.
    erewrite bind_Ok in H by reflexivity.
    erewrite bind_Ok in H by (unfold lift; by rewrite Hl).
    rewrite Ht in H. inversion H; subst. by eexists.
Qed.

(** The three ways [VisitHomogeneousContainerType] can go: it raises and
    leaves the state as it was; the canonical name is in the dictionary and
    nothing happens; or the name is new, the base is a named class with a
    template list, and the instantiated copy is stored under the name. *)
Lemma VisitHomogeneousContainerType_inv (symbol_table : TypeDeclUnit)
    (base_type element_type : pytd_type) (s s' : state) (r : result pytd_type) :
  InstantiateTemplates.VisitHomogeneousContainerType symbol_table
      base_type element_type s = (r, s') →
  (∃ e, r = Raise e ∧ s' = s) ∨
  (∃ bt et,
     print_type (cells s) base_type = Ok bt ∧
     print_type (cells s) element_type = Ok et ∧
     r = Ok (BasicType (canonical_name bt et)) ∧
     ((∃ c, instantiated_classes s !! canonical_name bt et = Some c ∧ s' = s) ∨
      (instantiated_classes s !! canonical_name bt et = None ∧
       ∃ b cls tpl,
         base_type = BasicType b ∧ Lookup symbol_table b = Ok cls ∧
         cls_template cls = Some tpl ∧
         s' = {| cells := cells s; next := 2 + next s;
                 instantiated_classes :=
                   <[canonical_name bt et :=
                       instantiated_class (canonical_name bt et)
                         (dict_of (zip (map tmpl_name tpl) [element_type]))
                         cls (S (next s))]> (instantiated_classes s) |}))).
Proof.
  unfold InstantiateTemplates.VisitHomogeneousContainerType. intros H.
  destruct (print_type (cells s) base_type) as [bt|e] eqn:Hb.
  2:{ erewrite bind_Raise in H by (unfold print; by rewrite Hb).
      left. inversion H; subst. by eexists. }
  erewrite bind_Ok in H by (unfold print; by rewrite Hb).
  destruct (print_type (cells s) element_type) as [et|e] eqn:He.
  2:{ erewrite bind_Raise in H by (unfold print; by rewrite He).
      left. inversion H; subst. by eexists. }
  erewrite bind_Ok in H by (unfold print; by rewrite He).
  erewrite bind_Ok in H by reflexivity.
  fold (canonical_name bt et) in H.
  destruct (instantiated_classes s !! canonical_name bt et) as [c|] eqn:Hc.
  { erewrite bind_Ok in H by reflexivity. inversion H; subst.
    right. exists bt, et. repeat split. left. by exists c. }
  apply bind_inv in H as [(u & s1 & H1 & H2) | (e & H1 & ->)].
  - apply bind_inv_Ok in H1 as (c & s2 & H1 & H3).
    apply _InstantiateClass_inv in H1
      as [(e & ? & _) | (b & cls & tpl & -> & Hl & Ht & Hr & ->)]; [done |].
    inversion Hr; subst c. clear Hr.
    erewrite bind_Ok in H3 by reflexivity. inversion H3; subst u s1. clear H3.
    inversion H2; subst r s'. clear H2.
    right. exists bt, et. repeat split. right. split; [done |].
    by exists b, cls, tpl.
  - apply bind_inv in H1 as [(c & s2 & H1 & H3) | (e' & H1 & Hr)].
    + erewrite bind_Ok in H3 by reflexivity. discriminate.
    + apply _InstantiateClass_inv in H1
        as [(e'' & _ & ->) | (b & cls & tpl & _ & _ & _ & ? & _)]; [| done].
      left. by eexists.
Qed.

Lemma grows_refl (s : state) : grows s s.
Proof. by repeat split. Qed.

Lemma grows_trans (s1 s2 s3 : state) : grows s1 s2 → grows s2 s3 → grows s1 s3.
Proof.
  intros (Hc1 & Hn1 & Hd1) (Hc2 & Hn2 & Hd2). repeat split.
  - congruence.
  - lia.
  - by etrans.
Qed.

Lemma grows_fresh : preserves grows fresh.
Proof.
  intros s r s' H. inversion H; subst.
  split; [done |]. split; [simpl; lia | done].
Qed.

Lemma keeps_well_keyed_refl (s : state) : keeps_well_keyed s s.
Proof. by intros H. Qed.

Lemma keeps_well_keyed_trans (s1 s2 s3 : state) :
  keeps_well_keyed s1 s2 → keeps_well_keyed s2 s3 → keeps_well_keyed s1 s3.
Proof. intros H1 H2 H. by apply H2, H1. Qed.

Lemma keeps_well_keyed_fresh : preserves keeps_well_keyed fresh.
Proof. intros s r s' H. inversion H; subst. by intros Hk. Qed.

Lemma VisitHomogeneousContainerType_grows (symbol_table : TypeDeclUnit)
    (b e : pytd_type) :
  preserves grows
    (InstantiateTemplates.VisitHomogeneousContainerType symbol_table b e).
Proof.
  intros s r s' H.
  apply VisitHomogeneousContainerType_inv in H
    as [(ex & _ & ->) | (bt & et & _ & _ & _ &
          [(c & _ & ->) | (Hnone & n & cls & tpl & _ & _ & _ & ->)])];
    try apply grows_refl.
  split; [done |]. split; [simpl; lia |]. by apply insert_subseteq.
Qed.

Lemma VisitHomogeneousContainerType_well_keyed (symbol_table : TypeDeclUnit)
    (b e : pytd_type) :
  preserves keeps_well_keyed
    (InstantiateTemplates.VisitHomogeneousContainerType symbol_table b e).
Proof.
  intros s r s' H.
  apply VisitHomogeneousContainerType_inv in H
    as [(ex & _ & ->) | (bt & et & _ & _ & _ &
          [(c & _ & ->) | (Hnone & n & cls & tpl & _ & _ & _ & ->)])];
    try apply keeps_well_keyed_refl.
  intros Hk k c. simpl. rewrite lookup_insert. case_decide as Hkey.
  - intros [= <-]. by subst k.
  - apply Hk.
Qed.

Section InstantiateTemplates.

Variable symbol_table : TypeDeclUnit.

Lemma InstantiateTemplates_type_grows (t : pytd_type) :
  preserves grows (Visit_type (InstantiateTemplates.visitor symbol_table) t).
Proof.
  apply preserves_Visit_type; try apply grows_refl; try apply grows_trans.
  - intros n s r s' H. inversion H. apply grows_refl.
  - intros n c s r s' H. inversion H. apply grows_refl.
  - apply VisitHomogeneousContainerType_grows.
  - intros b ps s r s' H. inversion H. apply grows_refl.
Qed.

Lemma InstantiateTemplates_unit_grows (u : TypeDeclUnit) :
  preserves grows (Visit_TypeDeclUnit (InstantiateTemplates.visitor symbol_table) u).
Proof.
  apply preserves_Visit_TypeDeclUnit;
    try apply grows_refl; try apply grows_trans; try apply grows_fresh.
  - intros n s r s' H. inversion H. apply grows_refl.
  - intros n c s r s' H. inversion H. apply grows_refl.
  - apply VisitHomogeneousContainerType_grows.
  - intros b ps s r s' H. inversion H. apply grows_refl.
  - intros c s r s' H. inversion H. apply grows_refl.
  - intros u' s r s' H. inversion H. apply grows_refl.
Qed.

Lemma InstantiateTemplates_unit_well_keyed (u : TypeDeclUnit) :
  preserves keeps_well_keyed
    (Visit_TypeDeclUnit (InstantiateTemplates.visitor symbol_table) u).
Proof.
  apply preserves_Visit_TypeDeclUnit;
    try apply keeps_well_keyed_refl; try apply keeps_well_keyed_trans;
    try apply keeps_well_keyed_fresh.
  - intros n s r s' H. inversion H. apply keeps_well_keyed_refl.
  - intros n c s r s' H. inversion H. apply keeps_well_keyed_refl.
  - apply VisitHomogeneousContainerType_well_keyed.
  - intros b ps s r s' H. inversion H. apply keeps_well_keyed_refl.
  - intros c s r s' H. inversion H. apply keeps_well_keyed_refl.
  - intros u' s r s' H. inversion H. apply keeps_well_keyed_refl.
Qed.

End InstantiateTemplates.

(** The handler of [InstantiateTemplates] for a GenericType node raises
    NotImplementedError and leaves the state as it found it.  So the visit
    of a GenericType node always ends in an exception, which is that one
    whenever the children of the node were visited without one; and every
    class that was in the dictionary before is still there afterwards. *)
Lemma Visit_GenericType_raises (symbol_table : TypeDeclUnit) (b : pytd_type)
    (ps : list pytd_type) (s : state) :
  InstantiateTemplates.VisitGenericType b ps s = (Raise NotImplementedError, s) ∧
  ∃ (e : exception) (s' : state),
    Visit_type (InstantiateTemplates.visitor symbol_table) (GenericType b ps) s
      = (Raise e, s') ∧
    instantiated_classes s ⊆ instantiated_classes s' ∧
    ∀ b' s1 ps' s2,
      Visit_type (InstantiateTemplates.visitor symbol_table) b s = (Ok b', s1) →
      mapM (Visit_type (InstantiateTemplates.visitor symbol_table)) ps s1
        = (Ok ps', s2) →
      e = NotImplementedError ∧ s' = s2.
Proof.
  split; [done |].
  destruct (Visit_type (InstantiateTemplates.visitor symbol_table)
              (GenericType b ps) s) as [r s'] eqn:H.
  pose proof (InstantiateTemplates_type_grows symbol_table _ _ _ _ H)
    as (_ & _ & Hsub).
  cbn [Visit_type] in H.
  apply bind_inv in H as [(b' & s1 & Hb & H) | (e & Hb & ->)].
  - apply bind_inv in H as [(ps' & s2 & Hps & H) | (e & Hps & ->)].
    + inversion H; subst. exists NotImplementedError, s'.
      split; [done |]. split; [done |].
      intros b'' s1' ps'' s2' Hb' Hps'.
      rewrite Hb in Hb'. inversion Hb'; subst. split; [done | congruence].
    + exists e, s'. split; [done |]. split; [done |].
      intros b'' s1' ps'' s2' Hb' Hps'.
      rewrite Hb in Hb'. inversion Hb'; subst. congruence.
  - exists e, s'. split; [done |]. split; [done |].
    intros b'' s1' ps'' s2' Hb' Hps'. congruence.
Qed.

(** C6 on a module: the traversal stops at the two-argument generic type
    with NotImplementedError, and [Box<int>], instantiated before, is still
    in the dictionary. *)
Example GenericType_unsupported_module :
  ∃ (s' : state) (c : Class),
    InstantiateTemplates.run module_generic module_generic initial_state
      = (Raise NotImplementedError, s') ∧
    instantiated_classes s' !! "Box<int>" = Some c ∧
    cls_constants c = [{| const_name := "item"; const_type := BasicType "int" |}].
Proof. eexists _, _. vm_compute. repeat split. Qed.

(** *** The final class list *)

Lemma mapM_Forall2 {A B} (f : A → M B) (P : A → B → Prop) (l : list A)
    (s s' : state) (l' : list B) :
  (∀ x s y s', f x s = (Ok y, s') → P x y) →
  mapM f l s = (Ok l', s') → Forall2 P l l'.
Proof.
  intros Hf. revert s l'. induction l as [|x l IH]; intros s l' H.
  - inversion H. constructor.
  - rewrite mapM_cons in H.
    apply bind_inv_Ok in H as (y & s1 & Hy & H).
    apply bind_inv_Ok in H as (ys & s2 & Hys & H).
    inversion H; subst. constructor; [by eapply Hf | by eapply IH].
Qed.

(** Without a handler for classes, a visited class keeps its name, and it
    has a template list exactly if it had one. *)
Lemma Visit_Class_shape (v : Visitor) (c c' : Class) (s s' : state) :
  (∀ c, VisitClass v c = default_Class c) →
  Visit_Class v c s = (Ok c', s') →
  cls_name c' = cls_name c ∧ (cls_template c' = None ↔ cls_template c = None).
Proof.
  intros Hv H. unfold Visit_Class in H.
  apply bind_inv_Ok in H as (t & s1 & Ht & H).
  apply bind_inv_Ok in H as (ps & s2 & _ & H).
  apply bind_inv_Ok in H as (cs & s3 & _ & H).
  apply bind_inv_Ok in H as (ms & s4 & _ & H).
  apply bind_inv_Ok in H as (o & s5 & _ & H).
  rewrite Hv in H. inversion H; subst. simpl. split; [done |].
  destruct (cls_template c) as [l|]; simpl in Ht.
  - apply bind_inv_Ok in Ht as (l' & s6 & _ & Ht). by inversion Ht.
  - by inversion Ht.
Qed.

(** The class list of a completed run, in outline: the visited classes
    that have no template, followed by the classes of the dictionary; none
    of them has a template. *)
Lemma final_class_list_outline (symbol_table unit unit' : TypeDeclUnit) (s s' : state) :
  InstantiateTemplates.run symbol_table unit s = (Ok (Some unit'), s') →
  ∃ visited : list Class,
    Forall2 (λ c c', cls_name c' = cls_name c ∧
                     (cls_template c' = None ↔ cls_template c = None))
      (unit_classes unit) visited ∧
    unit_classes unit' =
      (filter (λ c, cls_template c = None) visited
         ++ values (instantiated_classes s'))%list ∧
    Forall (λ c, cls_template c = None) (unit_classes unit').
Proof.
  intros H. unfold InstantiateTemplates.run in H.
  erewrite bind_Ok in H by reflexivity.
  pose proof (InstantiateTemplates_unit_well_keyed symbol_table _ _ _ _ H) as Hk.
  unfold Visit_TypeDeclUnit in H.
  apply bind_inv_Ok in H as (cs & s1 & _ & H).
  apply bind_inv_Ok in H as (fs & s2 & _ & H).
  apply bind_inv_Ok in H as (cls & s3 & Hcls & H).
  inversion H; subst. clear H. exists cls. simpl. split; [| split; [done |]].
  - eapply mapM_Forall2; [| exact Hcls].
    intros c s4 c' s5 Hc. eapply Visit_Class_shape; [| exact Hc]. done.
  - apply Forall_app. split.
    + apply Forall_forall. intros c Hc. by apply list_elem_of_filter in Hc as [? _].
    + apply Forall_forall. intros c Hc. unfold values in Hc.
      apply list_elem_of_fmap in Hc as ([k c0] & -> & Hc).
      apply elem_of_map_to_list in Hc. eapply Hk; [| exact Hc].
      intros k' c' Hl. cbn in Hl. by rewrite lookup_empty in Hl.
Qed.

Lemma run_module_Box :
  InstantiateTemplates.run module_Box module_Box initial_state =
    (Ok (Some module_Box_instantiated), state_Box_instantiated).
Proof. vm_compute. reflexivity. Qed.

(** *** Instantiating a container type *)

(** C4, as the code has it.  [_InstantiateClass] does not compare the number
    of template parameters with the number of arguments: when the class of
    the base has a template list, the instantiation succeeds whatever the
    length of that list.  The one argument is bound to the first template
    parameter, if there is one, and the names of further parameters are left
    as they are.  Only a class without a template list makes it raise, a
    TypeError. *)
Theorem template_arity_not_checked (symbol_table : TypeDeclUnit) (name b : string)
    (e : pytd_type) (cls : Class) (s : state) :
  Lookup symbol_table b = Ok cls →
  InstantiateTemplates._InstantiateClass symbol_table name (BasicType b) [e] s =
    match cls_template cls with
    | None => (Raise TypeError, s)
    | Some tpl =>
        (Ok (instantiated_class name
               match tpl with
               | [] => ∅
               | t :: _ => {[tmpl_name t := e]}
               end cls (S (next s))),
         allocate 2 s)
    end.
Proof.
  intros Hl. destruct (cls_template cls) as [tpl|] eqn:Ht.
  - rewrite (_InstantiateClass_Ok _ _ _ _ cls tpl) by done.
    rewrite dict_of_first. by destruct tpl.
  - unfold InstantiateTemplates._InstantiateClass.
    erewrite bind_Ok by reflexivity.
    erewrite bind_Ok by (unfold lift; by rewrite Hl).
    by rewrite Ht.
Qed.

Lemma template_arity_not_checked_witness :
  InstantiateTemplates._InstantiateClass module_Pair "Pair<int>" (BasicType "Pair")
      [BasicType "int"] initial_state =
    (Ok (instantiated_class "Pair<int>" {["K" := BasicType "int"]} Pair 1),
     allocate 2 initial_state).
Proof.
  apply (template_arity_not_checked module_Pair "Pair<int>" "Pair"
           (BasicType "int") Pair initial_state).
  reflexivity.
Defined.

(** C4 as worded fails: [Pair] has two template parameters, yet [Pair<int>]
    is instantiated without an exception, and the class that is produced is
    substituted in part: [K] has become [int], [V] is still there. *)
Lemma two_parameters_one_argument_instantiated :
  ∃ (s' : state) (c : Class),
    InstantiateTemplates.VisitHomogeneousContainerType module_Pair
        (BasicType "Pair") (BasicType "int") initial_state
      = (Ok (BasicType "Pair<int>"), s') ∧
    instantiated_classes s' !! "Pair<int>" = Some c ∧
    cls_constants c = [{| const_name := "first"; const_type := BasicType "int" |};
                       {| const_name := "second"; const_type := BasicType "V" |}].
Proof. eexists _, _. vm_compute. repeat split. Qed.

(** C3, as the code has it.  When the canonical name of a container type
    over a named base is not in the dictionary and the class of the base has
    the one template parameter [T], the handler stores under that name a new
    class: the copy of the base class that bears the canonical name, has no
    template, and has every NamedType node named [T] replaced by the element
    type; ClassReference nodes are copied as they are, named [T] or not.
    The node that takes the place of the container type is a NamedType
    carrying the canonical name. *)
Theorem uncached_instantiation (symbol_table : TypeDeclUnit) (b : string)
    (e : pytd_type) (et : string) (cls : Class) (T : string) (bound : pytd_type)
    (s : state) :
  print_type (cells s) e = Ok et →
  instantiated_classes s !! canonical_name (PrintVisitor.SafeName b) et = None →
  Lookup symbol_table b = Ok cls →
  cls_template cls = Some [{| tmpl_name := T; tmpl_within_type := bound |}] →
  InstantiateTemplates.VisitHomogeneousContainerType symbol_table (BasicType b) e s =
    (Ok (BasicType (canonical_name (PrintVisitor.SafeName b) et)),
     {| cells := cells s; next := 2 + next s;
        instantiated_classes :=
          <[canonical_name (PrintVisitor.SafeName b) et :=
              instantiated_class (canonical_name (PrintVisitor.SafeName b) et)
                {[T := e]} cls (S (next s))]> (instantiated_classes s) |}) ∧
  replace_named {[T := e]} (BasicType T) = e ∧
  (∀ n, n ≠ T → replace_named {[T := e]} (BasicType n) = BasicType n) ∧
  (∀ n c, replace_named {[T := e]} (ClassType n c) = ClassType n c).
Proof.
  intros He Hnone Hl Ht. split; [| split; [| split]].
  - unfold InstantiateTemplates.VisitHomogeneousContainerType.
    erewrite bind_Ok by reflexivity.
    erewrite bind_Ok by (unfold print; by rewrite He).
    erewrite bind_Ok by reflexivity.
    change (PrintVisitor.VisitBasicType b) with (PrintVisitor.SafeName b).
    fold (canonical_name (PrintVisitor.SafeName b) et).
    rewrite Hnone.
    erewrite bind_Ok.
    2:{ erewrite bind_Ok by (eapply _InstantiateClass_Ok; [exact Hl | exact Ht]).
        erewrite bind_Ok by reflexivity. reflexivity. }
    reflexivity.
  - cbn. by rewrite lookup_singleton_eq.
  - intros n Hn. cbn. by rewrite lookup_singleton_ne.
  - done.
Qed.

Lemma uncached_instantiation_witness :
  InstantiateTemplates.VisitHomogeneousContainerType module_Box (BasicType "Box")
      (BasicType "int") initial_state =
    (Ok (BasicType (canonical_name (PrintVisitor.SafeName "Box") "int")),
     {| cells := cells initial_state; next := 2 + next initial_state;
        instantiated_classes :=
          <[canonical_name (PrintVisitor.SafeName "Box") "int" :=
              instantiated_class (canonical_name (PrintVisitor.SafeName "Box") "int")
                {["T" := BasicType "int"]} Box (S (next initial_state))]>
            (instantiated_classes initial_state) |}).
Proof.
  apply (uncached_instantiation module_Box "Box" (BasicType "int") "int" Box "T"
           object_type initial_state); reflexivity.
Defined.

(** C3 as worded fails twice on [Cell<int>]: the node that replaces the
    container type is a NamedType, not a ClassReference, and in the class
    that is produced the ClassReference named [T] is still there, while the
    NamedType [T] has become [int]. *)
Lemma ClassType_named_like_parameter_kept :
  ∃ (s' : state) (c : Class),
    InstantiateTemplates.VisitHomogeneousContainerType module_Cell
        (BasicType "Cell") (BasicType "int") initial_state
      = (Ok (BasicType "Cell<int>"), s') ∧
    instantiated_classes s' !! "Cell<int>" = Some c ∧
    cls_constants c = [{| const_name := "item"; const_type := ClassType "T" 7 |};
                       {| const_name := "other"; const_type := BasicType "int" |}].
Proof. eexists _, _. vm_compute. repeat split. Qed.

(** *** One class per canonical name *)

Lemma well_keyed_empty : well_keyed ∅.
Proof. intros k c H. by rewrite lookup_empty in H. Qed.

Lemma count_named_cons (k : string) (c : Class) (l : list Class) :
  count_named k (c :: l) =
    (if decide (cls_name c = k) then 1 else 0) + count_named k l.
Proof. unfold count_named. rewrite filter_cons. by case_decide. Qed.

Lemma count_named_app (k : string) (l1 l2 : list Class) :
  count_named k (l1 ++ l2) = count_named k l1 + count_named k l2.
Proof. unfold count_named. by rewrite filter_app, length_app. Qed.

(** In a well keyed dictionary each name is borne by the class stored under
    it and by no other. *)
Lemma count_named_values (d : gmap string Class) (k : string) :
  well_keyed d →
  count_named k (values d) = match d !! k with Some _ => 1 | None => 0 end.
Proof.
  induction d as [|i x m Hi IH] using map_ind; intros Hk.
  - unfold values. by rewrite map_to_list_empty, lookup_empty.
  - assert (count_named k (values (<[i:=x]> m)) = count_named k (x :: values m))
      as ->.
    { unfold count_named, values.
      by rewrite (map_to_list_insert m i x Hi). }
    rewrite count_named_cons, IH.
    2:{ intros k' c Hc. apply Hk. rewrite lookup_insert_ne; [done |].
        intros ->. congruence. }
    destruct (Hk i x (lookup_insert_eq m i x)) as [Hname _].
    rewrite lookup_insert. destruct (decide (i = k)) as [<-|Hik].
    + rewrite decide_True by done. by rewrite Hi.
    + rewrite decide_False by congruence. done.
Qed.

Lemma run_well_keyed (symbol_table unit : TypeDeclUnit) (s s' : state)
    (r : result (option TypeDeclUnit)) :
  InstantiateTemplates.run symbol_table unit s = (r, s') →
  well_keyed (instantiated_classes s').
Proof.
  intros H. unfold InstantiateTemplates.run in H.
  erewrite bind_Ok in H by reflexivity.
  apply (InstantiateTemplates_unit_well_keyed symbol_table _ _ _ _ H).
  apply well_keyed_empty.
Qed.

(** At the end of a run, the classes the dictionary adds to the module have
    pairwise different names: each name of the dictionary is borne by one
    of them. *)
Lemma run_one_class_per_name (symbol_table unit : TypeDeclUnit) (s s' : state)
    (r : result (option TypeDeclUnit)) (k : string) (c : Class) :
  InstantiateTemplates.run symbol_table unit s = (r, s') →
  instantiated_classes s' !! k = Some c →
  cls_name c = k ∧ count_named k (values (instantiated_classes s')) = 1.
Proof.
  intros H Hc. apply run_well_keyed in H. split; [by apply H |].
  by rewrite (count_named_values _ _ H), Hc.
Qed.

(** *** What no step of a run undoes *)

Section Run.

Variable symbol_table : TypeDeclUnit.
Variable R : state → state → Prop.
Hypothesis R_refl : ∀ s, R s s.
Hypothesis R_trans : ∀ s1 s2 s3, R s1 s2 → R s2 s3 → R s1 s3.
Hypothesis R_fresh : preserves R fresh.
Hypothesis R_handler : ∀ b e,
  preserves R (InstantiateTemplates.VisitHomogeneousContainerType symbol_table b e).

Lemma run_BasicType (n : string) :
  preserves R (VisitBasicType (InstantiateTemplates.visitor symbol_table) n).
Proof using R_refl. intros s r s' H. inversion H. apply R_refl. Qed.

Lemma run_ClassType (n : string) (c : loc) :
  preserves R (VisitClassType (InstantiateTemplates.visitor symbol_table) n c).
Proof using R_refl. intros s r s' H. inversion H. apply R_refl. Qed.

Lemma run_GenericType (b : pytd_type) (ps : list pytd_type) :
  preserves R (VisitGenericType (InstantiateTemplates.visitor symbol_table) b ps).
Proof using R_refl. intros s r s' H. inversion H. apply R_refl. Qed.

Lemma run_VisitClass (c : Class) :
  preserves R (VisitClass (InstantiateTemplates.visitor symbol_table) c).
Proof using R_refl. intros s r s' H. inversion H. apply R_refl. Qed.

Lemma run_type (t : pytd_type) :
  preserves R (Visit_type (InstantiateTemplates.visitor symbol_table) t).
Proof using R_refl R_trans R_handler.
  apply preserves_Visit_type; auto using run_BasicType, run_ClassType,
    run_GenericType.
Qed.

Lemma run_Constant (c : Constant) :
  preserves R (Visit_Constant (InstantiateTemplates.visitor symbol_table) c).
Proof using R_refl R_trans R_handler.
  apply preserves_Visit_Constant; auto using run_BasicType, run_ClassType,
    run_GenericType.
Qed.

Lemma run_Function (f : Function) :
  preserves R (Visit_Function (InstantiateTemplates.visitor symbol_table) f).
Proof using R_refl R_trans R_handler.
  apply preserves_Visit_Function; auto using run_BasicType, run_ClassType,
    run_GenericType.
Qed.

Lemma run_Class (c : Class) :
  preserves R (Visit_Class (InstantiateTemplates.visitor symbol_table) c).
Proof using All.
  apply preserves_Visit_Class; auto using run_BasicType, run_ClassType,
    run_GenericType, run_VisitClass.
Qed.

(** Whatever every step keeps, a run keeps. *)
Lemma later_keeps (s1 s2 : state) : later symbol_table s1 s2 → R s1 s2.
Proof using All.
  induction 1 as [s|s1 s2 s3 r _ IH H|s1 s2 s3 b e r _ IH H|s1 s2 s3 t r _ IH H
                  |s1 s2 s3 c r _ IH H|s1 s2 s3 f r _ IH H|s1 s2 s3 c r _ IH H].
  - apply R_refl.
  - eapply R_trans; [exact IH |]. by eapply R_fresh.
  - eapply R_trans; [exact IH |]. by eapply R_handler.
  - eapply R_trans; [exact IH |]. by eapply run_type.
  - eapply R_trans; [exact IH |]. by eapply run_Constant.
  - eapply R_trans; [exact IH |]. by eapply run_Function.
  - eapply R_trans; [exact IH |]. by eapply run_Class.
Qed.

End Run.

Lemma later_grows (symbol_table : TypeDeclUnit) (s1 s2 : state) :
  later symbol_table s1 s2 → grows s1 s2.
Proof.
  apply later_keeps.
  - apply grows_refl.
  - apply grows_trans.
  - apply grows_fresh.
  - apply VisitHomogeneousContainerType_grows.
Qed.

Lemma later_well_keyed (symbol_table : TypeDeclUnit) (s1 s2 : state) :
  later symbol_table s1 s2 → keeps_well_keyed s1 s2.
Proof.
  apply later_keeps.
  - apply keeps_well_keyed_refl.
  - apply keeps_well_keyed_trans.
  - apply keeps_well_keyed_fresh.
  - apply VisitHomogeneousContainerType_well_keyed.
Qed.

(** A container type whose canonical name is in the dictionary is answered
    from it. *)
Lemma VisitHomogeneousContainerType_hit (symbol_table : TypeDeclUnit)
    (b e : pytd_type) (bt et : string) (c : Class) (s : state) :
  print_type (cells s) b = Ok bt →
  print_type (cells s) e = Ok et →
  instantiated_classes s !! canonical_name bt et = Some c →
  InstantiateTemplates.VisitHomogeneousContainerType symbol_table b e s
    = (Ok (BasicType (canonical_name bt et)), s).
Proof.
  intros Hb He Hc. unfold InstantiateTemplates.VisitHomogeneousContainerType.
  erewrite bind_Ok by (unfold print; by rewrite Hb).
  erewrite bind_Ok by (unfold print; by rewrite He).
  erewrite bind_Ok by reflexivity.
  fold (canonical_name bt et). rewrite Hc.
  by erewrite bind_Ok by reflexivity.
Qed.

(** C2, as the code has it.  When a container type has been instantiated,
    its canonical name, built from the texts of base and element, is in the
    dictionary, and from then on, in every state the run gets to, by
    whatever handler calls and visits, instantiating the same pair again is
    a hit: it returns the same node, builds nothing and leaves the
    dictionary as it is, and the class stored under the name is the same
    object as the first time.  No step of the run takes an entry of the
    dictionary away or replaces it.  At the end of the run that class is the
    only one with this name among the classes the dictionary adds to the
    module; the module has exactly one class of this name provided none of
    its own template-free classes bears it. *)
Theorem same_pair_instantiated_once (symbol_table : TypeDeclUnit)
    (b e r : pytd_type) (s s1 : state) :
  well_keyed (instantiated_classes s) →
  InstantiateTemplates.VisitHomogeneousContainerType symbol_table b e s = (Ok r, s1) →
  ∃ (bt et : string) (c : Class),
    print_type (cells s) b = Ok bt ∧
    print_type (cells s) e = Ok et ∧
    r = BasicType (canonical_name bt et) ∧
    instantiated_classes s1 !! canonical_name bt et = Some c ∧
    cls_name c = canonical_name bt et ∧
    ∀ s2 : state,
      later symbol_table s1 s2 →
      instantiated_classes s1 ⊆ instantiated_classes s2 ∧
      InstantiateTemplates.VisitHomogeneousContainerType symbol_table b e s2
        = (Ok r, s2) ∧
      instantiated_classes s2 !! canonical_name bt et = Some c ∧
      ∀ node : TypeDeclUnit,
        ∃ unit' : TypeDeclUnit,
          InstantiateTemplates.VisitTypeDeclUnit node s2 = (Ok (Some unit'), s2) ∧
          count_named (canonical_name bt et) (values (instantiated_classes s2)) = 1 ∧
          count_named (canonical_name bt et) (unit_classes unit') =
            count_named (canonical_name bt et)
              (filter (λ c, cls_template c = None) (unit_classes node)) + 1.
Proof.
  intros Hk H.
  pose proof (VisitHomogeneousContainerType_well_keyed _ _ _ _ _ _ H Hk) as Hk1.
  pose proof H as H'.
  apply VisitHomogeneousContainerType_inv in H'
    as [(ex & ? & _) | (bt & et & Hb & He & Hr & Hcases)]; [done |].
  assert (∃ c, instantiated_classes s1 !! canonical_name bt et = Some c ∧
               cells s1 = cells s) as (c & Hc & Hcells).
  { destruct Hcases as [(c & Hc & ->) | (_ & n & cls & tpl & _ & _ & _ & ->)].
    - by exists c.
    - eexists. split; [apply lookup_insert_eq | done]. }
  exists bt, et, c. inversion Hr; subst r.
  repeat (split; [done |]).
  split; [by apply Hk1 |].
  intros s2 Hlater.
  pose proof (later_grows _ _ _ Hlater) as (Hcells2 & _ & Hsub).
  pose proof (later_well_keyed _ _ _ Hlater Hk1) as Hk2.
  assert (instantiated_classes s2 !! canonical_name bt et = Some c) as Hc2.
  { by eapply lookup_weaken. }
  split; [done |]. split.
  { apply (VisitHomogeneousContainerType_hit _ _ _ _ _ c); [| | done].
    - by rewrite Hcells2, Hcells.
    - by rewrite Hcells2, Hcells. }
  split; [done |].
  intros node. eexists. split; [reflexivity |].
  cbn [unit_classes]. rewrite count_named_app.
  rewrite (count_named_values _ _ Hk2), Hc2. done.
Qed.

Lemma same_pair_instantiated_once_witness :
  ∃ (bt et : string) (c : Class),
    print_type (cells initial_state) (BasicType "Box") = Ok bt ∧
    print_type (cells initial_state) (BasicType "int") = Ok et ∧
    BasicType "Box<int>" = BasicType (canonical_name bt et) ∧
    instantiated_classes state_Box_once !! canonical_name bt et = Some c ∧
    cls_name c = canonical_name bt et ∧
    ∀ s2 : state,
      later module_Box state_Box_once s2 →
      instantiated_classes state_Box_once ⊆ instantiated_classes s2 ∧
      InstantiateTemplates.VisitHomogeneousContainerType module_Box
          (BasicType "Box") (BasicType "int") s2
        = (Ok (BasicType "Box<int>"), s2) ∧
      instantiated_classes s2 !! canonical_name bt et = Some c ∧
      ∀ node : TypeDeclUnit,
        ∃ unit' : TypeDeclUnit,
          InstantiateTemplates.VisitTypeDeclUnit node s2 = (Ok (Some unit'), s2) ∧
          count_named (canonical_name bt et) (values (instantiated_classes s2)) = 1 ∧
          count_named (canonical_name bt et) (unit_classes unit') =
            count_named (canonical_name bt et)
              (filter (λ c, cls_template c = None) (unit_classes node)) + 1.
Proof.
  apply (same_pair_instantiated_once module_Box (BasicType "Box") (BasicType "int")
           (BasicType "Box<int>") initial_state state_Box_once).
  - apply well_keyed_empty.
  - vm_compute. reflexivity.
Defined.

(** The second use of [Box<int>] in [module_Box] is met in a state of this
    kind: the run gets from the state after the first use to the state in
    which the module's classes have been visited. *)
Example later_module_Box : later module_Box state_Box_once state_Box_instantiated.
Proof.
  apply (later_Class _ _ state_Box_once _ Box
           (Visit_Class (InstantiateTemplates.visitor module_Box) Box
              state_Box_once).1); [| vm_compute; reflexivity].
  apply (later_Constant _ _ state_Box_once _
           {| const_name := "y"; const_type := Box_of_int |}
           (Visit_Constant (InstantiateTemplates.visitor module_Box)
              {| const_name := "y"; const_type := Box_of_int |}
              state_Box_once).1); [apply later_refl | vm_compute; reflexivity].
Qed.

(** C2 as worded fails: [module_own_Box_int] declares a class [Box<int>]
    itself, and after the run the module has two classes of that name, its
    own and the instantiated one. *)
Lemma declared_canonical_name_twice :
  ∃ (unit' : TypeDeclUnit) (s' : state),
    InstantiateTemplates.run module_own_Box_int module_own_Box_int initial_state
      = (Ok (Some unit'), s') ∧
    unit_constants unit'
      = [{| const_name := "x"; const_type := BasicType "Box<int>" |}] ∧
    count_named "Box<int>" (unit_classes unit') = 2.
Proof. eexists _, _. vm_compute. repeat split. Qed.

(** ** Class resolution: the first stage *)

Lemma fresh_in_nil (a b : loc) : (a ≤ b)%nat → fresh_in a b [].
Proof. intros H. split; [done |]. split; constructor. Qed.

Lemma fresh_in_singleton (a : loc) : fresh_in a (S a) [a].
Proof.
  split; [lia |]. split.
  - constructor; [lia | constructor].
  - apply NoDup_singleton.
Qed.

Lemma fresh_in_app (a b c : loc) (l1 l2 : list loc) :
  fresh_in a b l1 → fresh_in b c l2 → fresh_in a c (l1 ++ l2).
Proof.
  intros (Hab & H1 & N1) (Hbc & H2 & N2). split; [lia |]. split.
  - apply Forall_app. split.
    + eapply Forall_impl; [exact H1 |]. simpl. lia.
    + eapply Forall_impl; [exact H2 |]. simpl. lia.
  - apply NoDup_app. split; [done |]. split; [| done].
    intros x Hx1 Hx2.
    rewrite Forall_forall in H1. rewrite Forall_forall in H2.
    specialize (H1 x Hx1). specialize (H2 x Hx2). lia.
Qed.

Lemma fresh_in_weaken (a b c : loc) (l : list loc) :
  fresh_in a b l → (b ≤ c)%nat → fresh_in a c l.
Proof.
  intros (Hab & H1 & N1) Hbc. split; [lia |]. split; [| done].
  eapply Forall_impl; [exact H1 |]. simpl. lia.
Qed.

Lemma first_stage_mapM {A} (f : A → M A) (refs : A → list string)
    (links : A → list (string * loc)) (l : list A) :
  Forall (first_stage f refs links) l →
  first_stage (mapM f) (λ l, concat (map refs l)) (λ l, concat (map links l)) l.
Proof.
  induction 1 as [|x l Hx _ IH]; intros s.
  - exists [], s. split; [done |]. split; [done |]. split; [done |].
    intros _. by apply fresh_in_nil.
  - destruct (Hx s) as (y & s1 & Hy & Hr1 & Hn1 & Hf1).
    destruct (IH s1) as (ys & s2 & Hys & Hr2 & Hn2 & Hf2).
    exists (y :: ys), s2. split.
    { rewrite mapM_cons. erewrite bind_Ok by exact Hy.
      by erewrite bind_Ok by exact Hys. }
    cbn [map concat]. rewrite !map_app, Hr1, Hr2.
    split; [done |]. split; [lia |].
    intros Hnil. apply app_eq_nil in Hnil as [Ha Hb].
    eapply fresh_in_app; eauto.
Qed.

Lemma first_stage_all {A} (f : A → M A) (refs : A → list string)
    (links : A → list (string * loc)) (l : list A) :
  (∀ x, first_stage f refs links x) →
  first_stage (mapM f) (λ l, concat (map refs l)) (λ l, concat (map links l)) l.
Proof. intros H. apply first_stage_mapM, Forall_forall. intros x _. apply H. Qed.

Lemma first_stage_type (t : pytd_type) :
  first_stage (Visit_type LookupClasses.visitor) refs_type links_type t.
Proof.
  induction t as [n|n|n c|b e IHb IHe|b ps IHb IHps|ts IHts|ts IHts]
    using pytd_type_nested_ind; intros s.
  - eexists _, _. split; [reflexivity |]. split; [done |].
    split; [simpl; lia |]. intros _. apply fresh_in_singleton.
  - exists (NativeType n), s. split; [done |]. split; [done |].
    split; [done |]. intros _. by apply fresh_in_nil.
  - exists (ClassType n c), s. split; [done |]. split; [done |].
    split; [done |]. intros [=].
  - destruct (IHb s) as (b' & s1 & Hb & Hr1 & Hn1 & Hf1).
    destruct (IHe s1) as (e' & s2 & He & Hr2 & Hn2 & Hf2).
    exists (HomogeneousContainerType b' e'), s2. split.
    { cbn [Visit_type]. erewrite bind_Ok by exact Hb.
      by erewrite bind_Ok by exact He. }
    cbn [links_type refs_type]. rewrite !map_app, Hr1, Hr2.
    split; [done |]. split; [lia |].
    intros Hnil. apply app_eq_nil in Hnil as [Ha Hb'].
    eapply fresh_in_app; eauto.
  - destruct (IHb s) as (b' & s1 & Hb & Hr1 & Hn1 & Hf1).
    destruct (first_stage_mapM _ _ _ _ IHps s1) as (ps' & s2 & Hps & Hr2 & Hn2 & Hf2).
    exists (GenericType b' ps'), s2. split.
    { cbn [Visit_type]. erewrite bind_Ok by exact Hb.
      by erewrite bind_Ok by exact Hps. }
    cbn [links_type refs_type]. rewrite !map_app, Hr1, Hr2.
    split; [done |]. split; [lia |].
    intros Hnil. apply app_eq_nil in Hnil as [Ha Hb'].
    eapply fresh_in_app; eauto.
  - destruct (first_stage_mapM _ _ _ _ IHts s) as (ts' & s1 & Hts & Hr1 & Hn1 & Hf1).
    exists (UnionType ts'), s1. split.
    { cbn [Visit_type]. by erewrite bind_Ok by exact Hts. }
    done.
  - destruct (first_stage_mapM _ _ _ _ IHts s) as (ts' & s1 & Hts & Hr1 & Hn1 & Hf1).
    exists (IntersectionType ts'), s1. split.
    { cbn [Visit_type]. by erewrite bind_Ok by exact Hts. }
    done.
Qed.

Lemma first_stage_Constant (c : Constant) :
  first_stage (Visit_Constant LookupClasses.visitor) refs_Constant links_Constant c.
Proof.
  intros s. destruct (first_stage_type (const_type c) s) as (t & s1 & Ht & Hrest).
  exists {| const_name := const_name c; const_type := t |}, s1.
  split; [| exact Hrest].
  unfold Visit_Constant. by erewrite bind_Ok by exact Ht.
Qed.

Lemma first_stage_Parameter (p : Param) :
  first_stage (Visit_Parameter LookupClasses.visitor) refs_Parameter links_Parameter p.
Proof.
  intros s. destruct (first_stage_type (param_type p) s) as (t & s1 & Ht & Hrest).
  exists {| param_name := param_name p; param_type := t |}, s1.
  split; [| exact Hrest].
  unfold Visit_Parameter. by erewrite bind_Ok by exact Ht.
Qed.

Lemma first_stage_TemplateItem (t : TemplateItem) :
  first_stage (Visit_TemplateItem LookupClasses.visitor)
    refs_TemplateItem links_TemplateItem t.
Proof.
  intros s. destruct (first_stage_type (tmpl_within_type t) s) as (w & s1 & Hw & Hrest).
  exists {| tmpl_name := tmpl_name t; tmpl_within_type := w |}, s1.
  split; [| exact Hrest].
  unfold Visit_TemplateItem. by erewrite bind_Ok by exact Hw.
Qed.

Lemma first_stage_Signature (sg : Signature) :
  first_stage (Visit_Signature LookupClasses.visitor) refs_Signature links_Signature sg.
Proof.
  intros s.
  destruct (first_stage_all _ _ _ (sig_params sg) first_stage_Parameter s)
    as (ps & s1 & H1 & Hr1 & Hn1 & Hf1).
  destruct (first_stage_type (sig_return_type sg) s1)
    as (r & s2 & H2 & Hr2 & Hn2 & Hf2).
  destruct (first_stage_all _ _ _ (sig_exceptions sg) first_stage_type s2)
    as (es & s3 & H3 & Hr3 & Hn3 & Hf3).
  eexists _, s3. split.
  { unfold Visit_Signature. erewrite bind_Ok by exact H1.
    erewrite bind_Ok by exact H2. by erewrite bind_Ok by exact H3. }
  unfold links_Signature, refs_Signature. cbn [sig_params sig_return_type sig_exceptions].
  rewrite !map_app, Hr1, Hr2, Hr3. split; [done |]. split; [lia |].
  intros Hnil. apply app_eq_nil in Hnil as [Ha Hnil].
  apply app_eq_nil in Hnil as [Hb Hc].
  eapply fresh_in_app; [eauto |]. eapply fresh_in_app; eauto.
Qed.

Lemma first_stage_Function (f : Function) :
  first_stage (Visit_Function LookupClasses.visitor) refs_Function links_Function f.
Proof.
  intros s.
  destruct (first_stage_all _ _ _ (fn_signatures f) first_stage_Signature s)
    as (sgs & s1 & H1 & Hrest).
  exists {| fn_name := fn_name f; fn_signatures := sgs |}, s1.
  split; [| exact Hrest].
  unfold Visit_Function. by erewrite bind_Ok by exact H1.
Qed.

Lemma first_stage_template (t : option (list TemplateItem)) :
  first_stage (Visit_template LookupClasses.visitor) refs_template links_template t.
Proof.
  intros s. destruct t as [l|].
  - destruct (first_stage_all _ _ _ l first_stage_TemplateItem s)
      as (l' & s1 & H1 & Hrest).
    exists (Some l'), s1. split; [| exact Hrest].
    unfold Visit_template. by erewrite bind_Ok by exact H1.
  - exists None, s. split; [done |]. split; [done |]. split; [done |].
    intros _. by apply fresh_in_nil.
Qed.

(** The rebuilt class is a new object: its address lies between the
    addresses that were free before and after the visit. *)
Lemma first_stage_Class (c : Class) (s : state) :
  ∃ c' s',
    Visit_Class LookupClasses.visitor c s = (Ok c', s') ∧
    map fst (links_Class c') = refs_Class c ∧
    (next s ≤ cls_oid c' < next s')%nat ∧
    (links_Class c = [] → fresh_in (next s) (cls_oid c') (map snd (links_Class c'))) ∧
    cls_name c' = cls_name c ∧
    Forall2 (λ k k', ∃ s1 s2, Visit_Constant LookupClasses.visitor k s1 = (Ok k', s2))
      (cls_constants c) (cls_constants c').
Proof.
  destruct (first_stage_template (cls_template c) s)
    as (t & s1 & H1 & Hr1 & Hn1 & Hf1).
  destruct (first_stage_all _ _ _ (cls_parents c) first_stage_type s1)
    as (ps & s2 & H2 & Hr2 & Hn2 & Hf2).
  destruct (first_stage_all _ _ _ (cls_constants c) first_stage_Constant s2)
    as (cs & s3 & H3 & Hr3 & Hn3 & Hf3).
  destruct (first_stage_all _ _ _ (cls_methods c) first_stage_Function s3)
    as (ms & s4 & H4 & Hr4 & Hn4 & Hf4).
  eexists _, _. split.
  { unfold Visit_Class. erewrite bind_Ok by exact H1.
    erewrite bind_Ok by exact H2. erewrite bind_Ok by exact H3.
    erewrite bind_Ok by exact H4. erewrite bind_Ok by reflexivity. reflexivity. }
  unfold links_Class, refs_Class.
  cbn [cls_template cls_parents cls_constants cls_methods cls_oid cls_name next].
  rewrite !map_app, Hr1, Hr2, Hr3, Hr4. split; [done |]. split; [lia |].
  split; [| split; [done |]].
  - intros Hnil. apply app_eq_nil in Hnil as [Ha Hnil].
    apply app_eq_nil in Hnil as [Hb Hnil]. apply app_eq_nil in Hnil as [Hc Hd].
    eapply fresh_in_app; [eauto |]. eapply fresh_in_app; [eauto |].
    eapply fresh_in_app; eauto.
  - eapply mapM_Forall2; [| exact H3]. intros k s5 k' s6 Hk. by exists s5, s6.
Qed.

(** The classes of a module after the first stage. *)
Lemma first_stage_classes (l : list Class) (s : state) :
  ∃ l' s',
    mapM (Visit_Class LookupClasses.visitor) l s = (Ok l', s') ∧
    map fst (concat (map links_Class l')) = concat (map refs_Class l) ∧
    (next s ≤ next s')%nat ∧
    (concat (map links_Class l) = [] →
     fresh_in (next s) (next s') (map snd (concat (map links_Class l')))) ∧
    fresh_in (next s) (next s') (map cls_oid l') ∧
    Forall2 (λ c c', cls_name c' = cls_name c ∧
               Forall2 (λ k k', ∃ s1 s2,
                          Visit_Constant LookupClasses.visitor k s1 = (Ok k', s2))
                 (cls_constants c) (cls_constants c')) l l'.
Proof.
  revert s. induction l as [|c l IH]; intros s.
  - exists [], s. split; [done |]. split; [done |]. split; [done |].
    split; [intros _; by apply fresh_in_nil |].
    split; [by apply fresh_in_nil | constructor].
  - destruct (first_stage_Class c s) as (c' & s1 & Hc & Hr1 & Hn1 & Hf1 & Hname & Hks).
    destruct (IH s1) as (l' & s2 & Hl & Hr2 & Hn2 & Hf2 & Ho2 & Hshape).
    exists (c' :: l'), s2. split.
    { rewrite mapM_cons. erewrite bind_Ok by exact Hc.
      by erewrite bind_Ok by exact Hl. }
    cbn [map concat]. rewrite !map_app, Hr1, Hr2.
    split; [done |]. split; [lia |]. split; [| split].
    + intros Hnil. apply app_eq_nil in Hnil as [Ha Hb].
      eapply fresh_in_app; [| eauto].
      eapply fresh_in_weaken; [eauto | lia].
    + change (cls_oid c' :: map cls_oid l')
        with (([cls_oid c'] ++ map cls_oid l')%list).
      eapply fresh_in_app; [| exact Ho2].
      split; [lia |]. split; [| apply NoDup_singleton].
      constructor; [lia | constructor].
    + by constructor.
Qed.

(** ** Class resolution: the symbol table *)

Lemma Lookup_Raise (u : TypeDeclUnit) (n : string) (e : exception) :
  Lookup u n = Raise e → e = KeyError n.
Proof. unfold Lookup. destruct (find _ _); by intros [=]. Qed.

Lemma Lookup_Ok (u : TypeDeclUnit) (n : string) (c : Class) :
  Lookup u n = Ok c → c ∈ unit_classes u ∧ cls_name c = n.
Proof.
  unfold Lookup. destruct (find _ _) as [c'|] eqn:Hf; intros [=]; subst c'.
  apply find_some in Hf as [Hin Hname]. split.
  - by apply list_elem_of_In.
  - by apply bool_decide_eq_true in Hname.
Qed.

Lemma defined_iff (u : TypeDeclUnit) (n : string) :
  defined u n ↔ n ∈ map cls_name (unit_classes u).
Proof.
  split.
  - intros (c & Hc). apply Lookup_Ok in Hc as [Hin <-].
    apply list_elem_of_In, in_map. by apply list_elem_of_In.
  - intros Hin. apply list_elem_of_In, in_map_iff in Hin as (c & Hname & Hin).
    unfold defined, Lookup.
    destruct (find _ _) as [c'|] eqn:Hf; [by eexists |].
    eapply find_none in Hf; [| exact Hin].
    apply bool_decide_eq_false in Hf. done.
Qed.

Lemma defined_dec (u : TypeDeclUnit) (n : string) : defined u n ∨ ¬ defined u n.
Proof.
  unfold defined. destruct (Lookup u n) as [c|e].
  - left. by exists c.
  - right. by intros (c & [=]).
Qed.

(** With pairwise different class names, [Lookup] of the name of a class of
    the module is that class. *)
Lemma Lookup_NoDup (u : TypeDeclUnit) (j : nat) (c : Class) :
  NoDup (map cls_name (unit_classes u)) →
  unit_classes u !! j = Some c →
  Lookup u (cls_name c) = Ok c.
Proof.
  unfold Lookup. generalize (unit_classes u). intros l. revert j.
  induction l as [|c0 l IH]; intros j Hnd Hj; [done |].
  apply NoDup_cons in Hnd as [Hnotin Hnd]. cbn [find].
  destruct j as [|j]; simpl in Hj.
  - inversion Hj; subst. by rewrite bool_decide_eq_true_2.
  - rewrite bool_decide_eq_false_2; [by eapply IH |].
    intros Heq. apply Hnotin. rewrite Heq.
    apply list_elem_of_In, in_map, list_elem_of_In. by eapply list_elem_of_lookup_2.
Qed.

Lemma first_undefined (u : TypeDeclUnit) (l : list string) :
  Forall (defined u) l ∨
  ∃ pre n post, l = pre ++ n :: post ∧ Forall (defined u) pre ∧ ¬ defined u n.
Proof.
  induction l as [|n l IH]; [by left |].
  destruct (defined_dec u n) as [Hn | Hn].
  - destruct IH as [IH | (pre & n' & post & -> & Hpre & Hn')].
    + left. by constructor.
    + right. exists (n :: pre), n', post. split; [done |]. split; [by constructor | done].
  - right. exists [], n, l. by repeat split.
Qed.

(** ** Class resolution: the second stage *)

Lemma fill_cells_app (u : TypeDeclUnit) (l1 l2 : list (string * loc))
    (h : gmap loc Class) :
  fill_cells u (l1 ++ l2) h =
    match fill_cells u l1 h with
    | (Ok _, h1) => fill_cells u l2 h1
    | (Raise e, h1) => (Raise e, h1)
    end.
Proof.
  revert h. induction l1 as [|[n c] l1 IH]; intros h; [done |].
  cbn [fill_cells app]. destruct (Lookup u n); [apply IH | done].
Qed.

Lemma fill_cells_other (u : TypeDeclUnit) (l : list (string * loc))
    (h h' : gmap loc Class) (r : result unit) (c : loc) :
  fill_cells u l h = (r, h') → c ∉ map snd l → h' !! c = h !! c.
Proof.
  revert h. induction l as [|[n c0] l IH]; intros h H Hc.
  - by inversion H.
  - cbn [fill_cells] in H. cbn [map snd] in Hc.
    apply not_elem_of_cons in Hc as [Hne Hc].
    destruct (Lookup u n) as [cls|e].
    + rewrite (IH _ H Hc). by rewrite lookup_insert_ne.
    + by inversion H.
Qed.

Lemma fill_cells_defined (u : TypeDeclUnit) (l : list (string * loc))
    (h : gmap loc Class) :
  Forall (defined u) (map fst l) → ∃ h', fill_cells u l h = (Ok tt, h').
Proof.
  revert h. induction l as [|[n c] l IH]; intros h Hd; [by eexists |].
  cbn [map fst] in Hd. apply Forall_cons in Hd as [(cls & Hn) Hd].
  cbn [fill_cells]. rewrite Hn. by apply IH.
Qed.

Lemma fill_cells_linked (u : TypeDeclUnit) (l : list (string * loc))
    (h h' : gmap loc Class) (n : string) (c : loc) :
  fill_cells u l h = (Ok tt, h') →
  NoDup (map snd l) →
  (n, c) ∈ l →
  ∃ cls, Lookup u n = Ok cls ∧ h' !! c = Some cls.
Proof.
  revert h. induction l as [|[n0 c0] l IH]; intros h H Hnd Hin.
  - by apply elem_of_nil in Hin.
  - cbn [fill_cells] in H. cbn [map snd] in Hnd.
    apply NoDup_cons in Hnd as [Hnotin Hnd].
    destruct (Lookup u n0) as [cls0|e] eqn:Hl; [| done].
    apply elem_of_cons in Hin as [[= -> ->] | Hin].
    + exists cls0. split; [done |].
      rewrite (fill_cells_other _ _ _ _ _ _ H Hnotin). apply lookup_insert_eq.
    + by eapply IH.
Qed.

Lemma fill_cells_first_undefined (u : TypeDeclUnit) (l : list (string * loc))
    (h : gmap loc Class) (pre post : list string) (n : string) :
  map fst l = pre ++ n :: post →
  Forall (defined u) pre →
  ¬ defined u n →
  ∃ h', fill_cells u l h = (Raise (KeyError n), h').
Proof.
  revert l h. induction pre as [|p pre IH]; intros l h Hl Hpre Hn.
  - destruct l as [|[n0 c0] l]; [done |]. simpl in Hl. inversion Hl; subst n0.
    cbn [fill_cells]. destruct (Lookup u n) as [cls|e] eqn:Hlk.
    + exfalso. apply Hn. by exists cls.
    + apply Lookup_Raise in Hlk as ->. by eexists.
  - destruct l as [|[n0 c0] l]; [done |]. simpl in Hl. inversion Hl; subst n0.
    apply Forall_cons in Hpre as [(cls & Hp) Hpre].
    cbn [fill_cells]. rewrite Hp. by apply IH.
Qed.

Section Fills.

Variable symbol_table : TypeDeclUnit.

Lemma fills_ret {A} (a : A) : fills symbol_table (ret a) [].
Proof. intros s r s' H. by inversion H. Qed.

Lemma fills_fresh : fills symbol_table fresh [].
Proof. intros s r s' H. by inversion H. Qed.

Lemma fills_bind {A B} (m : M A) (k : A → M B) (l1 l2 : list (string * loc)) :
  fills symbol_table m l1 → (∀ a, fills symbol_table (k a) l2) →
  fills symbol_table (bind m k) (l1 ++ l2).
Proof.
  intros Hm Hk s r s' H. rewrite fill_cells_app.
  apply bind_inv in H as [(a & s1 & H1 & H2) | (e & H1 & ->)].
  - rewrite (Hm _ _ _ H1). simpl. by eapply Hk.
  - by rewrite (Hm _ _ _ H1).
Qed.

Lemma fills_bind_ret {A B} (m : M A) (g : A → B) (l : list (string * loc)) :
  fills symbol_table m l → fills symbol_table (bind m (λ a, ret (g a))) l.
Proof.
  intros Hm. rewrite <- (app_nil_r l). apply fills_bind; [done |].
  intros a. apply fills_ret.
Qed.

Lemma fills_mapM {A B} (f : A → M B) (g : A → list (string * loc)) (l : list A) :
  Forall (λ x, fills symbol_table (f x) (g x)) l →
  fills symbol_table (mapM f l) (concat (map g l)).
Proof.
  induction 1 as [|x l Hx _ IH]; [apply fills_ret |].
  rewrite mapM_cons. cbn [map concat]. apply fills_bind; [done |].
  intros y. by apply fills_bind_ret.
Qed.

Lemma fills_all {A B} (f : A → M B) (g : A → list (string * loc)) (l : list A) :
  (∀ x, fills symbol_table (f x) (g x)) →
  fills symbol_table (mapM f l) (concat (map g l)).
Proof. intros H. apply fills_mapM, Forall_forall. intros x _. apply H. Qed.

Lemma fills_VisitClassType (n : string) (c : loc) :
  fills symbol_table (FillInClasses.VisitClassType symbol_table n c) [(n, c)].
Proof.
  intros s r s' H. cbn [fill_cells].
  unfold FillInClasses.VisitClassType, bind, lift in H.
  destruct (Lookup symbol_table n) as [cls|e]; by inversion H.
Qed.

Lemma fills_type (t : pytd_type) :
  fills symbol_table (Visit_type (FillInClasses.visitor symbol_table) t)
    (links_type t).
Proof.
  induction t as [n|n|n c|b e IHb IHe|b ps IHb IHps|ts IHts|ts IHts]
    using pytd_type_nested_ind; cbn [Visit_type links_type].
  - apply fills_ret.
  - apply fills_ret.
  - apply fills_VisitClassType.
  - apply fills_bind; [done |]. intros b'. by apply fills_bind_ret.
  - apply fills_bind; [done |]. intros b'. apply fills_bind_ret.
    by apply fills_mapM.
  - apply fills_bind_ret. by apply fills_mapM.
  - apply fills_bind_ret. by apply fills_mapM.
Qed.

Lemma fills_Constant (c : Constant) :
  fills symbol_table (Visit_Constant (FillInClasses.visitor symbol_table) c)
    (links_Constant c).
Proof. apply fills_bind_ret, fills_type. Qed.

Lemma fills_Parameter (p : Param) :
  fills symbol_table (Visit_Parameter (FillInClasses.visitor symbol_table) p)
    (links_Parameter p).
Proof. apply fills_bind_ret, fills_type. Qed.

Lemma fills_TemplateItem (t : TemplateItem) :
  fills symbol_table (Visit_TemplateItem (FillInClasses.visitor symbol_table) t)
    (links_TemplateItem t).
Proof. apply fills_bind_ret, fills_type. Qed.

Lemma fills_Signature (sg : Signature) :
  fills symbol_table (Visit_Signature (FillInClasses.visitor symbol_table) sg)
    (links_Signature sg).
Proof.
  apply fills_bind; [apply fills_all, fills_Parameter |]. intros ps.
  apply fills_bind; [apply fills_type |]. intros r.
  apply fills_bind_ret, fills_all, fills_type.
Qed.

Lemma fills_Function (f : Function) :
  fills symbol_table (Visit_Function (FillInClasses.visitor symbol_table) f)
    (links_Function f).
Proof. apply fills_bind_ret, fills_all, fills_Signature. Qed.

Lemma fills_template (t : option (list TemplateItem)) :
  fills symbol_table (Visit_template (FillInClasses.visitor symbol_table) t)
    (links_template t).
Proof.
  destruct t as [l|]; [| apply fills_ret].
  apply fills_bind_ret, fills_all, fills_TemplateItem.
Qed.

Lemma fills_Class (c : Class) :
  fills symbol_table (Visit_Class (FillInClasses.visitor symbol_table) c)
    (links_Class c).
Proof.
  apply fills_bind; [apply fills_template |]. intros t.
  apply fills_bind; [apply fills_all, fills_type |]. intros ps.
  apply fills_bind; [apply fills_all, fills_Constant |]. intros cs.
  rewrite <- (app_nil_r (concat (map links_Function (cls_methods c)))).
  apply fills_bind; [apply fills_all, fills_Function |]. intros ms.
  rewrite <- (app_nil_r []).
  apply fills_bind; [apply fills_fresh |]. intros o. apply fills_ret.
Qed.

Lemma fills_TypeDeclUnit (u : TypeDeclUnit) :
  fills symbol_table (Visit_TypeDeclUnit (FillInClasses.visitor symbol_table) u)
    (links_TypeDeclUnit u).
Proof.
  apply fills_bind; [apply fills_all, fills_Constant |]. intros cs.
  apply fills_bind; [apply fills_all, fills_Function |]. intros fs.
  rewrite <- (app_nil_r (concat (map links_Class (unit_classes u)))).
  apply fills_bind; [apply fills_all, fills_Class |]. intros cls.
  apply fills_ret.
Qed.

End Fills.

(** ** Class resolution: [LookupClasses] on a module *)

Lemma elem_of_concat_map {A B} (f : A → list B) (l : list A) (x : A) (y : B) :
  x ∈ l → y ∈ f x → y ∈ concat (map f l).
Proof.
  intros Hx Hy. apply list_elem_of_In, in_concat. exists (f x). split.
  - apply in_map. by apply list_elem_of_In.
  - by apply list_elem_of_In.
Qed.

(** The children of a module after the first stage: the module [unit] the
    handler of [LookupClasses] is called with. *)
Lemma first_stage_TypeDeclUnit (m : TypeDeclUnit) (s : state) :
  ∃ unit s1,
    Visit_TypeDeclUnit LookupClasses.visitor m s =
      LookupClasses.VisitTypeDeclUnit unit s1 ∧
    map fst (links_TypeDeclUnit unit) = refs_TypeDeclUnit m ∧
    (links_TypeDeclUnit m = [] → NoDup (map snd (links_TypeDeclUnit unit))) ∧
    NoDup (map cls_oid (unit_classes unit)) ∧
    Forall2 (λ c c', cls_name c' = cls_name c ∧
               Forall2 (λ k k', ∃ s1 s2,
                          Visit_Constant LookupClasses.visitor k s1 = (Ok k', s2))
                 (cls_constants c) (cls_constants c'))
      (unit_classes m) (unit_classes unit).
Proof.
  destruct (first_stage_all _ _ _ (unit_constants m) first_stage_Constant s)
    as (cs & s1 & H1 & Hr1 & Hn1 & Hf1).
  destruct (first_stage_all _ _ _ (unit_functions m) first_stage_Function s1)
    as (fs & s2 & H2 & Hr2 & Hn2 & Hf2).
  destruct (first_stage_classes (unit_classes m) s2)
    as (cls & s3 & H3 & Hr3 & Hn3 & Hf3 & Ho3 & Hshape).
  exists {| unit_constants := cs; unit_functions := fs; unit_classes := cls |}, s3.
  split.
  { unfold Visit_TypeDeclUnit. erewrite bind_Ok by exact H1.
    erewrite bind_Ok by exact H2. by erewrite bind_Ok by exact H3. }
  unfold links_TypeDeclUnit, refs_TypeDeclUnit.
  cbn [unit_constants unit_functions unit_classes].
  rewrite !map_app, Hr1, Hr2, Hr3. split; [done |]. split; [| split; [| done]].
  - intros Hnil. apply app_eq_nil in Hnil as [Ha Hnil].
    apply app_eq_nil in Hnil as [Hb Hc].
    assert (fresh_in (next s) (next s3)
              (map snd (concat (map links_Constant cs))
                 ++ map snd (concat (map links_Function fs))
                 ++ map snd (concat (map links_Class cls)))) as (_ & _ & Hnd).
    { eapply fresh_in_app; [eauto |]. eapply fresh_in_app; eauto. }
    done.
  - by destruct Ho3 as (_ & _ & Hnd).
Qed.

Lemma same_names_defined (u u' : TypeDeclUnit) (n : string) :
  Forall2 (λ c c', cls_name c' = cls_name c) (unit_classes u) (unit_classes u') →
  defined u' n ↔ defined u n.
Proof.
  intros H. rewrite !defined_iff.
  assert (map cls_name (unit_classes u') = map cls_name (unit_classes u)) as ->; [| done].
  induction H as [|c c' l l' Hc _ IH]; [done |]. simpl. by rewrite Hc, IH.
Qed.

(** The handler of [LookupClasses] for a module is the second stage: it
    fills in the links of the module from the module itself and returns
    that very module. *)
Lemma LookupClasses_VisitTypeDeclUnit_inv (unit : TypeDeclUnit) (s s' : state)
    (r : result (option TypeDeclUnit)) :
  LookupClasses.VisitTypeDeclUnit unit s = (r, s') →
  fill_cells unit (links_TypeDeclUnit unit) (cells s) = (void r, cells s') ∧
  (r = Ok (Some unit) ∨ ∃ e, r = Raise e).
Proof.
  intros H. unfold LookupClasses.VisitTypeDeclUnit in H.
  apply bind_inv in H as [(a & s1 & H1 & H2) | (e & H1 & ->)].
  - inversion H2; subst. split; [| by left].
    by rewrite (fills_TypeDeclUnit unit unit _ _ _ H1).
  - split; [| right; by eexists].
    by rewrite (fills_TypeDeclUnit unit unit _ _ _ H1).
Qed.

(** C5.  Resolving a module that refers to a name it does not define ends
    with the KeyError of [Lookup] (the specification's UnresolvedNameError),
    which carries the unresolved name: the first name, in the order of the
    traversal, for which the module has no class.  No module is returned. *)
Theorem undefined_name_raises_KeyError (m : TypeDeclUnit) (s : state)
    (name : string) :
  name ∈ refs_TypeDeclUnit m →
  ¬ defined m name →
  ∃ (n : string) (s' : state) (pre post : list string),
    Visit_TypeDeclUnit LookupClasses.visitor m s = (Raise (KeyError n), s') ∧
    refs_TypeDeclUnit m = pre ++ n :: post ∧
    Forall (defined m) pre ∧
    ¬ defined m n.
Proof.
  intros Hin Hundef.
  destruct (first_undefined m (refs_TypeDeclUnit m))
    as [Hall | (pre & n & post & Hrefs & Hpre & Hn)].
  { rewrite Forall_forall in Hall. exfalso. by apply Hundef, Hall. }
  destruct (first_stage_TypeDeclUnit m s) as (unit & s1 & Hrun & Hlinks & _ & _ & Hshape).
  assert (∀ x, defined unit x ↔ defined m x) as Hdef.
  { intros x. apply same_names_defined.
    eapply Forall2_impl; [exact Hshape |]. by intros c c' [? _]. }
  destruct (LookupClasses.VisitTypeDeclUnit unit s1) as [r s'] eqn:Hh.
  apply LookupClasses_VisitTypeDeclUnit_inv in Hh as [Hfill _].
  destruct (fill_cells_first_undefined unit (links_TypeDeclUnit unit) (cells s1)
              pre post n) as (h' & Hraise).
  { by rewrite Hlinks. }
  { eapply Forall_impl; [exact Hpre |]. intros x. apply Hdef. }
  { by rewrite Hdef. }
  rewrite Hraise in Hfill. destruct r as [a|e]; [discriminate |].
  inversion Hfill; subst. by exists n, s', pre, post.
Qed.

Lemma undefined_name_raises_KeyError_witness :
  ∃ (n : string) (s' : state) (pre post : list string),
    Visit_TypeDeclUnit LookupClasses.visitor module_Foo initial_state
      = (Raise (KeyError n), s') ∧
    refs_TypeDeclUnit module_Foo = pre ++ n :: post ∧
    Forall (defined module_Foo) pre ∧
    ¬ defined module_Foo n.
Proof.
  apply (undefined_name_raises_KeyError module_Foo initial_state "Foo").
  - vm_compute. apply list_elem_of_In. simpl. auto.
  - intros (c & H). vm_compute in H. discriminate.
Defined.

(** On [module_Foo] the name the exception carries is [Foo]. *)
Example resolve_module_Foo :
  ∃ s' : state,
    Visit_TypeDeclUnit LookupClasses.visitor module_Foo initial_state
      = (Raise (KeyError "Foo"), s').
Proof. eexists. vm_compute. reflexivity. Qed.

(** A constant typed by a name becomes, in the first stage, the constant
    typed by a reference of that name. *)
Lemma Visit_Constant_named (ka n : string) (k' : Constant) (s1 s2 : state) :
  Visit_Constant LookupClasses.visitor
      {| const_name := ka; const_type := BasicType n |} s1 = (Ok k', s2) →
  ∃ c, k' = {| const_name := ka; const_type := ClassType n c |}.
Proof. intros H. inversion H. by eexists. Qed.

(** C1.  Take a module whose references are all NamedTypes and all name a
    class of the module, with pairwise different class names, and in it a
    class [A] with a field of the type named as [B] and a class [B] with a
    field of the type named as [A].  The two stages of the resolution
    complete and return a module in which the two classes are at their
    places, [A'] and [B'], each a new object of its own.  The field of [A']
    is a ClassReference whose cell holds [B'], the class object of the
    module's class list itself, and the field of [B'] is one whose cell
    holds [A'].  The same is true of every reference of the module: its cell
    holds the object [Lookup] finds for its name in the returned module. *)
Theorem mutual_references_linked (m : TypeDeclUnit) (s : state) (i j fa fb : nat)
    (A B : Class) (ka kb : string) :
  links_TypeDeclUnit m = [] →
  Forall (defined m) (refs_TypeDeclUnit m) →
  NoDup (map cls_name (unit_classes m)) →
  unit_classes m !! i = Some A →
  unit_classes m !! j = Some B →
  cls_constants A !! fa
    = Some {| const_name := ka; const_type := BasicType (cls_name B) |} →
  cls_constants B !! fb
    = Some {| const_name := kb; const_type := BasicType (cls_name A) |} →
  ∃ (unit : TypeDeclUnit) (s' : state) (A' B' : Class) (ca cb : loc),
    Visit_TypeDeclUnit LookupClasses.visitor m s = (Ok (Some unit), s') ∧
    unit_classes unit !! i = Some A' ∧
    unit_classes unit !! j = Some B' ∧
    cls_name A' = cls_name A ∧
    cls_name B' = cls_name B ∧
    cls_constants A' !! fa
      = Some {| const_name := ka; const_type := ClassType (cls_name B) ca |} ∧
    cls_constants B' !! fb
      = Some {| const_name := kb; const_type := ClassType (cls_name A) cb |} ∧
    cells s' !! ca = Some B' ∧
    cells s' !! cb = Some A' ∧
    NoDup (map cls_oid (unit_classes unit)) ∧
    ∀ n c, (n, c) ∈ links_TypeDeclUnit unit →
      ∃ cls, cells s' !! c = Some cls ∧ Lookup unit n = Ok cls ∧
             cls ∈ unit_classes unit ∧ cls_name cls = n.
Proof.
  intros Hunres Hdefd Hnames HA HB HfA HfB.
  destruct (first_stage_TypeDeclUnit m s)
    as (unit & s1 & Hrun & Hlinks & Hnd & Hoids & Hshape).
  specialize (Hnd Hunres).
  assert (Forall2 (λ c c', cls_name c' = cls_name c)
            (unit_classes m) (unit_classes unit)) as Hsame.
  { eapply Forall2_impl; [exact Hshape |]. by intros c c' [? _]. }
  assert (map cls_name (unit_classes unit) = map cls_name (unit_classes m)) as Hmap.
  { clear -Hsame. induction Hsame as [|c c' l l' Hc _ IH]; [done |].
    simpl. by rewrite Hc, IH. }
  (* the second stage completes *)
  destruct (fill_cells_defined unit (links_TypeDeclUnit unit) (cells s1))
    as (h' & Hfill).
  { rewrite Hlinks. eapply Forall_impl; [exact Hdefd |].
    intros x. by apply same_names_defined. }
  destruct (LookupClasses.VisitTypeDeclUnit unit s1) as [r s'] eqn:Hh.
  apply LookupClasses_VisitTypeDeclUnit_inv in Hh as [Hfill' Hr].
  rewrite Hfill in Hfill'. destruct Hr as [-> | (e & ->)]; [| discriminate].
  inversion Hfill'; subst h'. clear Hfill'.
  (* every link is filled in *)
  assert (∀ n c, (n, c) ∈ links_TypeDeclUnit unit →
            ∃ cls, cells s' !! c = Some cls ∧ Lookup unit n = Ok cls ∧
                   cls ∈ unit_classes unit ∧ cls_name cls = n) as Hall.
  { intros n c Hin.
    destruct (fill_cells_linked _ _ _ _ _ _ Hfill Hnd Hin) as (cls & Hl & Hc).
    exists cls. split; [done |]. split; [done |]. by apply Lookup_Ok. }
  (* the two classes and their fields *)
  destruct (Forall2_lookup_l _ _ _ _ _ Hshape HA) as (A' & HA' & HnA & HkA).
  destruct (Forall2_lookup_l _ _ _ _ _ Hshape HB) as (B' & HB' & HnB & HkB).
  destruct (Forall2_lookup_l _ _ _ _ _ HkA HfA) as (ka' & Hka' & sa1 & sa2 & Hva).
  destruct (Forall2_lookup_l _ _ _ _ _ HkB HfB) as (kb' & Hkb' & sb1 & sb2 & Hvb).
  apply Visit_Constant_named in Hva as (ca & ->).
  apply Visit_Constant_named in Hvb as (cb & ->).
  assert (∀ (C : Class) n c k f,
            unit_classes unit !! f = Some C →
            cls_constants C !! k = Some {| const_name := n; const_type := c |} →
            ∀ x, x ∈ links_type c → x ∈ links_TypeDeclUnit unit) as Hmem.
  { intros C n c k f HC Hk x Hx. unfold links_TypeDeclUnit.
    apply elem_of_app. right. apply elem_of_app. right.
    eapply elem_of_concat_map; [by eapply list_elem_of_lookup_2 |].
    unfold links_Class. apply elem_of_app. right. apply elem_of_app. right.
    apply elem_of_app. left.
    eapply elem_of_concat_map; [by eapply list_elem_of_lookup_2 | exact Hx]. }
  assert (NoDup (map cls_name (unit_classes unit))) as Hnames' by by rewrite Hmap.
  exists unit, s', A', B', ca, cb.
  do 7 (split; [done |]). split; [| split; [| split; [done | exact Hall]]].
  - destruct (Hall (cls_name B) ca) as (cls & Hc & Hl & _).
    { eapply Hmem; [exact HA' | exact Hka' |]. apply list_elem_of_singleton. done. }
    rewrite <- HnB in Hl. rewrite (Lookup_NoDup _ _ _ Hnames' HB') in Hl.
    by inversion Hl; subst.
  - destruct (Hall (cls_name A) cb) as (cls & Hc & Hl & _).
    { eapply Hmem; [exact HB' | exact Hkb' |]. apply list_elem_of_singleton. done. }
    rewrite <- HnA in Hl. rewrite (Lookup_NoDup _ _ _ Hnames' HA') in Hl.
    by inversion Hl; subst.
Qed.

Lemma mutual_references_linked_witness :
  ∃ (unit : TypeDeclUnit) (s' : state) (A' B' : Class) (ca cb : loc),
    Visit_TypeDeclUnit LookupClasses.visitor module_AB initial_state
      = (Ok (Some unit), s') ∧
    unit_classes unit !! 0 = Some A' ∧
    unit_classes unit !! 1 = Some B' ∧
    cls_name A' = cls_name class_A ∧
    cls_name B' = cls_name class_B ∧
    cls_constants A' !! 0
      = Some {| const_name := "b"; const_type := ClassType (cls_name class_B) ca |} ∧
    cls_constants B' !! 0
      = Some {| const_name := "a"; const_type := ClassType (cls_name class_A) cb |} ∧
    cells s' !! ca = Some B' ∧
    cells s' !! cb = Some A' ∧
    NoDup (map cls_oid (unit_classes unit)) ∧
    ∀ n c, (n, c) ∈ links_TypeDeclUnit unit →
      ∃ cls, cells s' !! c = Some cls ∧ Lookup unit n = Ok cls ∧
             cls ∈ unit_classes unit ∧ cls_name cls = n.
Proof.
  apply (mutual_references_linked module_AB initial_state 0 1 0 0
           class_A class_B "b" "a").
  - reflexivity.
  - repeat constructor; eexists; reflexivity.
  - apply (bool_decide_unpack _). vm_compute. exact I.
  - reflexivity.
  - reflexivity.
  - reflexivity.
  - reflexivity.
Defined.

(** The resolved [module_AB]: [A] is the object at address 1 and [B] the
    object at address 3; the cell 0 of the field of [A] holds [B] and the
    cell 2 of the field of [B] holds [A]. *)
Example resolve_module_AB :
  ∃ (A' B' : Class) (s' : state),
    Visit_TypeDeclUnit LookupClasses.visitor module_AB initial_state
      = (Ok (Some {| unit_constants := []; unit_functions := [];
                     unit_classes := [A'; B'] |}), s') ∧
    cls_oid A' = 1 ∧ cls_oid B' = 3 ∧
    cls_constants A' = [{| const_name := "b"; const_type := ClassType "B" 0 |}] ∧
    cls_constants B' = [{| const_name := "a"; const_type := ClassType "A" 2 |}] ∧
    cells s' !! 0 = Some B' ∧
    cells s' !! 2 = Some A'.
Proof. eexists _, _, _. vm_compute. repeat split. Qed.

(** * Further properties *)

(** ** Names *)

Lemma append_snoc_inj (a b : string) (c : ascii) :
  a +:+ String c "" = b +:+ String c "" → a = b.
Proof.
  revert b. induction a as [|x a IH]; intros [|y b] H.
  - done.
  - exfalso. change (String c "" = String y (b +:+ String c "")) in H.
    inversion H as [[Hc Hb]]. by destruct b.
  - exfalso. change (String x (a +:+ String c "") = String c "") in H.
    inversion H as [[Hc Ha]]. by destruct a.
  - change (String x (a +:+ String c "") = String y (b +:+ String c "")) in H.
    inversion H as [[Hx Hab]]. f_equal. by apply IH.
Qed.

Lemma VALID_NAME_backtick (s : string) : PrintVisitor.VALID_NAME ("`" +:+ s) = false.
Proof. reflexivity. Qed.

(** X1.  [SafeName] maps different names to different texts: a name that is
    left as it is never looks like a quoted one. *)
Theorem SafeName_inj (a b : string) :
  PrintVisitor.SafeName a = PrintVisitor.SafeName b → a = b.
Proof.
  unfold PrintVisitor.SafeName.
  destruct (PrintVisitor.VALID_NAME a) eqn:Ha, (PrintVisitor.VALID_NAME b) eqn:Hb;
    intros H.
  - done.
  - subst a. by rewrite VALID_NAME_backtick in Ha.
  - subst b. by rewrite VALID_NAME_backtick in Hb.
  - change (String "`" (a +:+ "`") = String "`" (b +:+ "`")) in H.
    inversion H as [Hab]. by apply append_snoc_inj in Hab.
Qed.

Lemma SafeName_inj_witness : "my thing" = "my thing".
Proof. apply (SafeName_inj "my thing" "my thing"). reflexivity. Defined.

Lemma match_word_tail_angle (a b : string) :
  match_word_tail (a +:+ String "<" b) = false.
Proof.
  induction a as [|x a IH].
  - change (match_word_tail (String "<" b) = false). by destruct b.
  - change (match_word_tail (String x (a +:+ String "<" b)) = false).
    cbn [match_word_tail]. rewrite IH.
    destruct a; cbn [String.append]; apply andb_false_r.
Qed.

Lemma VALID_NAME_angle (a b : string) :
  PrintVisitor.VALID_NAME (a +:+ String "<" b) = false.
Proof.
  destruct a as [|x a].
  - reflexivity.
  - change (is_name_start x && match_word_tail (a +:+ String "<" b) = false).
    rewrite match_word_tail_angle. apply andb_false_r.
Qed.

(** X2.  The canonical name of an instantiated class is never a plain
    identifier: wherever it is printed, as the name of the class or as a
    type that refers to it, it is put between backticks. *)
Theorem canonical_name_quoted (h : gmap loc Class) (bt et : string) :
  PrintVisitor.SafeName (canonical_name bt et)
    = "`" +:+ canonical_name bt et +:+ "`" ∧
  print_type h (BasicType (canonical_name bt et))
    = Ok ("`" +:+ canonical_name bt et +:+ "`").
Proof.
  assert (PrintVisitor.SafeName (canonical_name bt et)
            = "`" +:+ canonical_name bt et +:+ "`") as H.
  { unfold PrintVisitor.SafeName, canonical_name.
    change ("<" +:+ et +:+ ">") with (String "<" (et +:+ ">")).
    by rewrite VALID_NAME_angle. }
  split; [done |]. cbn [print_type]. unfold PrintVisitor.VisitBasicType.
  by rewrite H.
Qed.

(** ** Printing and links *)

Section Renders.

Variable h : gmap loc Class.

Lemma renders_Ok {B} (b : B) : renders h (Ok b) [].
Proof. split; [by eexists | done]. Qed.

Lemma renders_bind {A B} (r : result A) (k : A → result B)
    (l1 l2 : list (string * loc)) :
  renders h r l1 → (∀ a, renders h (k a) l2) → renders h (rbind r k) (l1 ++ l2).
Proof.
  intros [Hok Hraise] Hk. split.
  - intros Hf. apply Forall_app in Hf as [Hf1 Hf2].
    destruct (Hok Hf1) as (a & ->). simpl. by apply Hk.
  - intros e He. destruct r as [a|e']; simpl in He.
    + destruct (Hk a) as [_ Hr]. destruct (Hr e He) as [-> Hex].
      split; [done |]. apply Exists_app. by right.
    + inversion He; subst e'. destruct (Hraise e eq_refl) as [-> Hex].
      split; [done |]. apply Exists_app. by left.
Qed.

Lemma renders_map {A B} (r : result A) (g : A → B) (l : list (string * loc)) :
  renders h r l → renders h (rbind r (λ a, Ok (g a))) l.
Proof.
  intros Hr. rewrite <- (app_nil_r l). apply renders_bind; [done |].
  intros a. apply renders_Ok.
Qed.

Lemma renders_rmap {A B} (f : A → result B) (g : A → list (string * loc))
    (l : list A) :
  Forall (λ x, renders h (f x) (g x)) l →
  renders h (rmap f l) (concat (map g l)).
Proof.
  induction 1 as [|x l Hx _ IH]; [apply renders_Ok |].
  cbn [rmap map concat]. apply renders_bind; [done |].
  intros y. by apply renders_map.
Qed.

Lemma renders_all {A B} (f : A → result B) (g : A → list (string * loc))
    (l : list A) :
  (∀ x, renders h (f x) (g x)) → renders h (rmap f l) (concat (map g l)).
Proof. intros H. apply renders_rmap, Forall_forall. intros x _. apply H. Qed.

Lemma renders_type (t : pytd_type) : renders h (print_type h t) (links_type t).
Proof.
  induction t as [n|n|n c|b e IHb IHe|b ps IHb IHps|ts IHts|ts IHts]
    using pytd_type_nested_ind; cbn [print_type links_type].
  - apply renders_Ok.
  - apply renders_Ok.
  - unfold PrintVisitor.VisitClassType. split.
    + intros Hf. apply Forall_singleton in Hf as [cls Hc]. simpl in Hc.
      rewrite Hc. by eexists.
    + intros e He. destruct (h !! c) eqn:Hc; [done |]. inversion He.
      split; [done |]. by apply Exists_cons_hd.
  - apply renders_bind; [done |]. intros b'. by apply renders_map.
  - apply renders_bind; [done |]. intros b'. apply renders_map.
    by apply renders_rmap.
  - apply renders_map. by apply renders_rmap.
  - apply renders_map. by apply renders_rmap.
Qed.

Lemma renders_Constant (c : Constant) :
  renders h (print_Constant h c) (links_Constant c).
Proof. apply renders_map, renders_type. Qed.

Lemma renders_Parameter (p : Param) :
  renders h (print_Parameter h p) (links_Parameter p).
Proof. apply renders_map, renders_type. Qed.

Lemma renders_TemplateItem (t : TemplateItem) :
  renders h (print_TemplateItem h t) (links_TemplateItem t).
Proof. apply renders_map, renders_type. Qed.

Lemma renders_Signature (sg : Signature) :
  renders h (print_Signature h sg) (links_Signature sg).
Proof.
  apply renders_bind; [apply renders_all, renders_Parameter |]. intros ps.
  apply renders_bind; [apply renders_type |]. intros r.
  apply renders_map, renders_all, renders_type.
Qed.

Lemma renders_Function (f : Function) :
  renders h (print_Function h f) (links_Function f).
Proof. apply renders_map, renders_all, renders_Signature. Qed.

Lemma renders_template (t : option (list TemplateItem)) :
  renders h (print_template h t) (links_template t).
Proof.
  destruct t as [l|]; [| apply renders_Ok].
  apply renders_map, renders_all, renders_TemplateItem.
Qed.

Lemma renders_Class (c : Class) : renders h (print_Class h c) (links_Class c).
Proof.
  apply renders_bind; [apply renders_template |]. intros t.
  apply renders_bind; [apply renders_all, renders_type |]. intros ps.
  apply renders_bind; [apply renders_all, renders_Constant |]. intros cs.
  apply renders_map, renders_all, renders_Function.
Qed.

(** X3.  Printing a module succeeds when the cell of every ClassReference
    in it holds a class; when it fails, it fails with an AttributeError and
    some ClassReference of the module has an empty cell.  In particular a
    module without ClassReferences is always printed. *)
Theorem print_needs_filled_links (u : TypeDeclUnit) :
  (Forall (filled h) (links_TypeDeclUnit u) →
   ∃ text, print_TypeDeclUnit h u = Ok text) ∧
  (∀ e, print_TypeDeclUnit h u = Raise e →
     e = AttributeError ∧ ∃ n c, (n, c) ∈ links_TypeDeclUnit u ∧ h !! c = None) ∧
  (links_TypeDeclUnit u = [] → ∃ text, print_TypeDeclUnit h u = Ok text).
Proof.
  assert (renders h (print_TypeDeclUnit h u) (links_TypeDeclUnit u)) as [Hok Hraise].
  { apply renders_bind; [apply renders_all, renders_Constant |]. intros cs.
    apply renders_bind; [apply renders_all, renders_Function |]. intros fs.
    apply renders_map, renders_all, renders_Class. }
  split; [done |]. split.
  - intros e He. destruct (Hraise e He) as [-> Hex]. split; [done |].
    apply Exists_exists in Hex as ([n c] & Hin & Hc). by exists n, c.
  - intros Hnil. apply Hok. rewrite Hnil. constructor.
Qed.

End Renders.

Lemma print_needs_filled_links_witness :
  ∃ text, print_TypeDeclUnit ∅ module_AB = Ok text.
Proof.
  destruct (print_needs_filled_links ∅ module_AB) as (_ & _ & H).
  apply H. reflexivity.
Defined.

(** ** Resolution keeps the text of a module *)

Lemma keeps_text_mapM {A} (f : A → M A) (pr : gmap loc Class → A → result string)
    (links : A → list (string * loc)) (l : list A) :
  Forall (keeps_text f pr links) l →
  ∀ s l' s' h h',
    mapM f l s = (Ok l', s') →
    concat (map links l) = [] →
    Forall (named h') (concat (map links l')) →
    rmap (pr h') l' = rmap (pr h) l.
Proof.
  induction 1 as [|x l Hx _ IH]; intros s l' s' h h' H Hnil Hnamed.
  - by inversion H.
  - rewrite mapM_cons in H.
    apply bind_inv_Ok in H as (y & s1 & Hy & H).
    apply bind_inv_Ok in H as (ys & s2 & Hys & H).
    inversion H; subst. clear H.
    cbn [map concat] in Hnil, Hnamed.
    apply app_eq_nil in Hnil as [Hn1 Hn2].
    apply Forall_app in Hnamed as [Hm1 Hm2].
    cbn [rmap]. rewrite (Hx _ _ _ h h' Hy Hn1 Hm1).
    by rewrite (IH _ _ _ h h' Hys Hn2 Hm2).
Qed.

Lemma keeps_text_all {A} (f : A → M A) (pr : gmap loc Class → A → result string)
    (links : A → list (string * loc)) (l : list A) :
  (∀ x, keeps_text f pr links x) →
  ∀ s l' s' h h',
    mapM f l s = (Ok l', s') →
    concat (map links l) = [] →
    Forall (named h') (concat (map links l')) →
    rmap (pr h') l' = rmap (pr h) l.
Proof. intros H. apply keeps_text_mapM, Forall_forall. intros x _. apply H. Qed.

Lemma keeps_text_type (t : pytd_type) :
  keeps_text (Visit_type LookupClasses.visitor) print_type links_type t.
Proof.
  induction t as [n|n|n c|b e IHb IHe|b ps IHb IHps|ts IHts|ts IHts]
    using pytd_type_nested_ind; intros s y s' h h' H Hnil Hnamed.
  - inversion H; subst. cbn [links_type] in Hnamed.
    apply Forall_singleton in Hnamed as (cls & Hc & Hname). simpl in Hc, Hname.
    cbn [print_type]. unfold PrintVisitor.VisitClassType. rewrite Hc.
    by rewrite Hname.
  - by inversion H.
  - done.
  - cbn [Visit_type] in H.
    apply bind_inv_Ok in H as (b' & s1 & Hb & H).
    apply bind_inv_Ok in H as (e' & s2 & He & H).
    inversion H; subst. clear H. cbn [links_type] in Hnil, Hnamed.
    apply app_eq_nil in Hnil as [Hn1 Hn2].
    apply Forall_app in Hnamed as [Hm1 Hm2].
    cbn [print_type].
    by rewrite (IHb _ _ _ h h' Hb Hn1 Hm1), (IHe _ _ _ h h' He Hn2 Hm2).
  - cbn [Visit_type] in H.
    apply bind_inv_Ok in H as (b' & s1 & Hb & H).
    apply bind_inv_Ok in H as (ps' & s2 & Hps & H).
    inversion H; subst. clear H. cbn [links_type] in Hnil, Hnamed.
    apply app_eq_nil in Hnil as [Hn1 Hn2].
    apply Forall_app in Hnamed as [Hm1 Hm2].
    cbn [print_type]. rewrite (IHb _ _ _ h h' Hb Hn1 Hm1).
    by rewrite (keeps_text_mapM _ _ _ _ IHps _ _ _ h h' Hps Hn2 Hm2).
  - cbn [Visit_type] in H.
    apply bind_inv_Ok in H as (ts' & s1 & Hts & H).
    inversion H; subst. clear H. cbn [links_type] in Hnil, Hnamed.
    cbn [print_type].
    by rewrite (keeps_text_mapM _ _ _ _ IHts _ _ _ h h' Hts Hnil Hnamed).
  - cbn [Visit_type] in H.
    apply bind_inv_Ok in H as (ts' & s1 & Hts & H).
    inversion H; subst. clear H. cbn [links_type] in Hnil, Hnamed.
    cbn [print_type].
    by rewrite (keeps_text_mapM _ _ _ _ IHts _ _ _ h h' Hts Hnil Hnamed).
Qed.

Lemma keeps_text_Constant (c : Constant) :
  keeps_text (Visit_Constant LookupClasses.visitor) print_Constant links_Constant c.
Proof.
  intros s y s' h h' H Hnil Hnamed. unfold Visit_Constant in H.
  apply bind_inv_Ok in H as (t & s1 & Ht & H). inversion H; subst. clear H.
  unfold print_Constant. cbn [const_type const_name].
  by rewrite (keeps_text_type _ _ _ _ h h' Ht Hnil Hnamed).
Qed.

Lemma keeps_text_Parameter (p : Param) :
  keeps_text (Visit_Parameter LookupClasses.visitor) print_Parameter links_Parameter p.
Proof.
  intros s y s' h h' H Hnil Hnamed. unfold Visit_Parameter in H.
  apply bind_inv_Ok in H as (t & s1 & Ht & H). inversion H; subst. clear H.
  unfold print_Parameter. cbn [param_type param_name].
  by rewrite (keeps_text_type _ _ _ _ h h' Ht Hnil Hnamed).
Qed.

Lemma keeps_text_TemplateItem (t : TemplateItem) :
  keeps_text (Visit_TemplateItem LookupClasses.visitor) print_TemplateItem
    links_TemplateItem t.
Proof.
  intros s y s' h h' H Hnil Hnamed. unfold Visit_TemplateItem in H.
  apply bind_inv_Ok in H as (w & s1 & Hw & H). inversion H; subst. clear H.
  unfold print_TemplateItem. cbn [tmpl_within_type tmpl_name].
  by rewrite (keeps_text_type _ _ _ _ h h' Hw Hnil Hnamed).
Qed.

Lemma keeps_text_Signature (sg : Signature) :
  keeps_text (Visit_Signature LookupClasses.visitor) print_Signature links_Signature sg.
Proof.
  intros s y s' h h' H Hnil Hnamed. unfold Visit_Signature in H.
  apply bind_inv_Ok in H as (ps & s1 & Hps & H).
  apply bind_inv_Ok in H as (r & s2 & Hr & H).
  apply bind_inv_Ok in H as (es & s3 & Hes & H).
  inversion H; subst. clear H.
  unfold links_Signature in Hnil, Hnamed.
  cbn [sig_params sig_return_type sig_exceptions] in Hnamed.
  apply app_eq_nil in Hnil as [Hn1 Hnil]. apply app_eq_nil in Hnil as [Hn2 Hn3].
  apply Forall_app in Hnamed as [Hm1 Hnamed].
  apply Forall_app in Hnamed as [Hm2 Hm3].
  unfold print_Signature.
  cbn [sig_params sig_return_type sig_exceptions sig_has_optional].
  rewrite (keeps_text_all _ _ _ _ keeps_text_Parameter _ _ _ h h' Hps Hn1 Hm1).
  rewrite (keeps_text_type _ _ _ _ h h' Hr Hn2 Hm2).
  by rewrite (keeps_text_all _ _ _ _ keeps_text_type _ _ _ h h' Hes Hn3 Hm3).
Qed.

Lemma keeps_text_Function (f : Function) :
  keeps_text (Visit_Function LookupClasses.visitor) print_Function links_Function f.
Proof.
  intros s y s' h h' H Hnil Hnamed. unfold Visit_Function in H.
  apply bind_inv_Ok in H as (sgs & s1 & Hsgs & H). inversion H; subst. clear H.
  unfold print_Function. cbn [fn_signatures fn_name].
  by rewrite (keeps_text_all _ _ _ _ keeps_text_Signature _ _ _ h h' Hsgs Hnil Hnamed).
Qed.

Lemma keeps_text_template (t t' : option (list TemplateItem)) (s s' : state)
    (h h' : gmap loc Class) :
  Visit_template LookupClasses.visitor t s = (Ok t', s') →
  links_template t = [] →
  Forall (named h') (links_template t') →
  print_template h' t' = print_template h t.
Proof.
  intros H Hnil Hnamed. destruct t as [l|]; simpl in H.
  - apply bind_inv_Ok in H as (l' & s1 & Hl & H). inversion H; subst. clear H.
    cbn [print_template].
    by rewrite (keeps_text_all _ _ _ _ keeps_text_TemplateItem _ _ _ h h' Hl Hnil Hnamed).
  - by inversion H.
Qed.

Lemma keeps_text_Class (c : Class) :
  keeps_text (Visit_Class LookupClasses.visitor) print_Class links_Class c.
Proof.
  intros s y s' h h' H Hnil Hnamed. unfold Visit_Class in H.
  apply bind_inv_Ok in H as (t & s1 & Ht & H).
  apply bind_inv_Ok in H as (ps & s2 & Hps & H).
  apply bind_inv_Ok in H as (cs & s3 & Hcs & H).
  apply bind_inv_Ok in H as (ms & s4 & Hms & H).
  apply bind_inv_Ok in H as (o & s5 & _ & H).
  inversion H; subst. clear H.
  unfold links_Class in Hnil, Hnamed.
  cbn [cls_template cls_parents cls_constants cls_methods] in Hnamed.
  apply app_eq_nil in Hnil as [Hn1 Hnil]. apply app_eq_nil in Hnil as [Hn2 Hnil].
  apply app_eq_nil in Hnil as [Hn3 Hn4].
  apply Forall_app in Hnamed as [Hm1 Hnamed].
  apply Forall_app in Hnamed as [Hm2 Hnamed].
  apply Forall_app in Hnamed as [Hm3 Hm4].
  unfold print_Class.
  cbn [cls_template cls_parents cls_constants cls_methods cls_name].
  rewrite (keeps_text_template _ _ _ _ h h' Ht Hn1 Hm1).
  rewrite (keeps_text_all _ _ _ _ keeps_text_type _ _ _ h h' Hps Hn2 Hm2).
  rewrite (keeps_text_all _ _ _ _ keeps_text_Constant _ _ _ h h' Hcs Hn3 Hm3).
  by rewrite (keeps_text_all _ _ _ _ keeps_text_Function _ _ _ h h' Hms Hn4 Hm4).
Qed.

(** X4.  Resolution does not change what is printed.  When [LookupClasses]
    completes on a module whose references are all NamedTypes, the module
    it returns is printed, with the links it has filled in, exactly as the
    module it was given. *)
Theorem resolution_keeps_text (m unit : TypeDeclUnit) (s s' : state)
    (h : gmap loc Class) :
  links_TypeDeclUnit m = [] →
  Visit_TypeDeclUnit LookupClasses.visitor m s = (Ok (Some unit), s') →
  print_TypeDeclUnit (cells s') unit = print_TypeDeclUnit h m.
Proof.
  intros Hunres H.
  destruct (first_stage_TypeDeclUnit m s) as (unit0 & s1 & Hrun & _ & Hnd & _ & _).
  specialize (Hnd Hunres).
  pose proof H as H'. rewrite Hrun in H'.
  apply LookupClasses_VisitTypeDeclUnit_inv in H' as [Hfill Hr].
  destruct Hr as [[= <-] | (e & [=])]. simpl in Hfill.
  assert (Forall (named (cells s')) (links_TypeDeclUnit unit)) as Hnamed.
  { apply Forall_forall. intros [n c] Hin.
    destruct (fill_cells_linked _ _ _ _ _ _ Hfill Hnd Hin) as (cls & Hl & Hc).
    exists cls. split; [done |]. by apply Lookup_Ok in Hl as [_ ?]. }
  unfold Visit_TypeDeclUnit in H.
  apply bind_inv_Ok in H as (cs & s2 & Hcs & H).
  apply bind_inv_Ok in H as (fs & s3 & Hfs & H).
  apply bind_inv_Ok in H as (cls & s4 & Hcls & H).
  unfold Visit_TypeDeclUnit in Hrun.
  erewrite bind_Ok in Hrun by exact Hcs. erewrite bind_Ok in Hrun by exact Hfs.
  erewrite bind_Ok in Hrun by exact Hcls.
  rewrite H in Hrun.
  destruct (LookupClasses.VisitTypeDeclUnit unit s1) as [r0 s0] eqn:Hh0.
  inversion Hrun; subst r0 s0. clear Hrun.
  assert (unit = {| unit_constants := cs; unit_functions := fs;
                     unit_classes := cls |}) as ->.
  { apply LookupClasses_VisitTypeDeclUnit_inv in H as [_ [[= ->] | (e & [=])]].
    done. }
  unfold links_TypeDeclUnit in Hunres, Hnamed.
  cbn [unit_constants unit_functions unit_classes] in Hnamed.
  apply app_eq_nil in Hunres as [Hn1 Hnil]. apply app_eq_nil in Hnil as [Hn2 Hn3].
  apply Forall_app in Hnamed as [Hm1 Hnamed].
  apply Forall_app in Hnamed as [Hm2 Hm3].
  unfold print_TypeDeclUnit. cbn [unit_constants unit_functions unit_classes].
  rewrite (keeps_text_all _ _ _ _ keeps_text_Constant _ _ _ h _ Hcs Hn1 Hm1).
  rewrite (keeps_text_all _ _ _ _ keeps_text_Function _ _ _ h _ Hfs Hn2 Hm2).
  by rewrite (keeps_text_all _ _ _ _ keeps_text_Class _ _ _ h _ Hcls Hn3 Hm3).
Qed.

Lemma resolution_keeps_text_witness :
  print_TypeDeclUnit (cells state_AB_resolved) module_AB_resolved
    = print_TypeDeclUnit ∅ module_AB.
Proof.
  apply (resolution_keeps_text module_AB module_AB_resolved initial_state
           state_AB_resolved ∅).
  - reflexivity.
  - vm_compute. reflexivity.
Defined.

(** ** What a traversal returns *)

Lemma mapM_Forall_out {A B} (f : A → M B) (P : B → Prop) (l : list A)
    (s s' : state) (l' : list B) :
  Forall (λ x, ∀ s y s', f x s = (Ok y, s') → P y) l →
  mapM f l s = (Ok l', s') → Forall P l'.
Proof.
  intros Hf. revert s l'. induction Hf as [|x l Hx _ IH]; intros s l' H.
  - inversion H. constructor.
  - rewrite mapM_cons in H.
    apply bind_inv_Ok in H as (y & s1 & Hy & H).
    apply bind_inv_Ok in H as (ys & s2 & Hys & H).
    inversion H; subst. constructor; [by eapply Hx | by eapply IH].
Qed.

Lemma mapM_Forall_concat {A B C} (f : A → M B) (g : B → list C) (P : C → Prop)
    (l : list A) (s s' : state) (l' : list B) :
  (∀ x s y s', f x s = (Ok y, s') → Forall P (g y)) →
  mapM f l s = (Ok l', s') → Forall P (concat (map g l')).
Proof.
  intros Hf H.
  assert (Forall (λ y, Forall P (g y)) l') as Hall.
  { eapply mapM_Forall_out; [| exact H]. apply Forall_forall. intros x _. apply Hf. }
  clear H. induction Hall as [|y l' Hy _ IH]; [constructor |].
  cbn [map concat]. apply Forall_app. by split.
Qed.

Section Outputs.

Variable P : pytd_type → Prop.
Variable v : Visitor.

Hypothesis P_NativeType : ∀ n, P (NativeType n).
Hypothesis P_UnionType : ∀ ts, Forall P ts → P (UnionType ts).
Hypothesis P_IntersectionType : ∀ ts, Forall P ts → P (IntersectionType ts).
Hypothesis v_BasicType : ∀ n s r s', VisitBasicType v n s = (Ok r, s') → P r.
Hypothesis v_ClassType : ∀ n c s r s', VisitClassType v n c s = (Ok r, s') → P r.
Hypothesis v_HomogeneousContainerType :
  ∀ b e s r s', P b → P e →
    VisitHomogeneousContainerType v b e s = (Ok r, s') → P r.
Hypothesis v_GenericType :
  ∀ b ps s r s', P b → Forall P ps → VisitGenericType v b ps s = (Ok r, s') → P r.
Hypothesis v_Class : ∀ c, VisitClass v c = default_Class c.

Lemma Visit_type_out (t t' : pytd_type) (s s' : state) :
  Visit_type v t s = (Ok t', s') → P t'.
Proof using P_NativeType P_UnionType P_IntersectionType v_BasicType v_ClassType
  v_HomogeneousContainerType v_GenericType.
  revert t' s s'.
  induction t as [n|n|n c|b e IHb IHe|b ps IHb IHps|ts IHts|ts IHts]
    using pytd_type_nested_ind; intros t' s s' H; cbn [Visit_type] in H.
  - by eapply v_BasicType.
  - inversion H. apply P_NativeType.
  - by eapply v_ClassType.
  - apply bind_inv_Ok in H as (b' & s1 & Hb & H).
    apply bind_inv_Ok in H as (e' & s2 & He & H).
    eapply v_HomogeneousContainerType; [by eapply IHb | by eapply IHe | exact H].
  - apply bind_inv_Ok in H as (b' & s1 & Hb & H).
    apply bind_inv_Ok in H as (ps' & s2 & Hps & H).
    eapply v_GenericType; [by eapply IHb | | exact H].
    eapply mapM_Forall_out; [| exact Hps].
    eapply Forall_impl; [exact IHps |]. intros x Hx s3 y s4. apply Hx.
  - apply bind_inv_Ok in H as (ts' & s1 & Hts & H). inversion H.
    apply P_UnionType. eapply mapM_Forall_out; [| exact Hts].
    eapply Forall_impl; [exact IHts |]. intros x Hx s3 y s4. apply Hx.
  - apply bind_inv_Ok in H as (ts' & s1 & Hts & H). inversion H.
    apply P_IntersectionType. eapply mapM_Forall_out; [| exact Hts].
    eapply Forall_impl; [exact IHts |]. intros x Hx s3 y s4. apply Hx.
Qed.

Lemma Visit_types_out (l l' : list pytd_type) (s s' : state) :
  mapM (Visit_type v) l s = (Ok l', s') → Forall P l'.
Proof using P_NativeType P_UnionType P_IntersectionType v_BasicType v_ClassType
  v_HomogeneousContainerType v_GenericType.
  apply mapM_Forall_out, Forall_forall. intros t _ s1 y s2. apply Visit_type_out.
Qed.

Lemma Visit_Constant_out (c c' : Constant) (s s' : state) :
  Visit_Constant v c s = (Ok c', s') → Forall P (types_Constant c').
Proof using P_NativeType P_UnionType P_IntersectionType v_BasicType v_ClassType
  v_HomogeneousContainerType v_GenericType.
  intros H. unfold Visit_Constant in H.
  apply bind_inv_Ok in H as (t & s1 & Ht & H). inversion H; subst.
  apply Forall_singleton. by eapply Visit_type_out.
Qed.

Lemma Visit_Parameter_out (p p' : Param) (s s' : state) :
  Visit_Parameter v p s = (Ok p', s') → Forall P (types_Parameter p').
Proof using P_NativeType P_UnionType P_IntersectionType v_BasicType v_ClassType
  v_HomogeneousContainerType v_GenericType.
  intros H. unfold Visit_Parameter in H.
  apply bind_inv_Ok in H as (t & s1 & Ht & H). inversion H; subst.
  apply Forall_singleton. by eapply Visit_type_out.
Qed.

Lemma Visit_Signature_out (sg sg' : Signature) (s s' : state) :
  Visit_Signature v sg s = (Ok sg', s') → Forall P (types_Signature sg').
Proof using P_NativeType P_UnionType P_IntersectionType v_BasicType v_ClassType
  v_HomogeneousContainerType v_GenericType.
  intros H. unfold Visit_Signature in H.
  apply bind_inv_Ok in H as (ps & s1 & Hps & H).
  apply bind_inv_Ok in H as (r & s2 & Hr & H).
  apply bind_inv_Ok in H as (es & s3 & Hes & H).
  inversion H; subst. unfold types_Signature.
  cbn [sig_params sig_return_type sig_exceptions].
  apply Forall_app. split.
  { eapply mapM_Forall_concat; [| exact Hps].
    intros x s4 y s5. apply Visit_Parameter_out. }
  apply Forall_app. split.
  - apply Forall_singleton. by eapply Visit_type_out.
  - by eapply Visit_types_out.
Qed.

Lemma Visit_Function_out (f f' : Function) (s s' : state) :
  Visit_Function v f s = (Ok f', s') → Forall P (types_Function f').
Proof using P_NativeType P_UnionType P_IntersectionType v_BasicType v_ClassType
  v_HomogeneousContainerType v_GenericType.
  intros H. unfold Visit_Function in H.
  apply bind_inv_Ok in H as (sgs & s1 & Hsgs & H). inversion H; subst.
  unfold types_Function. cbn [fn_signatures].
  eapply mapM_Forall_concat; [| exact Hsgs].
  intros x s4 y s5. apply Visit_Signature_out.
Qed.

Lemma Visit_template_out (t t' : option (list TemplateItem)) (s s' : state) :
  Visit_template v t s = (Ok t', s') → Forall P (types_template t').
Proof using P_NativeType P_UnionType P_IntersectionType v_BasicType v_ClassType
  v_HomogeneousContainerType v_GenericType.
  intros H. destruct t as [l|]; simpl in H.
  - apply bind_inv_Ok in H as (l' & s1 & Hl & H). inversion H; subst.
    cbn [types_template]. eapply mapM_Forall_concat; [| exact Hl].
    intros x s4 y s5 Hx. unfold Visit_TemplateItem in Hx.
    apply bind_inv_Ok in Hx as (w & s6 & Hw & Hx). inversion Hx; subst.
    apply Forall_singleton. by eapply Visit_type_out.
  - inversion H. constructor.
Qed.

Lemma Visit_Class_out (c c' : Class) (s s' : state) :
  Visit_Class v c s = (Ok c', s') → Forall P (types_Class c').
Proof using All.
  intros H. unfold Visit_Class in H.
  apply bind_inv_Ok in H as (t & s1 & Ht & H).
  apply bind_inv_Ok in H as (ps & s2 & Hps & H).
  apply bind_inv_Ok in H as (cs & s3 & Hcs & H).
  apply bind_inv_Ok in H as (ms & s4 & Hms & H).
  apply bind_inv_Ok in H as (o & s5 & _ & H).
  rewrite v_Class in H. inversion H; subst. unfold types_Class.
  cbn [cls_template cls_parents cls_constants cls_methods].
  apply Forall_app. split; [by eapply Visit_template_out |].
  apply Forall_app. split; [by eapply Visit_types_out |].
  apply Forall_app. split.
  - eapply mapM_Forall_concat; [| exact Hcs].
    intros x s6 y s7. apply Visit_Constant_out.
  - eapply mapM_Forall_concat; [| exact Hms].
    intros x s6 y s7. apply Visit_Function_out.
Qed.

(** The module the handler for modules is called with. *)
Lemma Visit_TypeDeclUnit_out (u : TypeDeclUnit) (s s' : state)
    (r : result (option TypeDeclUnit)) :
  Visit_TypeDeclUnit v u s = (r, s') →
  (∃ e, r = Raise e) ∨
  ∃ u1 s1,
    VisitTypeDeclUnit v u1 s1 = (r, s') ∧
    Forall P (types_TypeDeclUnit u1) ∧
    Forall (λ c, Forall P (types_Class c)) (unit_classes u1).
Proof using All.
  intros H. unfold Visit_TypeDeclUnit in H.
  apply bind_inv in H as [(cs & s1 & Hcs & H) | (e & _ & ->)]; [| left; by eexists].
  apply bind_inv in H as [(fs & s2 & Hfs & H) | (e & _ & ->)]; [| left; by eexists].
  apply bind_inv in H as [(cls & s3 & Hcls & H) | (e & _ & ->)]; [| left; by eexists].
  right. eexists _, _. split; [exact H |].
  assert (Forall (λ c, Forall P (types_Class c)) cls) as Hc.
  { eapply mapM_Forall_out; [| exact Hcls].
    apply Forall_forall. intros x _ s4 y s5. apply Visit_Class_out. }
  split; [| done]. unfold types_TypeDeclUnit.
  cbn [unit_constants unit_functions unit_classes].
  apply Forall_app. split.
  { eapply mapM_Forall_concat; [| exact Hcs].
    intros x s6 y s7. apply Visit_Constant_out. }
  apply Forall_app. split.
  - eapply mapM_Forall_concat; [| exact Hfs].
    intros x s6 y s7. apply Visit_Function_out.
  - clear -Hc. induction Hc as [|c l Hx _ IH]; [constructor |].
    cbn [map concat]. apply Forall_app. by split.
Qed.

End Outputs.

Lemma existsb_false_Forall {A} (f : A → bool) (l : list A) :
  Forall (λ x, f x = false) l → existsb f l = false.
Proof. induction 1 as [|x l Hx _ IH]; [done |]. simpl. by rewrite Hx, IH. Qed.

Lemma fill_cells_keeps (u : TypeDeclUnit) (l : list (string * loc))
    (h h' : gmap loc Class) (r : result unit) (c : loc) :
  fill_cells u l h = (r, h') →
  (∃ cls, h !! c = Some cls ∧ cls ∈ unit_classes u) →
  ∃ cls, h' !! c = Some cls ∧ cls ∈ unit_classes u.
Proof.
  revert h. induction l as [|[n0 c0] l IH]; intros h H Hc.
  - by inversion H; subst.
  - cbn [fill_cells] in H. destruct (Lookup u n0) as [cls0|e] eqn:Hl.
    + eapply IH; [exact H |]. destruct (decide (c0 = c)) as [->|Hne].
      * exists cls0. rewrite lookup_insert_eq. split; [done |].
        by apply Lookup_Ok in Hl as [? _].
      * by rewrite lookup_insert_ne.
    + by inversion H; subst.
Qed.

Lemma fill_cells_filled (u : TypeDeclUnit) (l : list (string * loc))
    (h h' : gmap loc Class) (n : string) (c : loc) :
  fill_cells u l h = (Ok tt, h') →
  (n, c) ∈ l →
  ∃ cls, h' !! c = Some cls ∧ cls ∈ unit_classes u.
Proof.
  revert h. induction l as [|[n0 c0] l IH]; intros h H Hin.
  - by apply elem_of_nil in Hin.
  - cbn [fill_cells] in H. destruct (Lookup u n0) as [cls0|e] eqn:Hl; [| done].
    apply elem_of_cons in Hin as [[= -> ->] | Hin].
    + eapply fill_cells_keeps; [exact H |]. exists cls0.
      rewrite lookup_insert_eq. split; [done |]. by apply Lookup_Ok in Hl as [? _].
    + by eapply IH.
Qed.

(** X5.  A module returned by [LookupClasses] only uses ClassReferences: no
    NamedType node is left anywhere in it, and the cell of every
    ClassReference holds a class of the returned module, whatever the
    module looked like before. *)
Theorem LookupClasses_only_ClassType (m unit : TypeDeclUnit) (s s' : state) :
  Visit_TypeDeclUnit LookupClasses.visitor m s = (Ok (Some unit), s') →
  Forall (λ t, has_BasicType t = false) (types_TypeDeclUnit unit) ∧
  ∀ n c, (n, c) ∈ links_TypeDeclUnit unit →
    ∃ cls, cells s' !! c = Some cls ∧ cls ∈ unit_classes unit.
Proof.
  intros H.
  apply (Visit_TypeDeclUnit_out (λ t, has_BasicType t = false)) in H
    as [(e & [=]) | (u1 & s1 & H & Hall & _)].
  - apply LookupClasses_VisitTypeDeclUnit_inv in H as [Hfill [[= ->] | (e & [=])]].
    split; [done |]. intros n c Hin. by eapply fill_cells_filled.
  - done.
  - intros ts Hts. by apply existsb_false_Forall.
  - intros ts Hts. by apply existsb_false_Forall.
  - intros n s2 r s3 Hr. by inversion Hr.
  - intros n c s2 r s3 Hr. by inversion Hr.
  - intros b e s2 r s3 Hb He Hr. inversion Hr. simpl. by rewrite Hb, He.
  - intros b ps s2 r s3 Hb Hps Hr. inversion Hr. simpl.
    by rewrite Hb, existsb_false_Forall.
  - done.
Qed.

Lemma LookupClasses_only_ClassType_witness :
  Forall (λ t, has_BasicType t = false) (types_TypeDeclUnit module_AB_resolved) ∧
  ∀ n c, (n, c) ∈ links_TypeDeclUnit module_AB_resolved →
    ∃ cls, cells state_AB_resolved !! c = Some cls ∧
           cls ∈ unit_classes module_AB_resolved.
Proof.
  apply (LookupClasses_only_ClassType module_AB module_AB_resolved initial_state
           state_AB_resolved).
  vm_compute. reflexivity.
Defined.



(** ** [FillInClasses] on its own *)

Lemma fill_cells_agree (u : TypeDeclUnit) (l : list (string * loc))
    (h1 h2 h' : gmap loc Class) :
  fill_cells u l h1 = (Ok tt, h') →
  (∀ c, c ∉ map snd l → h1 !! c = h2 !! c) →
  fill_cells u l h2 = (Ok tt, h').
Proof.
  revert h1 h2. induction l as [|[n0 c0] l IH]; intros h1 h2 H Hagree.
  - inversion H; subst. cbn [fill_cells]. f_equal. apply map_eq. intros c.
    symmetry. apply Hagree. apply not_elem_of_nil.
  - cbn [fill_cells] in *. destruct (Lookup u n0) as [cls0|e]; [| done].
    eapply IH; [exact H |]. intros c Hc.
    destruct (decide (c0 = c)) as [->|Hne].
    + by rewrite !lookup_insert_eq.
    + rewrite !lookup_insert_ne by done. apply Hagree.
      cbn [map snd]. apply not_elem_of_cons. split; [congruence | done].
Qed.

Lemma fill_cells_idempotent (u : TypeDeclUnit) (l : list (string * loc))
    (h h' : gmap loc Class) :
  fill_cells u l h = (Ok tt, h') → fill_cells u l h' = (Ok tt, h').
Proof.
  intros H. eapply fill_cells_agree; [exact H |].
  intros c Hc. symmetry. by eapply fill_cells_other.
Qed.

Lemma FillInClasses_returns_None (symbol_table u : TypeDeclUnit) (s s' : state)
    (r : option TypeDeclUnit) :
  Visit_TypeDeclUnit (FillInClasses.visitor symbol_table) u s = (Ok r, s') →
  r = None.
Proof.
  intros H. unfold Visit_TypeDeclUnit in H.
  apply bind_inv_Ok in H as (cs & s1 & _ & H).
  apply bind_inv_Ok in H as (fs & s2 & _ & H).
  apply bind_inv_Ok in H as (cls & s3 & _ & H).
  by inversion H.
Qed.

(** X7.  A completed visit of a module with [FillInClasses] returns [None],
    not a module.  It leaves every cell alone that does not belong to a
    ClassReference of the module, and doing it again with the same symbol
    table completes as well and changes no cell: a link that has been
    filled in stays what it is. *)
Theorem FillInClasses_in_place (symbol_table u : TypeDeclUnit) (s s1 : state)
    (r : option TypeDeclUnit) :
  Visit_TypeDeclUnit (FillInClasses.visitor symbol_table) u s = (Ok r, s1) →
  r = None ∧
  (∀ c, c ∉ map snd (links_TypeDeclUnit u) → cells s1 !! c = cells s !! c) ∧
  ∃ s2,
    Visit_TypeDeclUnit (FillInClasses.visitor symbol_table) u s1 = (Ok None, s2) ∧
    cells s2 = cells s1.
Proof.
  intros H. pose proof (fills_TypeDeclUnit symbol_table u _ _ _ H) as Hfill.
  simpl in Hfill. split; [by eapply FillInClasses_returns_None |]. split.
  { intros c Hc. by eapply fill_cells_other. }
  destruct (Visit_TypeDeclUnit (FillInClasses.visitor symbol_table) u s1)
    as [r2 s2] eqn:H2.
  pose proof (fills_TypeDeclUnit symbol_table u _ _ _ H2) as Hfill2.
  rewrite (fill_cells_idempotent _ _ _ _ Hfill) in Hfill2.
  destruct r2 as [r2|e]; [| discriminate]. inversion Hfill2 as [Hcells].
  exists s2. split; [| done].
  by rewrite (FillInClasses_returns_None _ _ _ _ _ H2).
Qed.

Lemma FillInClasses_in_place_witness :
  @None TypeDeclUnit = None ∧
  (∀ c, c ∉ map snd (links_TypeDeclUnit module_AB_resolved) →
     cells state_AB_filled !! c = cells initial_state !! c) ∧
  ∃ s2,
    Visit_TypeDeclUnit (FillInClasses.visitor module_AB_resolved)
        module_AB_resolved state_AB_filled = (Ok None, s2) ∧
    cells s2 = cells state_AB_filled.
Proof.
  apply (FillInClasses_in_place module_AB_resolved module_AB_resolved
           initial_state state_AB_filled None).
  vm_compute. reflexivity.
Defined.

(** ** [StripSelf] on a module *)

Lemma Visit_classes_StripSelf (l : list Class) (s : state) :
  ∃ l' s',
    mapM (Visit_Class StripSelf.visitor) l s = (Ok l', s') ∧
    cells s' = cells s ∧
    instantiated_classes s' = instantiated_classes s ∧
    Forall2 (λ c c',
               cls_name c' = cls_name c ∧ cls_template c' = cls_template c ∧
               cls_parents c' = cls_parents c ∧
               cls_constants c' = cls_constants c ∧
               cls_methods c' = map StripSelf._StripFunction (cls_methods c)) l l'.
Proof.
  revert s. induction l as [|c l IH]; intros s.
  - exists [], s. by repeat split.
  - destruct (IH (allocate 2 s)) as (l' & s' & Hl & Hc & Hd & Hshape).
    eexists (_ :: l'), s'. split.
    { rewrite mapM_cons. erewrite bind_Ok by apply Visit_Class_StripSelf.
      erewrite bind_Ok by exact Hl. reflexivity. }
    split; [done |]. split; [done |]. by constructor.
Qed.

(** X8.  [StripSelf] on a whole module always completes.  It leaves the
    constants and the functions of the module as they are, parameters
    included: only the methods of the classes lose their leading parameter,
    and nothing else of a class changes.  The links and the dictionary of
    instantiated classes are not touched. *)
Theorem StripSelf_only_methods (u : TypeDeclUnit) (s : state) :
  ∃ u' s',
    Visit_TypeDeclUnit StripSelf.visitor u s = (Ok (Some u'), s') ∧
    unit_constants u' = unit_constants u ∧
    unit_functions u' = unit_functions u ∧
    Forall2 (λ c c',
               cls_name c' = cls_name c ∧ cls_template c' = cls_template c ∧
               cls_parents c' = cls_parents c ∧
               cls_constants c' = cls_constants c ∧
               cls_methods c' = map StripSelf._StripFunction (cls_methods c))
      (unit_classes u) (unit_classes u') ∧
    cells s' = cells s ∧
    instantiated_classes s' = instantiated_classes s.
Proof.
  destruct (Visit_classes_StripSelf (unit_classes u) s)
    as (cls & s' & Hcls & Hc & Hd & Hshape).
  eexists _, s'. split.
  { unfold Visit_TypeDeclUnit.
    erewrite bind_Ok by by apply Visit_constants_rebuild.
    erewrite bind_Ok by by apply Visit_functions_rebuild.
    erewrite bind_Ok by exact Hcls. reflexivity. }
  done.
Qed.

(** ** Lines *)

Lemma append_nil_r (s : string) : s +:+ "" = s.
Proof.
  induction s as [|c s IH]; [done |].
  change (String c (s +:+ "") = String c s). by rewrite IH.
Qed.

Lemma no_line_break_app (a b : string) :
  no_line_break (a +:+ b) = no_line_break a && no_line_break b.
Proof.
  induction a as [|c a IH]; [done |].
  change (no_line_break (String c (a +:+ b))
          = no_line_break (String c a) && no_line_break b).
  cbn [no_line_break]. rewrite IH. by rewrite !andb_assoc.
Qed.

Lemma splitlines_from_line (cur a rest : string) :
  no_line_break a = true →
  splitlines_from cur (a +:+ rest) = splitlines_from (cur +:+ a) rest.
Proof.
  revert cur. induction a as [|c a IH]; intros cur Ha.
  - by rewrite append_nil_r.
  - cbn [no_line_break] in Ha.
    apply andb_true_iff in Ha as [Hc Ha]. apply andb_true_iff in Hc as [Hlf Hcr].
    apply negb_true_iff, bool_decide_eq_false in Hlf.
    apply negb_true_iff, bool_decide_eq_false in Hcr.
    change (splitlines_from cur (String c (a +:+ rest))
            = splitlines_from (cur +:+ String c a) rest).
    cbn [splitlines_from]. rewrite !decide_False by done.
    rewrite IH by done. f_equal. apply append_assoc.
Qed.

Lemma splitlines_join (l : list string) :
  Forall (λ x, no_line_break x = true) l →
  last l ≠ Some "" →
  splitlines (join NL l) = l.
Proof.
  unfold splitlines. induction 1 as [|x l Hx Hl IH]; intros Hlast; [done |].
  destruct l as [|y l].
  - cbn [join]. rewrite <- (append_nil_r x) at 1.
    rewrite splitlines_from_line by done.
    cbn [splitlines_from]. change ("" +:+ x) with x.
    rewrite decide_False; [done |]. intros ->. by apply Hlast.
  - change (join NL (x :: y :: l)) with (x +:+ String LF (join NL (y :: l))).
    rewrite splitlines_from_line by done. change ("" +:+ x) with x.
    cbn [splitlines_from]. rewrite decide_True by done.
    f_equal. by apply IH.
Qed.

(** X9.  What [VisitFunction] joins, [VisitClass] takes apart again: when
    neither the name of a function nor the text of any of its signatures
    holds a line break, splitting the text of the function into lines gives
    back one line per signature, [def], the name and the signature. *)
Theorem splitlines_VisitFunction (name : string) (signatures : list string) :
  no_line_break name = true →
  Forall (λ sg, no_line_break sg = true) signatures →
  splitlines (PrintVisitor.VisitFunction name signatures)
    = map (λ sg, "def " +:+ name +:+ sg) signatures.
Proof.
  intros Hname Hsigs. unfold PrintVisitor.VisitFunction. apply splitlines_join.
  - apply Forall_forall. intros line Hin.
    apply list_elem_of_In, in_map_iff in Hin as (sg & <- & Hin).
    rewrite Forall_forall in Hsigs.
    rewrite !no_line_break_app, Hname, (Hsigs sg) by by apply list_elem_of_In.
    reflexivity.
  - intros Hlast. apply last_Some_elem_of in Hlast.
    apply list_elem_of_In, in_map_iff in Hlast as (sg & Heq & _). discriminate.
Qed.

Lemma splitlines_VisitFunction_witness :
  splitlines (PrintVisitor.VisitFunction "multiply" ["(x: int) -> int"; "(x: float)"])
    = map (λ sg, "def " +:+ "multiply" +:+ sg) ["(x: int) -> int"; "(x: float)"].
Proof.
  apply (splitlines_VisitFunction "multiply" ["(x: int) -> int"; "(x: float)"]).
  - reflexivity.
  - repeat constructor.
Defined.

(** ** [ReplaceType] on a tree that does not mention a key *)

Lemma map_id_Forall {A} (f : A → A) (l : list A) :
  Forall (λ x, f x = x) l → map f l = l.
Proof. induction 1 as [|x l Hx _ IH]; [done |]. simpl. by rewrite Hx, IH. Qed.

Lemma map_id_refs {A} (f : A → A) (refs : A → list string)
    (mapping : gmap string pytd_type) (l : list A) :
  (∀ x, (∀ n, n ∈ refs x → mapping !! n = None) → f x = x) →
  (∀ n, n ∈ concat (map refs l) → mapping !! n = None) →
  map f l = l.
Proof.
  intros Hf Hl. apply map_id_Forall, Forall_forall. intros x Hx. apply Hf.
  intros n Hn. apply Hl. by eapply elem_of_concat_map.
Qed.

Section Unmentioned.

Variable mapping : gmap string pytd_type.

Lemma replace_named_unmentioned (t : pytd_type) :
  (∀ n, n ∈ refs_type t → mapping !! n = None) → replace_named mapping t = t.
Proof.
  induction t as [n|n|n c|b e IHb IHe|b ps IHb IHps|ts IHts|ts IHts]
    using pytd_type_nested_ind; intros H; cbn [replace_named refs_type] in *.
  - rewrite H; [done |]. apply list_elem_of_singleton. done.
  - done.
  - done.
  - rewrite IHb, IHe; [done | |]; intros n Hn; apply H, elem_of_app; auto.
  - rewrite IHb by (intros n Hn; apply H, elem_of_app; auto). f_equal.
    apply map_id_Forall. rewrite Forall_forall in IHps.
    apply Forall_forall. intros p Hp. apply IHps; [done |].
    intros n Hn. apply H, elem_of_app. right. by eapply elem_of_concat_map.
  - f_equal. apply map_id_Forall. rewrite Forall_forall in IHts.
    apply Forall_forall. intros p Hp. apply IHts; [done |].
    intros n Hn. apply H. by eapply elem_of_concat_map.
  - f_equal. apply map_id_Forall. rewrite Forall_forall in IHts.
    apply Forall_forall. intros p Hp. apply IHts; [done |].
    intros n Hn. apply H. by eapply elem_of_concat_map.
Qed.

Lemma replace_in_Constant_unmentioned (c : Constant) :
  (∀ n, n ∈ refs_Constant c → mapping !! n = None) →
  replace_in_Constant mapping c = c.
Proof.
  intros H. unfold replace_in_Constant. rewrite replace_named_unmentioned by done.
  by destruct c.
Qed.

Lemma replace_in_Parameter_unmentioned (p : Param) :
  (∀ n, n ∈ refs_Parameter p → mapping !! n = None) →
  replace_in_Parameter mapping p = p.
Proof.
  intros H. unfold replace_in_Parameter. rewrite replace_named_unmentioned by done.
  by destruct p.
Qed.

Lemma replace_in_Signature_unmentioned (sg : Signature) :
  (∀ n, n ∈ refs_Signature sg → mapping !! n = None) →
  replace_in_Signature mapping sg = sg.
Proof.
  intros H. unfold replace_in_Signature, refs_Signature in *.
  rewrite (map_id_refs _ refs_Parameter mapping).
  - rewrite replace_named_unmentioned.
    + rewrite (map_id_refs _ refs_type mapping); [by destruct sg | |].
      * apply replace_named_unmentioned.
      * intros n Hn. apply H. apply elem_of_app. right. apply elem_of_app. by right.
    + intros n Hn. apply H. apply elem_of_app. right. apply elem_of_app. by left.
  - apply replace_in_Parameter_unmentioned.
  - intros n Hn. apply H. apply elem_of_app. by left.
Qed.

Lemma replace_in_Function_unmentioned (f : Function) :
  (∀ n, n ∈ refs_Function f → mapping !! n = None) →
  replace_in_Function mapping f = f.
Proof.
  intros H. unfold replace_in_Function, refs_Function in *.
  rewrite (map_id_refs _ refs_Signature mapping); [by destruct f | | done].
  apply replace_in_Signature_unmentioned.
Qed.

(** X10.  [ReplaceType] changes nothing it is not told to change.  Every
    type expression that mentions no key of the mapping comes back as it
    is, in whatever state it is visited.  Visiting a class without a
    template whose tree mentions no key builds a class with the very same
    name, parents, constants and methods; it is a new object, built at the
    next free address, so it is not the class that was visited whenever
    that one was built before. *)
Theorem ReplaceType_unmentioned (c : Class) (s : state) :
  cls_template c = None →
  (∀ n, n ∈ refs_Class c → mapping !! n = None) →
  Visit_Class (ReplaceType.visitor mapping) c s =
    (Ok {| cls_oid := next s; cls_name := cls_name c; cls_template := None;
           cls_parents := cls_parents c; cls_constants := cls_constants c;
           cls_methods := cls_methods c |},
     allocate 1 s) ∧
  ((cls_oid c < next s)%nat →
   ∀ c' s', Visit_Class (ReplaceType.visitor mapping) c s = (Ok c', s') →
     cls_oid c' ≠ cls_oid c ∧ (next s < next s')%nat) ∧
  ∀ t s1, (∀ n, n ∈ refs_type t → mapping !! n = None) →
    Visit_type (ReplaceType.visitor mapping) t s1 = (Ok t, s1).
Proof.
  intros Ht H. unfold refs_Class in H. rewrite Ht in H. cbn [refs_template app] in H.
  assert (Visit_Class (ReplaceType.visitor mapping) c s =
            (Ok {| cls_oid := next s; cls_name := cls_name c; cls_template := None;
                   cls_parents := cls_parents c; cls_constants := cls_constants c;
                   cls_methods := cls_methods c |},
             allocate 1 s)) as Hrun.
  { rewrite Visit_Class_ReplaceType by done. unfold instantiated_class. do 2 f_equal.
    rewrite (map_id_refs _ refs_type mapping).
    + rewrite (map_id_refs _ refs_Constant mapping).
      * rewrite (map_id_refs _ refs_Function mapping); [done | |].
        -- apply replace_in_Function_unmentioned.
        -- intros n Hn. apply H. apply elem_of_app. right. apply elem_of_app. by right.
      * apply replace_in_Constant_unmentioned.
      * intros n Hn. apply H. apply elem_of_app. right. apply elem_of_app. by left.
    + apply replace_named_unmentioned.
    + intros n Hn. apply H. apply elem_of_app. by left. }
  split; [exact Hrun |]. split.
  - intros Hold c' s' Hc'. rewrite Hrun in Hc'. inversion Hc'; subst c' s'.
    cbn [cls_oid allocate next]. lia.
  - intros t s1 Hn. rewrite Visit_type_ReplaceType.
    by rewrite replace_named_unmentioned.
Qed.

End Unmentioned.

Lemma ReplaceType_unmentioned_witness :
  Visit_Class (ReplaceType.visitor {["T" := BasicType "int"]}) class_A
      state_AB_resolved =
    (Ok {| cls_oid := next state_AB_resolved; cls_name := cls_name class_A;
           cls_template := None; cls_parents := cls_parents class_A;
           cls_constants := cls_constants class_A;
           cls_methods := cls_methods class_A |},
     allocate 1 state_AB_resolved) ∧
  ((cls_oid class_A < next state_AB_resolved)%nat →
   ∀ c' s', Visit_Class (ReplaceType.visitor {["T" := BasicType "int"]}) class_A
              state_AB_resolved = (Ok c', s') →
     cls_oid c' ≠ cls_oid class_A ∧ (next state_AB_resolved < next s')%nat) ∧
  ∀ t s1,
    (∀ n, n ∈ refs_type t →
       ({["T" := BasicType "int"]} : gmap string pytd_type) !! n = None) →
    Visit_type (ReplaceType.visitor {["T" := BasicType "int"]}) t s1 = (Ok t, s1).
Proof.
  apply (ReplaceType_unmentioned {["T" := BasicType "int"]} class_A
           state_AB_resolved).
  - reflexivity.
  - intros n Hn. vm_compute in Hn. apply list_elem_of_singleton in Hn as ->.
    reflexivity.
Defined.

(** ** [InstantiateTemplates]: outcomes and provenance *)

(** X11.  What the handler of [InstantiateTemplates] for a container type
    over a named base does, when the element type can be printed.  A
    canonical name that is in the dictionary is answered from it: the symbol
    table is not consulted, so the base need not be defined.  Otherwise a
    base the symbol table does not know raises the KeyError of [Lookup]
    carrying the name of the base, a class without a template list raises a
    TypeError, and both leave the state, dictionary included, as it was;
    a class with a template list is instantiated and stored. *)
Theorem instantiation_outcomes (symbol_table : TypeDeclUnit) (b : string)
    (e : pytd_type) (et : string) (s : state) :
  print_type (cells s) e = Ok et →
  InstantiateTemplates.VisitHomogeneousContainerType symbol_table (BasicType b) e s =
    match instantiated_classes s !! canonical_name (PrintVisitor.SafeName b) et with
    | Some _ => (Ok (BasicType (canonical_name (PrintVisitor.SafeName b) et)), s)
    | None =>
        match Lookup symbol_table b with
        | Raise _ => (Raise (KeyError b), s)
        | Ok cls =>
            match cls_template cls with
            | None => (Raise TypeError, s)
            | Some tpl =>
                (Ok (BasicType (canonical_name (PrintVisitor.SafeName b) et)),
                 {| cells := cells s; next := 2 + next s;
                    instantiated_classes :=
                      <[canonical_name (PrintVisitor.SafeName b) et :=
                          instantiated_class
                            (canonical_name (PrintVisitor.SafeName b) et)
                            (dict_of (zip (map tmpl_name tpl) [e]))
                            cls (S (next s))]> (instantiated_classes s) |})
            end
        end
    end.
Proof.
  intros He. unfold InstantiateTemplates.VisitHomogeneousContainerType.
  erewrite bind_Ok by reflexivity.
  erewrite bind_Ok by (unfold print; by rewrite He).
  erewrite bind_Ok by reflexivity.
  change (PrintVisitor.VisitBasicType b) with (PrintVisitor.SafeName b).
  fold (canonical_name (PrintVisitor.SafeName b) et).
  destruct (instantiated_classes s !! _) as [c|]; [reflexivity |].
  destruct (Lookup symbol_table b) as [cls|ex] eqn:Hl.
  - destruct (cls_template cls) as [tpl|] eqn:Ht.
    + erewrite bind_Ok.
      2:{ erewrite bind_Ok by (eapply _InstantiateClass_Ok; [exact Hl | exact Ht]).
          erewrite bind_Ok by reflexivity. reflexivity. }
      reflexivity.
    + erewrite bind_Raise; [reflexivity |].
      erewrite bind_Raise; [reflexivity |].
      unfold InstantiateTemplates._InstantiateClass.
      erewrite bind_Ok by reflexivity.
      erewrite bind_Ok by (unfold lift; by rewrite Hl).
      by rewrite Ht.
  - apply Lookup_Raise in Hl as Hex. subst ex.
    erewrite bind_Raise; [reflexivity |].
    erewrite bind_Raise; [reflexivity |].
    unfold InstantiateTemplates._InstantiateClass.
    erewrite bind_Ok by reflexivity.
    erewrite bind_Raise; [reflexivity |].
    unfold lift. by rewrite Hl.
Qed.

Lemma instantiation_outcomes_witness :
  InstantiateTemplates.VisitHomogeneousContainerType module_Box (BasicType "Bag")
      (BasicType "int") initial_state =
    (Raise (KeyError "Bag"), initial_state).
Proof.
  apply (instantiation_outcomes module_Box "Bag" (BasicType "int") "int"
           initial_state).
  reflexivity.
Defined.

Lemma keeps_instantiated_from_refl (symbol_table : TypeDeclUnit) (s : state) :
  keeps_instantiated_from symbol_table s s.
Proof. by split. Qed.

Lemma keeps_instantiated_from_trans (symbol_table : TypeDeclUnit)
    (s1 s2 s3 : state) :
  keeps_instantiated_from symbol_table s1 s2 →
  keeps_instantiated_from symbol_table s2 s3 →
  keeps_instantiated_from symbol_table s1 s3.
Proof.
  intros [Hc1 H1] [Hc2 H2]. split; [congruence |].
  intros H. by apply H2, H1.
Qed.

Lemma keeps_instantiated_from_fresh (symbol_table : TypeDeclUnit) :
  preserves (keeps_instantiated_from symbol_table) fresh.
Proof. intros s r s' H. inversion H; subst. by split. Qed.

Lemma VisitHomogeneousContainerType_instantiated_from (symbol_table : TypeDeclUnit)
    (b e : pytd_type) :
  preserves (keeps_instantiated_from symbol_table)
    (InstantiateTemplates.VisitHomogeneousContainerType symbol_table b e).
Proof.
  intros s r s' H.
  apply VisitHomogeneousContainerType_inv in H
    as [(ex & _ & ->) | (bt & et & Hb & He & _ &
          [(c & _ & ->) | (Hnone & n & cls & tpl & -> & Hl & Ht & ->)])];
    try apply keeps_instantiated_from_refl.
  split; [done |]. intros Hd k c. simpl. rewrite lookup_insert.
  case_decide as Hkey.
  - intros [= <-]. subst k. apply Lookup_Ok in Hl as [Hin Hname].
    exists cls, tpl, e, et, (S (next s)).
    split; [done |]. split; [done |]. split; [done |]. split; [| done].
    cbn in Hb. injection Hb as <-. by rewrite Hname.
  - apply Hd.
Qed.

Lemma InstantiateTemplates_unit_instantiated_from (symbol_table u : TypeDeclUnit) :
  preserves (keeps_instantiated_from symbol_table)
    (Visit_TypeDeclUnit (InstantiateTemplates.visitor symbol_table) u).
Proof.
  apply preserves_Visit_TypeDeclUnit;
    try apply keeps_instantiated_from_refl;
    try apply keeps_instantiated_from_trans;
    try apply keeps_instantiated_from_fresh.
  - intros n s r s' H. inversion H. apply keeps_instantiated_from_refl.
  - intros n c s r s' H. inversion H. apply keeps_instantiated_from_refl.
  - apply VisitHomogeneousContainerType_instantiated_from.
  - intros b ps s r s' H. inversion H. apply keeps_instantiated_from_refl.
  - intros c s r s' H. inversion H. apply keeps_instantiated_from_refl.
  - intros u' s r s' H. inversion H. apply keeps_instantiated_from_refl.
Qed.

(** X12.  Where the classes of the dictionary come from.  However a run of
    [InstantiateTemplates] ends, with a module or with an exception, it has
    not written to the cell of any ClassReference and has taken no address
    back, and every class in its dictionary is a copy of a class of the
    symbol table that has a template list: stored under and named with the
    canonical name of that class and of some element type, without a
    template, and with the template parameters replaced as
    [_InstantiateClass] replaces them.  Nothing else gets into the
    dictionary, whatever it held before the run. *)
Theorem instantiated_classes_provenance (symbol_table unit : TypeDeclUnit)
    (s s' : state) (r : result (option TypeDeclUnit)) :
  InstantiateTemplates.run symbol_table unit s = (r, s') →
  cells s' = cells s ∧ (next s ≤ next s')%nat ∧
  instantiated_from (cells s) symbol_table (instantiated_classes s').
Proof.
  intros H. unfold InstantiateTemplates.run in H.
  erewrite bind_Ok in H by reflexivity.
  pose proof (InstantiateTemplates_unit_grows symbol_table _ _ _ _ H)
    as (Hc & Hn & _).
  apply InstantiateTemplates_unit_instantiated_from in H as [_ Hd].
  split; [done |]. split; [done |].
  rewrite Hc in Hd. apply Hd.
  intros k c Hl. cbn in Hl. by rewrite lookup_empty in Hl.
Qed.

Lemma instantiated_classes_provenance_witness :
  cells state_Box_instantiated = cells initial_state ∧
  (next initial_state ≤ next state_Box_instantiated)%nat ∧
  instantiated_from (cells initial_state) module_Box
    (instantiated_classes state_Box_instantiated).
Proof.
  apply (instantiated_classes_provenance module_Box module_Box initial_state
           state_Box_instantiated (Ok (Some module_Box_instantiated))).
  vm_compute. reflexivity.
Defined.

(** ** [PrintVisitor]: methods without signatures *)

Lemma print_Function_no_signatures (h : gmap loc Class) (l : list Function) :
  Forall (λ f, fn_signatures f = []) l →
  rmap (print_Function h) l = Ok (map (λ _, "") l).
Proof.
  induction 1 as [|f l Hf _ IH]; [done |].
  change (rmap (print_Function h) (f :: l))
    with (let+ y := print_Function h f in
          let+ ys := rmap (print_Function h) l in Ok (y :: ys)).
  unfold print_Function at 1. rewrite Hf, IH. reflexivity.
Qed.

Lemma splitlines_no_text {A} (l : list A) :
  concat (map splitlines (map (λ _, "") l)) = [].
Proof. induction l as [|x l IH]; [done |]. exact IH. Qed.

(** X13.  [VisitClass] writes [pass] only for an empty method list.  A class
    that has methods, none of which has a signature, is printed without any
    method line and without [pass]: after the header come the lines of the
    constants and nothing else, so a class without constants is printed as
    its header line alone.  The same class with its methods removed is
    printed with the same lines followed by the [pass] line. *)
Theorem methods_without_signatures_print_nothing (h : gmap loc Class) (c : Class)
    (t : option (list string)) (ps cs : list string) :
  cls_methods c ≠ [] →
  Forall (λ f, fn_signatures f = []) (cls_methods c) →
  print_template h (cls_template c) = Ok t →
  rmap (print_type h) (cls_parents c) = Ok ps →
  rmap (print_Constant h) (cls_constants c) = Ok cs →
  ∃ header : string,
    print_Class h c =
      Ok (join NL (header :: map (λ m, PrintVisitor.INDENT +:+ m) cs) +:+ NL) ∧
    print_Class h
        {| cls_oid := cls_oid c; cls_name := cls_name c;
           cls_template := cls_template c; cls_parents := cls_parents c;
           cls_constants := cls_constants c; cls_methods := [] |} =
      Ok (join NL (header :: map (λ m, PrintVisitor.INDENT +:+ m) cs)
          +:+ NL +:+ "    pass" +:+ NL).
Proof.
  intros Hne Hall Ht Hps Hcs. eexists. split.
  - unfold print_Class. rewrite Ht, Hps, Hcs, print_Function_no_signatures by done.
    cbn [rbind]. unfold PrintVisitor.VisitClass.
    destruct (decide (map (λ _ : Function, "") (cls_methods c) = [])) as [He|_].
    { by apply map_eq_nil in He. }
    cbv zeta. rewrite splitlines_no_text. cbn [map]. rewrite app_nil_r.
    reflexivity.
  - unfold print_Class. cbn [cls_template cls_parents cls_constants cls_methods
      cls_name]. rewrite Ht, Hps, Hcs.
    cbn [rmap rbind]. unfold PrintVisitor.VisitClass.
    destruct (decide (@nil string = [])) as [_|]; [|done].
    cbv zeta. f_equal.
    rewrite app_assoc, join_snoc by done.
    rewrite !append_assoc. f_equal.
Qed.

Lemma methods_without_signatures_print_nothing_witness :
  ∃ header : string,
    print_Class ∅ class_without_signatures =
      Ok (join NL (header :: map (λ m, PrintVisitor.INDENT +:+ m) []) +:+ NL) ∧
    print_Class ∅
        {| cls_oid := cls_oid class_without_signatures;
           cls_name := cls_name class_without_signatures;
           cls_template := cls_template class_without_signatures;
           cls_parents := cls_parents class_without_signatures;
           cls_constants := cls_constants class_without_signatures;
           cls_methods := [] |} =
      Ok (join NL (header :: map (λ m, PrintVisitor.INDENT +:+ m) [])
          +:+ NL +:+ "    pass" +:+ NL).
Proof.
  apply (methods_without_signatures_print_nothing ∅ class_without_signatures
           None [] []).
  - done.
  - repeat constructor.
  - reflexivity.
  - reflexivity.
  - reflexivity.
Defined.

(** ** The dictionary is keyed by text *)

(** X14.  [InstantiateTemplates] tells container types apart by their
    printed text only.  Once a container type has been handled, then in
    every state the run gets to afterwards, every container type whose base
    and element are printed like its base and element is answered from the
    dictionary: the handler returns the same NamedType and leaves the state
    as it is.  Nothing is instantiated for the second element type, and the
    second base is not looked up, so it need neither be a NamedType nor be
    known to any symbol table. *)
Theorem same_text_same_instantiation (symbol_table symbol_table' : TypeDeclUnit)
    (b1 e1 b2 e2 r : pytd_type) (s s1 s2 : state) :
  InstantiateTemplates.VisitHomogeneousContainerType symbol_table b1 e1 s
    = (Ok r, s1) →
  later symbol_table s1 s2 →
  print_type (cells s) b2 = print_type (cells s) b1 →
  print_type (cells s) e2 = print_type (cells s) e1 →
  InstantiateTemplates.VisitHomogeneousContainerType symbol_table' b2 e2 s2
    = (Ok r, s2).
Proof.
  intros H Hlater Hb2 He2.
  apply VisitHomogeneousContainerType_inv in H
    as [(ex & ? & _) | (bt & et & Hb & He & Hr & Hcases)]; [done |].
  assert (∃ c, instantiated_classes s1 !! canonical_name bt et = Some c ∧
               cells s1 = cells s) as (c & Hc & Hcells).
  { destruct Hcases as [(c & Hc & ->) | (_ & n & cls & tpl & _ & _ & _ & ->)].
    - by exists c.
    - eexists. split; [apply lookup_insert_eq | done]. }
  inversion Hr; subst r.
  pose proof (later_grows _ _ _ Hlater) as (Hcells2 & _ & Hsub).
  apply (VisitHomogeneousContainerType_hit _ _ _ _ _ c).
  - by rewrite Hcells2, Hcells, Hb2.
  - by rewrite Hcells2, Hcells, He2.
  - by eapply lookup_weaken.
Qed.

Lemma same_text_same_instantiation_witness :
  InstantiateTemplates.VisitHomogeneousContainerType module_Pair
      (NativeType "Box") (UnionType [BasicType "int"]) state_Box_instantiated
    = (Ok (BasicType "Box<int>"), state_Box_instantiated).
Proof.
  apply (same_text_same_instantiation module_Box module_Pair (BasicType "Box")
           (BasicType "int") (NativeType "Box") (UnionType [BasicType "int"])
           (BasicType "Box<int>") initial_state state_Box_once
           state_Box_instantiated).
  - vm_compute. reflexivity.
  - apply (later_Class _ _ state_Box_once _ Box
             (Visit_Class (InstantiateTemplates.visitor module_Box) Box
                state_Box_once).1); [| vm_compute; reflexivity].
    apply (later_Constant _ _ state_Box_once _
             {| const_name := "y"; const_type := Box_of_int |}
             (Visit_Constant (InstantiateTemplates.visitor module_Box)
                {| const_name := "y"; const_type := Box_of_int |}
                state_Box_once).1); [apply later_refl | vm_compute; reflexivity].
  - reflexivity.
  - reflexivity.
Defined.

(** ** [PrintVisitor]: different types, one text *)

(** X15.  The text of a type does not tell how the type is built.
    [VisitUnionType] and [VisitIntersectionType] write no parentheses, so
    the union of an intersection and the intersection with a union are
    printed alike; a union or an intersection of one member is printed as
    that member; and a generic type with one parameter is printed as the
    container type of the same base and element.  Where printing one of the
    two fails, printing the other fails with the same exception. *)
Theorem print_type_ambiguous (h : gmap loc Class) (x y z : pytd_type) :
  print_type h (UnionType [IntersectionType [x; y]; z]) =
    print_type h (IntersectionType [x; UnionType [y; z]]) ∧
  print_type h (UnionType [x]) = print_type h x ∧
  print_type h (IntersectionType [x]) = print_type h x ∧
  print_type h (GenericType x [y]) = print_type h (HomogeneousContainerType x y).
Proof.
  split; [| split; [| split]].
  - cbn [print_type rmap].
    destruct (print_type h x) as [x'|ex]; [| reflexivity].
    destruct (print_type h y) as [y'|ey]; [| reflexivity].
    destruct (print_type h z) as [z'|ez]; [| reflexivity].
    cbn [rbind]. f_equal.
    unfold PrintVisitor.VisitUnionType, PrintVisitor.VisitIntersectionType.
    cbn [join]. by rewrite !append_assoc.
  - cbn [print_type rmap].
    by destruct (print_type h x) as [x'|ex].
  - cbn [print_type rmap].
    by destruct (print_type h x) as [x'|ex].
  - cbn [print_type rmap].
    destruct (print_type h x) as [x'|ex]; [| reflexivity].
    by destruct (print_type h y) as [y'|ey].
Qed.

(** ** Container types inside a generic class *)









(** ** [FillInClasses]: a failure is not undone *)

Lemma fill_cells_Raise (u : TypeDeclUnit) (l : list (string * loc))
    (h h' : gmap loc Class) (e : exception) :
  fill_cells u l h = (Raise e, h') →
  ∃ (pre post : list (string * loc)) (n : string) (c : loc),
    l = pre ++ (n, c) :: post ∧
    Lookup u n = Raise e ∧
    Forall (defined u) (map fst pre) ∧
    fill_cells u pre h = (Ok tt, h').
Proof.
  revert h. induction l as [|[n0 c0] l IH]; intros h H; [done |].
  cbn [fill_cells] in H. destruct (Lookup u n0) as [cls0|e0] eqn:Hl.
  - apply IH in H as (pre & post & n & c & -> & Hn & Hpre & Hfill).
    exists ((n0, c0) :: pre), post, n, c. split; [done |]. split; [done |]. split.
    + cbn [map fst]. apply Forall_cons. split; [by exists cls0 | done].
    + cbn [fill_cells]. by rewrite Hl.
  - inversion H; subst. by exists [], l, n0, c0.
Qed.

(** X17.  [FillInClasses] works in place and takes nothing back.  When a
    visit of a tree ends in an exception, that is the KeyError of [Lookup]
    for the name of a ClassReference of the tree the symbol table has no
    class for; the cells of all ClassReferences the traversal met before it
    have been filled in and stay so, and no other cell has been written:
    the tree is left half linked. *)
Theorem FillInClasses_failure_is_partial (symbol_table u : TypeDeclUnit)
    (s s' : state) (e : exception) :
  Visit_TypeDeclUnit (FillInClasses.visitor symbol_table) u s = (Raise e, s') →
  ∃ (pre post : list (string * loc)) (n : string) (c : loc),
    links_TypeDeclUnit u = pre ++ (n, c) :: post ∧
    e = KeyError n ∧
    ¬ defined symbol_table n ∧
    Forall (defined symbol_table) (map fst pre) ∧
    Forall (filled (cells s')) pre ∧
    ∀ c', c' ∉ map snd pre → cells s' !! c' = cells s !! c'.
Proof.
  intros H. pose proof (fills_TypeDeclUnit symbol_table u _ _ _ H) as Hfill.
  cbn [void] in Hfill.
  apply fill_cells_Raise in Hfill as (pre & post & n & c & Hl & Hn & Hpre & Hfill).
  exists pre, post, n, c. split; [done |].
  split; [by apply Lookup_Raise in Hn |].
  split; [intros (cls & Hcls); congruence |].
  split; [done |]. split.
  - apply Forall_forall. intros [n1 c1] Hin.
    destruct (fill_cells_filled _ _ _ _ _ _ Hfill Hin) as (cls & Hcls & _).
    by exists cls.
  - intros c' Hc'. by eapply fill_cells_other.
Qed.

Lemma FillInClasses_failure_is_partial_witness :
  ∃ (pre post : list (string * loc)) (n : string) (c : loc),
    links_TypeDeclUnit module_Foo_linked = pre ++ (n, c) :: post ∧
    KeyError "Foo" = KeyError n ∧
    ¬ defined module_AB n ∧
    Forall (defined module_AB) (map fst pre) ∧
    Forall (filled (cells state_Foo_half_filled)) pre ∧
    ∀ c', c' ∉ map snd pre →
      cells state_Foo_half_filled !! c' = cells initial_state !! c'.
Proof.
  apply (FillInClasses_failure_is_partial module_AB module_Foo_linked
           initial_state state_Foo_half_filled (KeyError "Foo")).
  vm_compute. reflexivity.
Defined.

(** ** Class resolution: when it completes, and what it leaves alone *)

Lemma fill_cells_Ok (u : TypeDeclUnit) (l : list (string * loc))
    (h h' : gmap loc Class) :
  fill_cells u l h = (Ok tt, h') → Forall (defined u) (map fst l).
Proof.
  revert h. induction l as [|[n c] l IH]; intros h H; [constructor |].
  cbn [fill_cells] in H. destruct (Lookup u n) as [cls|e] eqn:Hl; [| done].
  cbn [map fst]. apply Forall_cons. split; [by exists cls | by eapply IH].
Qed.

(** X18.  The resolution of a module completes exactly when the module has
    a class for every name it refers to, by a NamedType or by a
    ClassReference, whatever the state it starts in; and when it completes
    it returns a module, never [None]. *)
Theorem resolution_completes_iff (m : TypeDeclUnit) (s : state) :
  ((∃ unit s', Visit_TypeDeclUnit LookupClasses.visitor m s = (Ok (Some unit), s'))
   ↔ Forall (defined m) (refs_TypeDeclUnit m)) ∧
  ∀ r s', Visit_TypeDeclUnit LookupClasses.visitor m s = (Ok r, s') → is_Some r.
Proof.
  destruct (first_stage_TypeDeclUnit m s)
    as (unit & s1 & Hrun & Hlinks & _ & _ & Hshape).
  assert (∀ x, defined unit x ↔ defined m x) as Hdef.
  { intros x. apply same_names_defined.
    eapply Forall2_impl; [exact Hshape |]. by intros c c' [? _]. }
  rewrite Hrun. split; [split |].
  - intros (unit' & s' & H).
    apply LookupClasses_VisitTypeDeclUnit_inv in H as [Hfill _].
    apply fill_cells_Ok in Hfill. rewrite Hlinks in Hfill.
    eapply Forall_impl; [exact Hfill |]. intros x. apply Hdef.
  - intros Hall.
    destruct (LookupClasses.VisitTypeDeclUnit unit s1) as [r s'] eqn:H.
    apply LookupClasses_VisitTypeDeclUnit_inv in H as [Hfill Hr].
    destruct (fill_cells_defined unit (links_TypeDeclUnit unit) (cells s1))
      as (h' & Hok).
    { rewrite Hlinks. eapply Forall_impl; [exact Hall |]. intros x. apply Hdef. }
    rewrite Hok in Hfill. destruct Hr as [-> | (e & ->)]; [| discriminate].
    by exists unit, s'.
  - intros r s' H.
    apply LookupClasses_VisitTypeDeclUnit_inv in H as [_ [[= ->] | (e & [=])]].
    by eexists.
Qed.

Lemma keeps_dictionary_refl (s : state) : keeps_dictionary s s.
Proof. by split. Qed.

Lemma keeps_dictionary_trans (s1 s2 s3 : state) :
  keeps_dictionary s1 s2 → keeps_dictionary s2 s3 → keeps_dictionary s1 s3.
Proof. intros [Hn1 Hd1] [Hn2 Hd2]. split; [lia | congruence]. Qed.

Lemma keeps_dictionary_fresh : preserves keeps_dictionary fresh.
Proof. intros s r s' H. inversion H; subst. split; [simpl; lia | done]. Qed.

Lemma frame_refl (s : state) : frame s s.
Proof. split; [apply keeps_dictionary_refl | done]. Qed.

Lemma frame_trans (s1 s2 s3 : state) : frame s1 s2 → frame s2 s3 → frame s1 s3.
Proof.
  intros [Hk1 Hc1] [Hk2 Hc2]. split; [by eapply keeps_dictionary_trans |].
  intros c Hc. rewrite Hc2 by (destruct Hk1; lia). by apply Hc1.
Qed.

Lemma frame_fresh : preserves frame fresh.
Proof.
  intros s r s' H. split; [by eapply keeps_dictionary_fresh |].
  by inversion H; subst.
Qed.

Lemma frame_new_ClassType (n : string) : preserves frame (new_ClassType n).
Proof.
  intros s r s' H. inversion H; subst. split; [split; [simpl; lia | done] |].
  intros c Hc. simpl. apply lookup_delete_ne. lia.
Qed.

(** The second stage hands out addresses and writes to cells, nothing
    else. *)
Lemma FillInClasses_keeps_dictionary (symbol_table u : TypeDeclUnit) :
  preserves keeps_dictionary
    (Visit_TypeDeclUnit (FillInClasses.visitor symbol_table) u).
Proof.
  apply preserves_Visit_TypeDeclUnit;
    try apply keeps_dictionary_refl; try apply keeps_dictionary_trans;
    try apply keeps_dictionary_fresh.
  - intros n s r s' H. inversion H. apply keeps_dictionary_refl.
  - intros n c s r s' H. cbn [VisitClassType FillInClasses.visitor] in H.
    unfold FillInClasses.VisitClassType in H.
    apply bind_inv in H as [(cls & s1 & H1 & H2) | (e & H1 & ->)].
    + inversion H1; subst. inversion H2; subst. by split.
    + inversion H1; subst. apply keeps_dictionary_refl.
  - intros b e s r s' H. inversion H. apply keeps_dictionary_refl.
  - intros b ps s r s' H. inversion H. apply keeps_dictionary_refl.
  - intros c s r s' H. inversion H. apply keeps_dictionary_refl.
  - intros u' s r s' H. inversion H. apply keeps_dictionary_refl.
Qed.

(** The first stage of the resolution of a module without ClassReferences:
    the cells of the module it builds are new. *)
Lemma first_stage_TypeDeclUnit_frame (m : TypeDeclUnit) (s : state) :
  links_TypeDeclUnit m = [] →
  ∃ unit s1,
    Visit_TypeDeclUnit LookupClasses.visitor m s =
      LookupClasses.VisitTypeDeclUnit unit s1 ∧
    fresh_in (next s) (next s1) (map snd (links_TypeDeclUnit unit)) ∧
    frame s s1.
Proof.
  intros Hnil. unfold links_TypeDeclUnit in Hnil.
  apply app_eq_nil in Hnil as [Ha Hnil]. apply app_eq_nil in Hnil as [Hb Hc].
  destruct (first_stage_all _ _ _ (unit_constants m) first_stage_Constant s)
    as (cs & s1 & H1 & _ & Hn1 & Hf1).
  destruct (first_stage_all _ _ _ (unit_functions m) first_stage_Function s1)
    as (fs & s2 & H2 & _ & Hn2 & Hf2).
  destruct (first_stage_classes (unit_classes m) s2)
    as (cls & s3 & H3 & _ & Hn3 & Hf3 & _ & _).
  exists {| unit_constants := cs; unit_functions := fs; unit_classes := cls |}, s3.
  split; [| split].
  - unfold Visit_TypeDeclUnit. erewrite bind_Ok by exact H1.
    erewrite bind_Ok by exact H2. by erewrite bind_Ok by exact H3.
  - unfold links_TypeDeclUnit. cbn [unit_constants unit_functions unit_classes].
    rewrite !map_app.
    eapply fresh_in_app; [eauto |]. eapply fresh_in_app; eauto.
  - assert (∀ n, preserves frame (VisitBasicType LookupClasses.visitor n)) as HB.
    { intros n. apply frame_new_ClassType. }
    assert (∀ n c, preserves frame (VisitClassType LookupClasses.visitor n c)) as HC.
    { intros n c s4 r s5 H. inversion H. apply frame_refl. }
    assert (∀ b e, preserves frame
              (VisitHomogeneousContainerType LookupClasses.visitor b e)) as HH.
    { intros b e s4 r s5 H. inversion H. apply frame_refl. }
    assert (∀ b ps, preserves frame
              (VisitGenericType LookupClasses.visitor b ps)) as HG.
    { intros b ps s4 r s5 H. inversion H. apply frame_refl. }
    eapply frame_trans.
    { eapply (preserves_constants frame frame_refl frame_trans
                LookupClasses.visitor HB HC HH HG); exact H1. }
    eapply frame_trans.
    { eapply (preserves_functions frame frame_refl frame_trans
                LookupClasses.visitor HB HC HH HG); exact H2. }
    eapply (preserves_classes frame frame_refl frame_trans frame_fresh
              LookupClasses.visitor HB HC HH HG); [| exact H3].
    intros c s4 r s5 H. inversion H. apply frame_refl.
Qed.

(** X19.  The resolution of a module that has no ClassReference yet only
    works on objects it has built itself.  However it ends, it has taken no
    address back, has left the dictionary of instantiated classes alone and
    has not written to any cell that was there before: what an earlier
    resolution has linked stays linked as it was. *)
Theorem resolution_frame (m : TypeDeclUnit) (s s' : state)
    (r : result (option TypeDeclUnit)) :
  links_TypeDeclUnit m = [] →
  Visit_TypeDeclUnit LookupClasses.visitor m s = (r, s') →
  (next s ≤ next s')%nat ∧
  instantiated_classes s' = instantiated_classes s ∧
  ∀ c, (c < next s)%nat → cells s' !! c = cells s !! c.
Proof.
  intros Hnil H.
  destruct (first_stage_TypeDeclUnit_frame m s Hnil)
    as (unit & s1 & Hrun & (_ & Hfresh & _) & [Hk1 Hc1]).
  rewrite Hrun in H. unfold LookupClasses.VisitTypeDeclUnit in H.
  assert (∃ r2, Visit_TypeDeclUnit (FillInClasses.visitor unit) unit s1 = (r2, s'))
    as (r2 & H2).
  { apply bind_inv in H as [(a & s2 & H1 & H2) | (e & H1 & _)].
    - inversion H2; subst. by eexists.
    - by eexists. }
  pose proof (FillInClasses_keeps_dictionary unit unit _ _ _ H2) as Hk2.
  destruct (keeps_dictionary_trans _ _ _ Hk1 Hk2) as [Hn Hd].
  split; [done |]. split; [done |].
  intros c Hc. rewrite <- Hc1 by done.
  pose proof (fills_TypeDeclUnit unit unit _ _ _ H2) as Hfill.
  eapply fill_cells_other; [exact Hfill |].
  intros Hin. rewrite Forall_forall in Hfresh. apply Hfresh in Hin. lia.
Qed.

Lemma resolution_frame_witness :
  (next state_AB_resolved ≤ next state_AB_again)%nat ∧
  instantiated_classes state_AB_again = instantiated_classes state_AB_resolved ∧
  ∀ c, (c < next state_AB_resolved)%nat →
    cells state_AB_again !! c = cells state_AB_resolved !! c.
Proof.
  apply (resolution_frame module_AB state_AB_resolved state_AB_again
           (Ok (Some module_AB_again))).
  - reflexivity.
  - vm_compute. reflexivity.
Defined.

(** * Runs of [InstantiateTemplates]: what they make of a module *)

Section Instantiates.

Variable h : gmap loc Class.
Variable symbol_table : TypeDeclUnit.

Lemma made_app_l (cs1 cs2 : list (pytd_type * pytd_type)) (k : string) (c : Class) :
  made h symbol_table cs1 k c → made h symbol_table (cs1 ++ cs2) k c.
Proof using All.
  intros (b & e & n & e' & et & cls & tpl & o & Hin & Hrest).
  exists b, e, n, e', et, cls, tpl, o. split; [| done].
  apply elem_of_app. by left.
Qed.

Lemma made_app_r (cs1 cs2 : list (pytd_type * pytd_type)) (k : string) (c : Class) :
  made h symbol_table cs2 k c → made h symbol_table (cs1 ++ cs2) k c.
Proof using All.
  intros (b & e & n & e' & et & cls & tpl & o & Hin & Hrest).
  exists b, e, n, e', et, cls, tpl, o. split; [| done].
  apply elem_of_app. by right.
Qed.

Lemma track_refl (s : state) : cells s = h → track h symbol_table [] s s.
Proof using All.
  intros Hs. split; [done |]. split; [done |]. split; [done |]. split.
  - intros k c Hk. by left.
  - intros b e Hin. by apply elem_of_nil in Hin.
Qed.

Lemma track_app (cs1 cs2 : list (pytd_type * pytd_type)) (s s1 s2 : state) :
  track h symbol_table cs1 s s1 → track h symbol_table cs2 s1 s2 →
  track h symbol_table (cs1 ++ cs2) s s2.
Proof using All.
  intros (Hc1 & Hn1 & Hd1 & Hm1 & Hk1) (Hc2 & Hn2 & Hd2 & Hm2 & Hk2).
  split; [done |]. split; [lia |]. split; [by etrans |]. split.
  - intros k c Hk. destruct (Hm2 k c Hk) as [Hk'|Hmade].
    + destruct (Hm1 k c Hk') as [?|Hmade]; [by left |].
      right. by apply made_app_l.
    + right. by apply made_app_r.
  - intros b e Hin. apply elem_of_app in Hin as [Hin|Hin].
    + destruct (Hk1 b e Hin) as (k & Hkey & [c Hc]). exists k. split; [done |].
      exists c. by eapply lookup_weaken.
    + by apply Hk2.
Qed.

Lemma track_fresh (s s' : state) (o : loc) :
  cells s = h → fresh s = (Ok o, s') → track h symbol_table [] s s'.
Proof using All.
  intros Hs H. injection H as <- <-. split; [done |]. split; [simpl; lia |].
  split; [done |]. split.
  - intros k c Hk. by left.
  - intros b e Hin. by apply elem_of_nil in Hin.
Qed.

Lemma instantiates_ret {A} (a : A) : instantiates h symbol_table (ret a) (Ok a) [].
Proof using All.
  intros s y s' Hs H. injection H as <- <-. split; [done |]. by apply track_refl.
Qed.

Lemma instantiates_bind {A B} (m : M A) (k : A → M B) (d1 : result A)
    (d2 : A → result B) (cs1 cs2 : list (pytd_type * pytd_type)) :
  instantiates h symbol_table m d1 cs1 →
  (∀ a, instantiates h symbol_table (k a) (d2 a) cs2) →
  instantiates h symbol_table (bind m k) (rbind d1 d2) (cs1 ++ cs2).
Proof using All.
  intros Hm Hk s y s' Hs H.
  apply bind_inv_Ok in H as (a & s1 & H1 & H2).
  destruct (Hm s a s1 Hs H1) as [-> Ht1].
  destruct (Hk a s1 y s' (proj1 Ht1) H2) as [Hd Ht2].
  split; [done |]. by eapply track_app.
Qed.

Lemma instantiates_bind_ret {A B} (m : M A) (g : A → B) (d : result A)
    (cs : list (pytd_type * pytd_type)) :
  instantiates h symbol_table m d cs →
  instantiates h symbol_table (bind m (λ a, ret (g a))) (rbind d (λ a, Ok (g a))) cs.
Proof using All.
  intros Hm. rewrite <- (app_nil_r cs). apply instantiates_bind; [done |].
  intros a. apply instantiates_ret.
Qed.

Lemma instantiates_mapM {A} (f : A → M A) (d : A → result A)
    (cs : A → list (pytd_type * pytd_type)) (l : list A) :
  Forall (λ x, instantiates h symbol_table (f x) (d x) (cs x)) l →
  instantiates h symbol_table (mapM f l) (rmap d l) (concat (map cs l)).
Proof using All.
  induction 1 as [|x l Hx _ IH]; [apply instantiates_ret |].
  rewrite mapM_cons, rmap_cons. cbn [map concat].
  apply instantiates_bind; [done |]. intros y.
  by apply instantiates_bind_ret.
Qed.

Lemma instantiates_all {A} (f : A → M A) (d : A → result A)
    (cs : A → list (pytd_type * pytd_type)) (l : list A) :
  (∀ x, instantiates h symbol_table (f x) (d x) (cs x)) →
  instantiates h symbol_table (mapM f l) (rmap d l) (concat (map cs l)).
Proof using All. intros H. apply instantiates_mapM, Forall_forall. intros x _. apply H. Qed.

End Instantiates.

Section InstantiatesTree.

Variable h : gmap loc Class.
Variable symbol_table : TypeDeclUnit.

(** The handler for a container type, called with the visited base and
    element of the container type of [b] and [e]. *)
Lemma instantiates_handler (b e b' e' r : pytd_type) (s0 s1 : state) :
  cells s0 = h →
  inst_type h b = Ok b' →
  inst_type h e = Ok e' →
  InstantiateTemplates.VisitHomogeneousContainerType symbol_table b' e' s0
    = (Ok r, s1) →
  inst_type h (HomogeneousContainerType b e) = Ok r ∧
  track h symbol_table [(b, e)] s0 s1.
Proof using All.
  intros Hs Hb He H.
  apply VisitHomogeneousContainerType_inv in H
    as [(ex & ? & _) | (bt & et & Hbt & Het & Hr & Hcases)]; [done |].
  injection Hr as ->. rewrite Hs in Hbt, Het.
  assert (name_of h b' e' = Ok (canonical_name bt et)) as Hname.
  { unfold name_of. by rewrite Hbt, Het. }
  assert (key_of h b e = Ok (canonical_name bt et)) as Hkey.
  { unfold key_of. by rewrite Hb, He. }
  split.
  { cbn [inst_type]. rewrite Hb, He. cbn [rbind]. by rewrite Hname. }
  destruct Hcases as [(c & Hc & ->) | (Hnone & n & cls & tpl & -> & Hl & Ht & ->)].
  - split; [done |]. split; [done |]. split; [done |]. split.
    + intros k c' Hk. by left.
    + intros b0 e0 Hin. apply list_elem_of_singleton in Hin. injection Hin as -> ->.
      exists (canonical_name bt et). split; [done |]. by exists c.
  - split; [done |]. split; [simpl; lia |].
    split; [by apply insert_subseteq |]. split.
    + intros k c' Hk. cbn [instantiated_classes] in Hk.
      rewrite lookup_insert in Hk. case_decide as Hkk.
      * injection Hk as <-. subst k. right.
        exists b, e, n, e', et, cls, tpl, (S (next s0)).
        split; [by apply list_elem_of_singleton |].
        cbn [print_type] in Hbt. injection Hbt as <-. done.
      * by left.
    + intros b0 e0 Hin. apply list_elem_of_singleton in Hin. injection Hin as -> ->.
      exists (canonical_name bt et). split; [done |].
      cbn [instantiated_classes]. rewrite lookup_insert_eq. by eexists.
Qed.

Lemma instantiates_type (t : pytd_type) :
  instantiates h symbol_table
    (Visit_type (InstantiateTemplates.visitor symbol_table) t)
    (inst_type h t) (containers_type t).
Proof using All.
  induction t as [n|n|n c|b e IHb IHe|b ps IHb IHps|ts IHts|ts IHts]
    using pytd_type_nested_ind.
  - apply instantiates_ret.
  - apply instantiates_ret.
  - apply instantiates_ret.
  - intros s y s' Hs H. cbn [Visit_type] in H.
    apply bind_inv_Ok in H as (b' & s1 & Hb & H).
    apply bind_inv_Ok in H as (e' & s2 & He & H).
    destruct (IHb s b' s1 Hs Hb) as [Hib Htb].
    destruct (IHe s1 e' s2 (proj1 Htb) He) as [Hie Hte].
    destruct (instantiates_handler b e b' e' y s2 s' (proj1 Hte) Hib Hie H)
      as [Hd Hth].
    split; [done |]. cbn [containers_type].
    eapply track_app; [exact Htb |]. by eapply track_app.
  - intros s y s' Hs H. cbn [Visit_type] in H.
    apply bind_inv_Ok in H as (b' & s1 & Hb & H).
    apply bind_inv_Ok in H as (ps' & s2 & Hps & H).
    discriminate H.
  - cbn [Visit_type inst_type containers_type].
    apply (instantiates_bind_ret h symbol_table _ UnionType).
    by apply instantiates_mapM.
  - cbn [Visit_type inst_type containers_type].
    apply (instantiates_bind_ret h symbol_table _ IntersectionType).
    by apply instantiates_mapM.
Qed.

Lemma instantiates_Constant (c : Constant) :
  instantiates h symbol_table
    (Visit_Constant (InstantiateTemplates.visitor symbol_table) c)
    (inst_Constant h c) (containers_Constant c).
Proof using All.
  apply (instantiates_bind_ret h symbol_table _
           (λ t, {| const_name := const_name c; const_type := t |})).
  apply instantiates_type.
Qed.

Lemma instantiates_Parameter (p : Param) :
  instantiates h symbol_table
    (Visit_Parameter (InstantiateTemplates.visitor symbol_table) p)
    (inst_Parameter h p) (containers_Parameter p).
Proof using All.
  apply (instantiates_bind_ret h symbol_table _
           (λ t, {| param_name := param_name p; param_type := t |})).
  apply instantiates_type.
Qed.

Lemma instantiates_TemplateItem (t : TemplateItem) :
  instantiates h symbol_table
    (Visit_TemplateItem (InstantiateTemplates.visitor symbol_table) t)
    (inst_TemplateItem h t) (containers_TemplateItem t).
Proof using All.
  apply (instantiates_bind_ret h symbol_table _
           (λ w, {| tmpl_name := tmpl_name t; tmpl_within_type := w |})).
  apply instantiates_type.
Qed.

Lemma instantiates_Signature (sg : Signature) :
  instantiates h symbol_table
    (Visit_Signature (InstantiateTemplates.visitor symbol_table) sg)
    (inst_Signature h sg) (containers_Signature sg).
Proof using All.
  unfold Visit_Signature, inst_Signature, containers_Signature.
  apply instantiates_bind; [apply instantiates_all, instantiates_Parameter |].
  intros ps. apply instantiates_bind; [apply instantiates_type |].
  intros r.
  apply (instantiates_bind_ret h symbol_table _
           (λ es, {| sig_params := ps; sig_has_optional := sig_has_optional sg;
                     sig_return_type := r; sig_exceptions := es |})).
  apply instantiates_all, instantiates_type.
Qed.

Lemma instantiates_Function (f : Function) :
  instantiates h symbol_table
    (Visit_Function (InstantiateTemplates.visitor symbol_table) f)
    (inst_Function h f) (containers_Function f).
Proof using All.
  apply (instantiates_bind_ret h symbol_table _
           (λ sgs, {| fn_name := fn_name f; fn_signatures := sgs |})).
  apply instantiates_all, instantiates_Signature.
Qed.

Lemma instantiates_template (t : option (list TemplateItem)) :
  instantiates h symbol_table
    (Visit_template (InstantiateTemplates.visitor symbol_table) t)
    (inst_template h t) (containers_template t).
Proof using All.
  destruct t as [l|]; [| apply instantiates_ret].
  apply (instantiates_bind_ret h symbol_table _ Some).
  apply instantiates_all, instantiates_TemplateItem.
Qed.

(** A visited class: it is what [inst_Class] makes of the class, built at
    an address that was free. *)
Lemma instantiates_Class (c c' : Class) (s s' : state) :
  cells s = h →
  Visit_Class (InstantiateTemplates.visitor symbol_table) c s = (Ok c', s') →
  inst_Class h (cls_oid c') c = Ok c' ∧
  (next s ≤ cls_oid c' < next s')%nat ∧
  track h symbol_table (containers_Class c) s s'.
Proof using All.
  intros Hs H. unfold Visit_Class in H.
  apply bind_inv_Ok in H as (t & s1 & H1 & H).
  apply bind_inv_Ok in H as (ps & s2 & H2 & H).
  apply bind_inv_Ok in H as (cs & s3 & H3 & H).
  apply bind_inv_Ok in H as (ms & s4 & H4 & H).
  apply bind_inv_Ok in H as (o & s5 & H5 & H).
  injection H as <- <-.
  destruct (instantiates_template _ _ _ _ Hs H1) as [Hd1 Ht1].
  destruct (instantiates_all h symbol_table _ _ _ (cls_parents c)
              instantiates_type _ _ _ (proj1 Ht1) H2) as [Hd2 Ht2].
  destruct (instantiates_all h symbol_table _ _ _ (cls_constants c)
              instantiates_Constant _ _ _ (proj1 Ht2) H3) as [Hd3 Ht3].
  destruct (instantiates_all h symbol_table _ _ _ (cls_methods c)
              instantiates_Function _ _ _ (proj1 Ht3) H4) as [Hd4 Ht4].
  pose proof (track_fresh h symbol_table _ _ _ (proj1 Ht4) H5) as Ht5.
  split; [| split].
  - unfold inst_Class. rewrite Hd1, Hd2, Hd3, Hd4. reflexivity.
  - cbn [cls_oid]. injection H5 as <- <-. cbn [next].
    destruct Ht1 as (_ & ? & _), Ht2 as (_ & ? & _), Ht3 as (_ & ? & _),
      Ht4 as (_ & ? & _). lia.
  - unfold containers_Class.
    eapply track_app; [exact Ht1 |]. eapply track_app; [exact Ht2 |].
    eapply track_app; [exact Ht3 |].
    rewrite <- (app_nil_r (concat (map containers_Function (cls_methods c)))).
    by eapply track_app.
Qed.

Lemma instantiates_classes (l l' : list Class) (s s' : state) :
  cells s = h →
  mapM (Visit_Class (InstantiateTemplates.visitor symbol_table)) l s = (Ok l', s') →
  Forall2 (λ c c', inst_Class h (cls_oid c') c = Ok c' ∧
                   (next s ≤ cls_oid c' < next s')%nat) l l' ∧
  track h symbol_table (concat (map containers_Class l)) s s'.
Proof using All.
  revert s l'. induction l as [|c l IH]; intros s l' Hs H.
  - injection H as <- <-. split; [constructor | by apply track_refl].
  - rewrite mapM_cons in H.
    apply bind_inv_Ok in H as (c' & s1 & Hc & H).
    apply bind_inv_Ok in H as (cs & s2 & Hl & H). injection H as <- <-.
    destruct (instantiates_Class _ _ _ _ Hs Hc) as (Hd & Ho & Ht).
    destruct (IH _ _ (proj1 Ht) Hl) as [Hall Ht2].
    split; [| by eapply track_app].
    destruct Ht as (_ & Hn1 & _), Ht2 as (_ & Hn2 & _).
    constructor; [split; [done | lia] |].
    eapply Forall2_impl; [exact Hall |]. intros x y [? ?]. split; [done | lia].
Qed.

End InstantiatesTree.

(** ** Trees without container types *)

Lemma rmap_id {A} (f : A → result A) (l : list A) :
  Forall (λ x, f x = Ok x) l → rmap f l = Ok l.
Proof.
  induction 1 as [|x l Hx _ IH]; [done |]. by rewrite rmap_cons, Hx, IH.
Qed.

Lemma existsb_false_elim {A} (f : A → bool) (l : list A) :
  existsb f l = false → Forall (λ x, f x = false) l.
Proof.
  induction l as [|x l IH]; [constructor |]. cbn [existsb].
  intros H. apply orb_false_elim in H as [Hx Hl]. constructor; [done | by apply IH].
Qed.

Lemma inst_type_plain (h : gmap loc Class) (t : pytd_type) :
  has_container t = false → inst_type h t = Ok t.
Proof.
  induction t as [n|n|n c|b e IHb IHe|b ps IHb IHps|ts IHts|ts IHts]
    using pytd_type_nested_ind; cbn [has_container inst_type]; try done.
  - intros H. apply existsb_false_elim in H. rewrite rmap_id; [done |].
    apply Forall_forall. intros t Ht. rewrite Forall_forall in IHts, H.
    by apply IHts, H.
  - intros H. apply existsb_false_elim in H. rewrite rmap_id; [done |].
    apply Forall_forall. intros t Ht. rewrite Forall_forall in IHts, H.
    by apply IHts, H.
Qed.

Lemma inst_types_plain (h : gmap loc Class) (l : list pytd_type) :
  Forall (λ t, has_container t = false) l → rmap (inst_type h) l = Ok l.
Proof.
  intros H. apply rmap_id. eapply Forall_impl; [exact H |].
  intros t. apply inst_type_plain.
Qed.

Lemma Forall_concat_map {A B} (P : B → Prop) (g : A → list B) (l : list A) :
  Forall P (concat (map g l)) → Forall (λ x, Forall P (g x)) l.
Proof.
  induction l as [|x l IH]; [constructor |]. cbn [map concat].
  intros H. apply Forall_app in H as [Hx Hl]. constructor; [done | by apply IH].
Qed.

Lemma inst_Constant_plain (h : gmap loc Class) (c : Constant) :
  Forall (λ t, has_container t = false) (types_Constant c) → inst_Constant h c = Ok c.
Proof.
  intros H. apply Forall_cons in H as [H _]. unfold inst_Constant.
  rewrite inst_type_plain by done. by destruct c.
Qed.

Lemma inst_Parameter_plain (h : gmap loc Class) (p : Param) :
  Forall (λ t, has_container t = false) (types_Parameter p) →
  inst_Parameter h p = Ok p.
Proof.
  intros H. apply Forall_cons in H as [H _]. unfold inst_Parameter.
  rewrite inst_type_plain by done. by destruct p.
Qed.

Lemma inst_TemplateItem_plain (h : gmap loc Class) (t : TemplateItem) :
  Forall (λ t, has_container t = false) (types_TemplateItem t) →
  inst_TemplateItem h t = Ok t.
Proof.
  intros H. apply Forall_cons in H as [H _]. unfold inst_TemplateItem.
  rewrite inst_type_plain by done. by destruct t.
Qed.

Lemma inst_Signature_plain (h : gmap loc Class) (sg : Signature) :
  Forall (λ t, has_container t = false) (types_Signature sg) →
  inst_Signature h sg = Ok sg.
Proof.
  intros H. unfold types_Signature in H.
  apply Forall_app in H as [Hps H]. apply Forall_app in H as [Hr Hes].
  apply Forall_cons in Hr as [Hr _]. unfold inst_Signature.
  rewrite rmap_id.
  - rewrite inst_type_plain, inst_types_plain by done. by destruct sg.
  - eapply Forall_impl; [exact (Forall_concat_map _ _ _ Hps) |].
    intros p. apply inst_Parameter_plain.
Qed.

Lemma inst_Function_plain (h : gmap loc Class) (f : Function) :
  Forall (λ t, has_container t = false) (types_Function f) →
  inst_Function h f = Ok f.
Proof.
  intros H. unfold inst_Function. rewrite rmap_id; [by destruct f |].
  eapply Forall_impl; [exact (Forall_concat_map _ _ _ H) |].
  intros sg. apply inst_Signature_plain.
Qed.

(** A class without container types comes out of the visit with the fields
    it had. *)
Lemma inst_Class_plain (h : gmap loc Class) (o : loc) (c : Class) :
  plain c →
  inst_Class h o c =
    Ok {| cls_oid := o; cls_name := cls_name c; cls_template := cls_template c;
          cls_parents := cls_parents c; cls_constants := cls_constants c;
          cls_methods := cls_methods c |}.
Proof.
  unfold plain, types_Class. intros H.
  apply Forall_app in H as [Ht H]. apply Forall_app in H as [Hps H].
  apply Forall_app in H as [Hcs Hms]. unfold inst_Class.
  assert (inst_template h (cls_template c) = Ok (cls_template c)) as ->.
  { destruct (cls_template c) as [l|]; [| done]. cbn [inst_template types_template] in *.
    rewrite rmap_id; [done |].
    eapply Forall_impl; [exact (Forall_concat_map _ _ _ Ht) |].
    intros t. apply inst_TemplateItem_plain. }
  rewrite inst_types_plain by done. cbn [rbind].
  rewrite rmap_id.
  2:{ eapply Forall_impl; [exact (Forall_concat_map _ _ _ Hcs) |].
      intros k. apply inst_Constant_plain. }
  cbn [rbind]. rewrite rmap_id; [done |].
  eapply Forall_impl; [exact (Forall_concat_map _ _ _ Hms) |].
  intros f. apply inst_Function_plain.
Qed.

Lemma inst_Class_shape (h : gmap loc Class) (o : loc) (c c' : Class) :
  inst_Class h o c = Ok c' →
  cls_oid c' = o ∧ cls_name c' = cls_name c ∧
  (cls_template c' = None ↔ cls_template c = None).
Proof.
  unfold inst_Class. intros H.
  destruct (inst_template h (cls_template c)) as [t|] eqn:Ht; [| done].
  destruct (rmap (inst_type h) (cls_parents c)) as [ps|]; [| done].
  destruct (rmap (inst_Constant h) (cls_constants c)) as [cs|]; [| done].
  destruct (rmap (inst_Function h) (cls_methods c)) as [ms|]; [| done].
  injection H as <-. cbn. split; [done |]. split; [done |].
  destruct (cls_template c) as [l|]; cbn [inst_template] in Ht.
  - destruct (rmap (inst_TemplateItem h) l); [| done]. by injection Ht as <-.
  - by injection Ht as <-.
Qed.

(** ** The module a completed run returns *)

(** C7.  When a run of [InstantiateTemplates] completes, the class list of
    the module it returns is made of the original classes that have no
    template, each as the traversal has rebuilt it, followed by the classes
    of the dictionary of this run.  A rebuilt class is the original with
    every container type in it replaced by the NamedType of its canonical
    name, as [inst_Class] says; it bears the name of the original, has a
    template exactly if the original has one, and when the original holds
    no container type it has all the fields of the original.  The
    dictionary holds the classes produced in this run and nothing else:
    every entry has been made for a container type of the module, and the
    canonical name of every container type of the module has an entry.  No
    class of the result has a template, whether or not the generic classes
    were instantiated. *)
Theorem final_class_list (symbol_table unit unit' : TypeDeclUnit) (s s' : state) :
  InstantiateTemplates.run symbol_table unit s = (Ok (Some unit'), s') →
  ∃ visited : list Class,
    Forall2 (λ c c',
               inst_Class (cells s) (cls_oid c') c = Ok c' ∧
               cls_name c' = cls_name c ∧
               (cls_template c' = None ↔ cls_template c = None) ∧
               (plain c →
                c' = {| cls_oid := cls_oid c'; cls_name := cls_name c;
                        cls_template := cls_template c;
                        cls_parents := cls_parents c;
                        cls_constants := cls_constants c;
                        cls_methods := cls_methods c |}))
      (unit_classes unit) visited ∧
    unit_classes unit' =
      (filter (λ c, cls_template c = None) visited
         ++ values (instantiated_classes s'))%list ∧
    Forall (λ c, cls_template c = None) (unit_classes unit') ∧
    (∀ k c, instantiated_classes s' !! k = Some c →
       made (cells s) symbol_table (containers_TypeDeclUnit unit) k c) ∧
    (∀ b e, (b, e) ∈ containers_TypeDeclUnit unit →
       ∃ k c, key_of (cells s) b e = Ok k ∧ instantiated_classes s' !! k = Some c ∧
              c ∈ unit_classes unit') ∧
    rmap (inst_Constant (cells s)) (unit_constants unit) = Ok (unit_constants unit') ∧
    rmap (inst_Function (cells s)) (unit_functions unit) = Ok (unit_functions unit').
Proof.
  intros H.
  destruct (final_class_list_outline _ _ _ _ _ H) as (_ & _ & _ & Hconcrete).
  unfold InstantiateTemplates.run in H.
  erewrite bind_Ok in H by reflexivity.
  unfold Visit_TypeDeclUnit in H.
  apply bind_inv_Ok in H as (cs & s1 & H1 & H).
  apply bind_inv_Ok in H as (fs & s2 & H2 & H).
  apply bind_inv_Ok in H as (cls & s3 & H3 & H).
  injection H as <- <-.
  destruct (instantiates_all (cells s) symbol_table _ _ _ (unit_constants unit)
              (instantiates_Constant (cells s) symbol_table)
              {| cells := cells s; next := next s; instantiated_classes := ∅ |}
              cs s1 eq_refl H1)
    as [Hd1 Ht1].
  destruct (instantiates_all (cells s) symbol_table _ _ _ (unit_functions unit)
              (instantiates_Function (cells s) symbol_table) _ _ _ (proj1 Ht1) H2)
    as [Hd2 Ht2].
  destruct (instantiates_classes (cells s) symbol_table _ _ _ _ (proj1 Ht2) H3)
    as [Hall Ht3].
  pose proof (track_app _ _ _ _ _ _ _ Ht1 (track_app _ _ _ _ _ _ _ Ht2 Ht3))
    as (_ & _ & _ & Hmade & Hkeys).
  fold (containers_TypeDeclUnit unit) in Hmade, Hkeys.
  exists cls. cbn [unit_classes unit_constants unit_functions].
  split; [| split; [done |]; split; [done |]; split; [| split; [| done]]].
  - eapply Forall2_impl; [exact Hall |]. intros c c' [Hc _].
    destruct (inst_Class_shape _ _ _ _ Hc) as (_ & Hname & Htpl).
    split; [done |]. split; [done |]. split; [done |].
    intros Hplain. rewrite (inst_Class_plain _ _ _ Hplain) in Hc. by injection Hc.
  - intros k c Hk. destruct (Hmade k c Hk) as [Hk'|]; [| done].
    cbn in Hk'. by rewrite lookup_empty in Hk'.
  - intros b e Hin. destruct (Hkeys b e Hin) as (k & Hkey & [c Hc]).
    exists k, c. split; [done |]. split; [done |].
    apply elem_of_app. right. unfold values.
    apply list_elem_of_fmap. exists (k, c). split; [done |].
    by apply elem_of_map_to_list.
Qed.

Lemma final_class_list_witness :
  ∃ visited : list Class,
    Forall2 (λ c c',
               inst_Class (cells initial_state) (cls_oid c') c = Ok c' ∧
               cls_name c' = cls_name c ∧
               (cls_template c' = None ↔ cls_template c = None) ∧
               (plain c →
                c' = {| cls_oid := cls_oid c'; cls_name := cls_name c;
                        cls_template := cls_template c;
                        cls_parents := cls_parents c;
                        cls_constants := cls_constants c;
                        cls_methods := cls_methods c |}))
      (unit_classes module_own_Box_int) visited ∧
    unit_classes module_own_Box_int_instantiated =
      (filter (λ c, cls_template c = None) visited
         ++ values (instantiated_classes state_own_Box_int_instantiated))%list ∧
    Forall (λ c, cls_template c = None)
      (unit_classes module_own_Box_int_instantiated) ∧
    (∀ k c, instantiated_classes state_own_Box_int_instantiated !! k = Some c →
       made (cells initial_state) module_own_Box_int
         (containers_TypeDeclUnit module_own_Box_int) k c) ∧
    (∀ b e, (b, e) ∈ containers_TypeDeclUnit module_own_Box_int →
       ∃ k c, key_of (cells initial_state) b e = Ok k ∧
              instantiated_classes state_own_Box_int_instantiated !! k = Some c ∧
              c ∈ unit_classes module_own_Box_int_instantiated) ∧
    rmap (inst_Constant (cells initial_state)) (unit_constants module_own_Box_int)
      = Ok (unit_constants module_own_Box_int_instantiated) ∧
    rmap (inst_Function (cells initial_state)) (unit_functions module_own_Box_int)
      = Ok (unit_functions module_own_Box_int_instantiated).
Proof.
  apply (final_class_list module_own_Box_int module_own_Box_int
           module_own_Box_int_instantiated initial_state
           state_own_Box_int_instantiated).
  vm_compute. reflexivity.
Defined.

(** ** A module that holds a GenericType *)















(** *** Which exception *)









Lemma checked_nil (symbol_table : TypeDeclUnit) : checked symbol_table [] [].
Proof. split; [done | constructor]. Qed.




Section Checked.

Variable symbol_table : TypeDeclUnit.


End Checked.

Section CheckedTree.

Variable symbol_table : TypeDeclUnit.









End CheckedTree.

(** *** What a failure leaves in the dictionary *)


Section Prefix.

Variable symbol_table : TypeDeclUnit.






End Prefix.



(** [module_generic] is such a module: it has no ClassReference and its one
    container type, [Box<int>], can be instantiated; and the part of it
    that comes before the generic type, the constant [x], is instantiated
    on its own with [Box<int>] in the dictionary. *)
Example module_generic_checked :
  checked module_generic (links_TypeDeclUnit module_generic)
    (containers_TypeDeclUnit module_generic) ∧
  before {| unit_constants := [{| const_name := "x"; const_type := Box_of_int |}];
            unit_functions := []; unit_classes := [] |} module_generic ∧
  ∃ r1, InstantiateTemplates.run module_generic
          {| unit_constants := [{| const_name := "x"; const_type := Box_of_int |}];
             unit_functions := []; unit_classes := [] |} initial_state
        = (Ok r1, state_Box_once).
Proof.
  split; [| split].
  - split; [reflexivity |]. repeat constructor.
    by exists "Box", Box, [{| tmpl_name := "T"; tmpl_within_type := object_type |}].
  - left. by eexists.
  - eexists. vm_compute. reflexivity.
Qed.
